(** * binary-pack-js: a shallow embedding of the envelope codec and its
      byte transforms, with the properties of the specification.

    Layout of the development, following the source tree:
    - [JS]                 the integer fragment of JavaScript the code uses
                           (ToInt32, [<<], [|], [^], [%], typed-array stores)
    - [TextEncoder]        UTF-8 encoding of a JavaScript string
    - [Hash]               src/Utils/Hash.js
    - [XOR], [AES], [Caesar]   src/EncryptionMethod/Methods/*.js
    - [Methods]            the registry [AvailableMethods]
    - [EncryptionMethod]   src/EncryptionMethod/EncryptionMethod.js
    - [BinaryPack]         src/binary-pack.js
    Theorems come after all the definitions. *)

From Stdlib Require Import ZArith Lia.
From stdpp Require Import base numbers option list strings gmap.

Local Open Scope Z_scope.

(** ** JavaScript strings and numbers *)

(** A JavaScript string is a sequence of UTF-16 code units. *)
Definition JSString : Type := list Z.

(** A string literal of the source, as code units (ASCII only). *)
Definition js (s : string) : JSString :=
  (λ a, Z.of_nat (Ascii.nat_of_ascii a)) <$> String.list_ascii_of_string s.
Arguments js s%_string.

(** The values the untyped parameters of the code can receive; only the
    cases the code distinguishes ([typeof], truthiness) are kept. *)
Inductive JSPrim : Type :=
| Null
| Undefined
| Bool (b : bool)
| Num (n : Z)
| Str (s : JSString).

(** [string | null] parameters. *)
Definition of_nullable (o : option JSString) : JSPrim :=
  match o with Some s => Str s | None => Null end.

(** Truthiness of a [string | null]: [null] and [''] are falsy. *)
Definition truthy (o : option JSString) : bool :=
  match o with
  | None => false
  | Some s => negb (bool_decide (s = []))
  end.

Inductive Error : Type :=
| InvalidInput                 (* Hash.secret: the parameter must be a string *)
| ConfigMethodRequired         (* a secret without a method *)
| ConfigSecretRequired         (* a method without a secret *)
| UnsupportedMethod            (* a method name outside the registry *)
| FormatVersionMismatch
| MethodMismatch
| InvalidLength
| RangeError                   (* DataView / typed array access out of bounds *)
| SyntaxError                  (* JSON.parse *)
| TypeError                    (* JSON.stringify, detached or missing buffer *)
| PackError (cause : Error)    (* the catch of pack *)
| UnpackError (cause : Error). (* the catch of unpack *)

Inductive Result (A : Type) : Type :=
| Ok (a : A)
| Err (e : Error).
Arguments Ok {A} a.
Arguments Err {A} e.

(** The two constructor errors the specification calls [ConfigError]. *)
Definition is_ConfigError (e : Error) : bool :=
  match e with
  | ConfigMethodRequired | ConfigSecretRequired => true
  | _ => false
  end.

(** ** The store of [ArrayBuffer]s

    Buffers are mutable and shared by reference: a buffer is a location
    of a store, and every view ([DataView], [Uint8Array]) of a buffer
    reads and writes that location. A computation takes the store,
    returns a value or a thrown error, and the store it leaves. *)

Abbreviation Heap := (gmap nat (list Z)).

Definition M (A : Type) : Type := Heap → Result A * Heap.

Definition ret {A : Type} (a : A) : M A := λ h, (Ok a, h).

Definition bind {A B : Type} (m : M A) (k : A → M B) : M B :=
  λ h, match m h with
       | (Ok a, h') => k a h'
       | (Err e, h') => (Err e, h')
       end.

Definition throw {A : Type} (e : Error) : M A := λ h, (Err e, h).

(** try { m } catch (error) { handler(error) } *)
Definition try_catch {A : Type} (m : M A) (handler : Error → M A) : M A :=
  λ h, match m h with
       | (Ok a, h') => (Ok a, h')
       | (Err e, h') => handler e h'
       end.

Notation "'let*' x ':=' m 'in' k" := (bind m (λ x, k))
  (at level 10, x name, m at level 100, k at level 200,
   format "'[v' 'let*'  x  ':='  m  'in' '/' k ']'").
Notation "m ';;;' k" := (bind m (λ _, k))
  (at level 100, k at level 200, right associativity).

Module JS.

(** ToInt32: the signed 32-bit representative. *)
Definition ToInt32 (x : Z) : Z := (x + 2 ^ 31) mod 2 ^ 32 - 2 ^ 31.

(** ToUint32, as [DataView.setUint32] applies it. *)
Definition ToUint32 (x : Z) : Z := x mod 2 ^ 32.

(** ToUint8, as a store into a [Uint8Array] or [DataView.setUint8]
    applies it. *)
Definition ToUint8 (x : Z) : Z := x mod 2 ^ 8.

(** [a << b] *)
Definition shl (a b : Z) : Z :=
  ToInt32 (Z.shiftl (ToInt32 a) (ToUint32 b mod 32)).

(** [a | b] *)
Definition bitor (a b : Z) : Z := Z.lor (ToInt32 a) (ToInt32 b).

(** [a ^ b] *)
Definition bitxor (a b : Z) : Z := Z.lxor (ToInt32 a) (ToInt32 b).

(** [a % b] on integers, [b] not zero: the sign follows the dividend. *)
Definition rem (a b : Z) : Z := Z.rem a b.

(** for (let i = 0; i < n; i++) body(i) *)
Definition for_up {S : Type} (n : nat) (body : nat → S → S) (s : S) : S :=
  foldl (λ s i, body i s) s (seq 0 n).

(** for (let i = n - 1; i >= 0; i--) body(i) *)
Definition for_down {S : Type} (n : nat) (body : nat → S → S) (s : S) : S :=
  foldl (λ s i, body i s) s (reverse (seq 0 n)).

End JS.

Module ArrayBuffer.

(** new ArrayBuffer(n): a fresh, zero-filled buffer. *)
Definition new (n : nat) : M nat :=
  λ h, let l := fresh (dom h) in (Ok l, <[l := replicate n 0]> h).

Definition load (l : nat) : M (list Z) :=
  λ h, match h !! l with
       | Some b => (Ok b, h)
       | None => (Err TypeError, h)
       end.

Definition store (l : nat) (b : list Z) : M unit :=
  λ h, (Ok tt, <[l := b]> h).

(** buffer.slice(begin): a fresh buffer holding a copy. *)
Definition slice (l : nat) (begin : nat) : M nat :=
  let* b := load l in
  λ h, let l' := fresh (dom h) in (Ok l', <[l' := drop begin b]> h).

Definition byteLength (l : nat) : M nat :=
  let* b := load l in ret (length b).

End ArrayBuffer.

(** A [DataView] over a whole buffer; multi-byte accesses are big-endian
    (the default of [getUint32] and [setUint32]). *)
Module DataView.

Definition getUint8 (l : nat) (off : nat) : M Z :=
  let* b := ArrayBuffer.load l in
  match b !! off with
  | Some x => ret x
  | None => throw RangeError
  end.

Definition setUint8 (l : nat) (off : nat) (v : Z) : M unit :=
  let* b := ArrayBuffer.load l in
  if bool_decide (off < length b)%nat
  then ArrayBuffer.store l (<[off := JS.ToUint8 v]> b)
  else throw RangeError.

Definition getUint32 (l : nat) (off : nat) : M Z :=
  let* b := ArrayBuffer.load l in
  match take 4 (drop off b) with
  | [b0; b1; b2; b3] => ret (b0 * 2 ^ 24 + b1 * 2 ^ 16 + b2 * 2 ^ 8 + b3)
  | _ => throw RangeError
  end.

Definition setUint32 (l : nat) (off : nat) (v : Z) : M unit :=
  let* b := ArrayBuffer.load l in
  if bool_decide (off + 4 ≤ length b)%nat
  then
    let u := JS.ToUint32 v in
    ArrayBuffer.store l
      (<[off := u / 2 ^ 24]>
         (<[S off := (u / 2 ^ 16) mod 2 ^ 8]>
            (<[S (S off) := (u / 2 ^ 8) mod 2 ^ 8]>
               (<[S (S (S off)) := u mod 2 ^ 8]> b))))
  else throw RangeError.

End DataView.

(** Elements of a [Uint8Array]: reads inside the bounds, stores wrapped
    to 8 bits (a store outside the bounds is ignored, as [<[_:=_]>] does). *)
Module Uint8Array.

Definition get (a : list Z) (i : nat) : Z := a !!! i.

Definition set (a : list Z) (i : nat) (v : Z) : list Z :=
  <[i := JS.ToUint8 v]> a.

(** [k[j % k.length]] read as an operand of [^]. For an empty [k] the
    index is NaN, the read gives [undefined], and [^] takes it as 0. *)
Definition cyclic_operand (k : list Z) (j : nat) : Z :=
  match k with
  | [] => 0
  | _ => get k (Z.to_nat (JS.rem (Z.of_nat j) (Z.of_nat (length k))))
  end.

(** new Uint8Array(buffer, off).set(src): copy [src] into the buffer
    from byte [off] on. *)
Definition set_from (l : nat) (off : nat) (src : list Z) : M unit :=
  let* b := ArrayBuffer.load l in
  if bool_decide (off + length src ≤ length b)%nat
  then ArrayBuffer.store l (take off b ++ src ++ drop (off + length src) b)
  else throw RangeError.

(** The elements of new Uint8Array(buffer, off, len). *)
Definition elements (l : nat) (off len : nat) : M (list Z) :=
  let* b := ArrayBuffer.load l in
  if bool_decide (off + len ≤ length b)%nat
  then ret (take len (drop off b))
  else throw RangeError.

(** Run a method that mutates its argument in place on
    new Uint8Array(buffer).subarray(off): the view shares the bytes of
    the buffer from [off] on (none when [off] is past the end), so the
    elements the method leaves are written through to the buffer. *)
Definition on_subarray (l : nat) (off : nat)
    (f : list Z → Result (list Z)) : M unit :=
  let* b := ArrayBuffer.load l in
  match f (drop off b) with
  | Ok d => ArrayBuffer.store l (take off b ++ d)
  | Err e => throw e
  end.

End Uint8Array.

(** ** TextEncoder: UTF-8 of a sequence of UTF-16 code units (the
    platform's encoder; a lone surrogate is encoded as U+FFFD). *)
Module TextEncoder.

Definition is_high_surrogate (c : Z) : bool := (55296 <=? c) && (c <=? 56319).
Definition is_low_surrogate (c : Z) : bool := (56320 <=? c) && (c <=? 57343).

Definition utf8_of_code_point (cp : Z) : list Z :=
  if cp <? 128 then [cp]
  else if cp <? 2048 then [192 + cp / 64; 128 + cp mod 64]
  else if cp <? 65536 then
    [224 + cp / 4096; 128 + (cp / 64) mod 64; 128 + cp mod 64]
  else
    [240 + (cp / 262144) mod 8; 128 + (cp / 4096) mod 64;
     128 + (cp / 64) mod 64; 128 + cp mod 64].

Fixpoint utf8 (s : JSString) : list Z :=
  match s with
  | [] => []
  | c :: rest =>
      if is_high_surrogate c then
        match rest with
        | c2 :: rest' =>
            if is_low_surrogate c2
            then utf8_of_code_point
                   (65536 + (c - 55296) * 1024 + (c2 - 56320)) ++ utf8 rest'
            else utf8_of_code_point 65533 ++ utf8 rest
        | [] => utf8_of_code_point 65533
        end
      else if is_low_surrogate c then utf8_of_code_point 65533 ++ utf8 rest
      else utf8_of_code_point c ++ utf8 rest
  end.

(** [encoder.encode(x)] for [x : string | null]: [null] is converted to
    the string 'null' first. *)
Definition encode (input : option JSString) : list Z :=
  utf8 (match input with Some s => s | None => js "null" end).

End TextEncoder.

(** ** src/Utils/Hash.js *)
Module Hash.

(** One turn of the loop:
    [hash = ((hash << 5) - hash) + secret.charCodeAt(i); hash |= 0]. *)
Definition step (hash c : Z) : Z :=
  JS.bitor ((JS.shl hash 5 - hash) + c) 0.

Definition secret (secret : JSPrim) : Result Z :=
  match secret with
  | Str s =>
      if bool_decide (length s = 0%nat) then Ok 0
      else Ok (Z.abs (foldl step 0 s))
  | _ => Err InvalidInput
  end.

End Hash.

(** ** src/EncryptionMethod/Methods/XOR.js *)
Module XOR.

Definition name : JSString := js "xor".

Definition encrypt (secret : option JSString) (dataPart : list Z)
  : Result (list Z) :=
  let secretBytes := TextEncoder.encode secret in
  Ok (JS.for_up (length dataPart)
        (λ i d,
           Uint8Array.set d i
             (JS.bitxor (Uint8Array.get d i)
                        (Uint8Array.cyclic_operand secretBytes i)))
        dataPart).

Definition decrypt (secret : option JSString) (dataPart : list Z)
  : Result (list Z) :=
  encrypt secret dataPart.

End XOR.

(** ** src/EncryptionMethod/Methods/AES.js *)
Module AES.

Definition name : JSString := js "aes-like".

Definition rounds : nat := 3.

Definition encrypt (secret : option JSString) (dataPart : list Z)
  : Result (list Z) :=
  let secretBytes := TextEncoder.encode secret in
  Ok (JS.for_up rounds
        (λ round,
           JS.for_up (length dataPart)
             (λ i d,
                let secretByte :=
                  Uint8Array.cyclic_operand secretBytes (i + round) in
                Uint8Array.set d i
                  (JS.rem
                     ((JS.bitxor (Uint8Array.get d i) secretByte)
                      + Z.of_nat round + Z.of_nat i)
                     256)))
        dataPart).

Definition decrypt (secret : option JSString) (dataPart : list Z)
  : Result (list Z) :=
  let secretBytes := TextEncoder.encode secret in
  Ok (JS.for_down rounds
        (λ round,
           JS.for_down (length dataPart)
             (λ i d,
                let secretByte :=
                  Uint8Array.cyclic_operand secretBytes (i + round) in
                Uint8Array.set d i
                  (JS.bitxor
                     (JS.rem
                        (Uint8Array.get d i - Z.of_nat round - Z.of_nat i
                         + 256)
                        256)
                     secretByte)))
        dataPart).

End AES.

(** ** src/EncryptionMethod/Methods/Caesar.js *)
Module Caesar.

Definition name : JSString := js "caesar".

Definition encrypt (secret : option JSString) (dataPart : list Z)
  : Result (list Z) :=
  match Hash.secret (of_nullable secret) with
  | Err e => Err e
  | Ok secretHash =>
      let shift := JS.rem secretHash 26 in
      Ok (JS.for_up (length dataPart)
            (λ i d,
               Uint8Array.set d i (JS.rem (Uint8Array.get d i + shift) 256))
            dataPart)
  end.

Definition decrypt (secret : option JSString) (dataPart : list Z)
  : Result (list Z) :=
  match Hash.secret (of_nullable secret) with
  | Err e => Err e
  | Ok secretHash =>
      let shift := JS.rem secretHash 26 in
      Ok (JS.for_up (length dataPart)
            (λ i d,
               Uint8Array.set d i
                 (JS.rem (Uint8Array.get d i - shift + 256) 256))
            dataPart)
  end.

End Caesar.

(** ** The registry (src/EncryptionMethod/Methods/index.js)

    [MethodInterface] is the contract of the three classes: a constructor
    taking the secret, and [encrypt] and [decrypt] mutating a byte slice;
    a class is given by what its two methods leave in the slice. *)
Record MethodInterface : Type := {
  method_encrypt : option JSString → list Z → Result (list Z);
  method_decrypt : option JSString → list Z → Result (list Z)
}.

Module Methods.

Record entry : Type := {
  code : Z;
  name : JSString;
  instance : MethodInterface
}.

Definition XOR_class : MethodInterface :=
  {| method_encrypt := XOR.encrypt; method_decrypt := XOR.decrypt |}.

Definition AES_class : MethodInterface :=
  {| method_encrypt := AES.encrypt; method_decrypt := AES.decrypt |}.

Definition Caesar_class : MethodInterface :=
  {| method_encrypt := Caesar.encrypt; method_decrypt := Caesar.decrypt |}.

Definition AvailableMethods : list entry :=
  [ {| code := 1; name := XOR.name; instance := XOR_class |};
    {| code := 2; name := AES.name; instance := AES_class |};
    {| code := 3; name := Caesar.name; instance := Caesar_class |} ].

End Methods.

(** ** src/EncryptionMethod/EncryptionMethod.js *)
Module EncryptionMethod.

Record t : Type := {
  secret : option JSString;
  metaLength : nat;
  methods : list Methods.entry
}.

Definition new (secret : option JSString) (metaLength : nat) : t :=
  {| secret := secret;
     metaLength := metaLength;
     methods := Methods.AvailableMethods |}.

(** this.methods.find(({name}) => name === method) *)
Definition find_by_name (this : t) (method : option JSString)
  : option Methods.entry :=
  List.find (λ e, bool_decide (Some (Methods.name e) = method)) (methods this).

(** this.methods.find(({code}) => code === methodCode) *)
Definition find_by_code (this : t) (methodCode : Z) : option Methods.entry :=
  List.find (λ e, bool_decide (Methods.code e = methodCode)) (methods this).

Definition encrypt (this : t) (buffer : nat) (method : option JSString)
  : M nat :=
  match find_by_name this method with
  | None => ret buffer
  | Some existMethod =>
      Uint8Array.on_subarray buffer (metaLength this)
        (method_encrypt (Methods.instance existMethod) (secret this)) ;;;
      ret buffer
  end.

Definition decrypt (this : t) (buffer : nat) (methodCode : Z) : M nat :=
  match find_by_code this methodCode with
  | None => ret buffer
  | Some existMethod =>
      Uint8Array.on_subarray buffer (metaLength this)
        (method_decrypt (Methods.instance existMethod) (secret this)) ;;;
      ret buffer
  end.

Definition getEncryptionMethodCode (this : t) (method : option JSString) : Z :=
  match find_by_name this method with
  | None => 0
  | Some existMethod => Methods.code existMethod
  end.

(** [None] is the [null] the source returns for an unknown code. *)
Definition getEncryptionMethodName (this : t) (methodCode : Z)
  : option JSString :=
  match find_by_code this methodCode with
  | None => None
  | Some existMethod => Some (Methods.name existMethod)
  end.

End EncryptionMethod.

(** ** The platform functions of the codec

    [JSON.stringify], [JSON.parse] and [TextDecoder.decode] belong to the
    JavaScript runtime, not to the repository; the codec is written over
    any implementation of them. [JSON.stringify] returns a text, returns
    [undefined] (for a value with no JSON form, such as [undefined]), or
    throws; [JSON.parse] returns a value or throws a [SyntaxError]
    ([None]). *)
Inductive Stringified : Type :=
| Text (s : JSString)
| NoText.

Class Runtime : Type := {
  JSValue : Type;
  JSON_stringify : JSValue → Result Stringified;
  JSON_parse : JSString → option JSValue;
  TextDecoder_decode : list Z → JSString
}.

(** [encoder.encode(JSON.stringify(data))]: [encode(undefined)] takes the
    default argument, the empty string. *)
Definition encode_stringified (r : Stringified) : list Z :=
  match r with
  | Text s => TextEncoder.encode (Some s)
  | NoText => TextEncoder.encode (Some [])
  end.

(** ** src/binary-pack.js *)
Module BinaryPack.

Definition VERSION : Z := 1.
Definition OFFSET_VERSION : nat := 0.
Definition OFFSET_METHOD_CODE : nat := 1.
Definition OFFSET_DATA_LENGTH : nat := 2.
Definition OFFSET_DATA : nat := 6.
Definition META_LENGTH : nat := 6.

Record t : Type := {
  secret : option JSString;
  encryptionMethod : option JSString;
  encryptor : EncryptionMethod.t;
  validMethodsName : list JSString
}.

(** The constructor: the fields are set first, then the parameters are
    validated; a throw leaves no instance. *)
Definition new (secret encryptionMethod : option JSString) : Result t :=
  let this :=
    {| secret := secret;
       encryptionMethod := encryptionMethod;
       encryptor := EncryptionMethod.new secret META_LENGTH;
       validMethodsName := Methods.name <$> Methods.AvailableMethods |} in
  if truthy secret && negb (truthy encryptionMethod)
  then Err ConfigMethodRequired
  else if truthy encryptionMethod && negb (truthy secret)
  then Err ConfigSecretRequired
  else if truthy encryptionMethod
          && negb (bool_decide
                     (Exists (λ n, Some n = encryptionMethod)
                        (validMethodsName this)))
  then Err UnsupportedMethod
  else Ok this.

Section WithRuntime.
Context `{RT : Runtime}.

Definition pack (this : t) (data : JSValue) : M nat :=
  try_catch
    (match JSON_stringify data with
     | Err e => throw e
     | Ok jsonString =>
         let stringBytes := encode_stringified jsonString in
         let* buffer := ArrayBuffer.new (length stringBytes + META_LENGTH) in
         DataView.setUint8 buffer OFFSET_VERSION VERSION ;;;
         let methodCode :=
           EncryptionMethod.getEncryptionMethodCode
             (encryptor this) (encryptionMethod this) in
         DataView.setUint8 buffer OFFSET_METHOD_CODE methodCode ;;;
         DataView.setUint32 buffer OFFSET_DATA_LENGTH
           (Z.of_nat (length stringBytes)) ;;;
         Uint8Array.set_from buffer OFFSET_DATA stringBytes ;;;
         if truthy (secret this) && truthy (encryptionMethod this)
         then EncryptionMethod.encrypt
                (encryptor this) buffer (encryptionMethod this)
         else ret buffer
     end)
    (λ error, throw (PackError error)).

Definition unpack (this : t) (buffer : nat) : M JSValue :=
  try_catch
    (let* bufferCopy := ArrayBuffer.slice buffer 0 in
     let* version := DataView.getUint8 bufferCopy OFFSET_VERSION in
     (if bool_decide (version ≠ VERSION)
      then throw FormatVersionMismatch else ret tt) ;;;
     let* methodCode := DataView.getUint8 bufferCopy OFFSET_METHOD_CODE in
     (if truthy (secret this) && truthy (encryptionMethod this)
      then
        let storedMethod :=
          EncryptionMethod.getEncryptionMethodName
            (encryptor this) methodCode in
        if bool_decide (encryptionMethod this ≠ storedMethod)
        then throw MethodMismatch
        else EncryptionMethod.decrypt (encryptor this) bufferCopy methodCode
             ;;; ret tt
      else ret tt) ;;;
     let* dataLength := DataView.getUint32 bufferCopy OFFSET_DATA_LENGTH in
     let* byteLength := ArrayBuffer.byteLength bufferCopy in
     (if bool_decide (dataLength > Z.of_nat byteLength - Z.of_nat META_LENGTH)
      then throw InvalidLength else ret tt) ;;;
     let* stringBytes :=
       Uint8Array.elements bufferCopy OFFSET_DATA (Z.to_nat dataLength) in
     let jsonString := TextDecoder_decode stringBytes in
     match JSON_parse jsonString with
     | Some value => ret value
     | None => throw SyntaxError
     end)
    (λ error, throw (UnpackError error)).

End WithRuntime.

End BinaryPack.

(** ** Element-wise readings of the loops, used in the proofs *)

(** The body of every loop of the three methods: element [i] is replaced
    by a function of [i] and of its own current value. *)
Definition update_at (g : nat → Z → Z) (i : nat) (d : list Z) : list Z :=
  Uint8Array.set d i (g i (Uint8Array.get d i)).

(** What the whole loop computes. *)
Definition pointwise (g : nat → Z → Z) (d : list Z) : list Z :=
  imap (λ i x, JS.ToUint8 (g i x)) d.

Definition is_byte (x : Z) : Prop := 0 ≤ x < 256.

(** What each loop body stores at index [i] over the value [x]. *)
Definition XOR_byte (k : list Z) (i : nat) (x : Z) : Z :=
  JS.bitxor x (Uint8Array.cyclic_operand k i).

Definition AES_encrypt_byte (k : list Z) (round i : nat) (x : Z) : Z :=
  JS.rem (JS.bitxor x (Uint8Array.cyclic_operand k (i + round))
          + Z.of_nat round + Z.of_nat i) 256.

Definition AES_decrypt_byte (k : list Z) (round i : nat) (x : Z) : Z :=
  JS.bitxor (JS.rem (x - Z.of_nat round - Z.of_nat i + 256) 256)
            (Uint8Array.cyclic_operand k (i + round)).

Definition Caesar_encrypt_byte (shift : Z) (i : nat) (x : Z) : Z :=
  JS.rem (x + shift) 256.

Definition Caesar_decrypt_byte (shift : Z) (i : nat) (x : Z) : Z :=
  JS.rem (x - shift + 256) 256.

(** ** Functional readings of the dispatcher and of the codec

    The same computations on the bytes of one buffer, without the store;
    the section [Store] proves that the operations of the source compute
    them. *)

Definition result_bind {A B : Type} (r : Result A) (k : A → Result B)
  : Result B :=
  match r with
  | Ok a => k a
  | Err e => Err e
  end.

Definition result_wrap {A : Type} (wrap : Error → Error) (r : Result A)
  : Result A :=
  match r with
  | Ok a => Ok a
  | Err e => Err (wrap e)
  end.

(** [JSON.parse] either returns or throws a [SyntaxError]. *)
Definition parsed {A : Type} (o : option A) : Result A :=
  match o with
  | Some a => Ok a
  | None => Err SyntaxError
  end.

(** The four bytes [setUint32] writes. *)
Definition be32 (v : Z) : list Z :=
  let u := JS.ToUint32 v in
  [u / 2 ^ 24; (u / 2 ^ 16) mod 2 ^ 8; (u / 2 ^ 8) mod 2 ^ 8; u mod 2 ^ 8].

(** The number [getUint32] reads at [off]. *)
Definition get32 (b : list Z) (off : nat) : Result Z :=
  match take 4 (drop off b) with
  | [b0; b1; b2; b3] => Ok (b0 * 2 ^ 24 + b1 * 2 ^ 16 + b2 * 2 ^ 8 + b3)
  | _ => Err RangeError
  end.

Definition get8 (b : list Z) (off : nat) : Result Z :=
  match b !! off with
  | Some x => Ok x
  | None => Err RangeError
  end.

(** The six bytes [pack] writes before the payload. *)
Definition header (methodCode : Z) (n : nat) : list Z :=
  [JS.ToUint8 BinaryPack.VERSION; JS.ToUint8 methodCode] ++ be32 (Z.of_nat n).

Definition region (off : nat) (f : list Z → Result (list Z)) (b : list Z)
  : Result (list Z) :=
  result_bind (f (drop off b)) (λ d, Ok (take off b ++ d)).

Definition encrypt_bytes (this : EncryptionMethod.t)
    (method : option JSString) (b : list Z) : Result (list Z) :=
  match EncryptionMethod.find_by_name this method with
  | None => Ok b
  | Some existMethod =>
      region (EncryptionMethod.metaLength this)
        (method_encrypt (Methods.instance existMethod)
           (EncryptionMethod.secret this)) b
  end.

Definition decrypt_bytes (this : EncryptionMethod.t)
    (methodCode : Z) (b : list Z) : Result (list Z) :=
  match EncryptionMethod.find_by_code this methodCode with
  | None => Ok b
  | Some existMethod =>
      region (EncryptionMethod.metaLength this)
        (method_decrypt (Methods.instance existMethod)
           (EncryptionMethod.secret this)) b
  end.

(** [this.secret && this.encryptionMethod] *)
Definition configured (this : BinaryPack.t) : bool :=
  truthy (BinaryPack.secret this) && truthy (BinaryPack.encryptionMethod this).

Definition valid_string (s : JSString) : Prop :=
  Forall (λ c, 0 ≤ c < 65536) s.

Section CodecReadings.
Context `{RT : Runtime}.

Definition pack_bytes (this : BinaryPack.t) (data : JSValue)
  : Result (list Z) :=
  result_wrap PackError
    (result_bind (JSON_stringify data) (λ jsonString,
       let stringBytes := encode_stringified jsonString in
       let b :=
         header
           (EncryptionMethod.getEncryptionMethodCode
              (BinaryPack.encryptor this) (BinaryPack.encryptionMethod this))
           (length stringBytes)
         ++ stringBytes in
       if configured this
       then encrypt_bytes (BinaryPack.encryptor this)
              (BinaryPack.encryptionMethod this) b
       else Ok b)).

(** The buffer copy after the method check of [unpack]. *)
Definition checked_copy (this : BinaryPack.t) (b : list Z)
  : Result (list Z) :=
  result_bind (get8 b BinaryPack.OFFSET_VERSION) (λ version,
  if bool_decide (version ≠ BinaryPack.VERSION)
  then Err FormatVersionMismatch
  else
  result_bind (get8 b BinaryPack.OFFSET_METHOD_CODE) (λ methodCode,
  if configured this
  then
    if bool_decide
         (BinaryPack.encryptionMethod this
          ≠ EncryptionMethod.getEncryptionMethodName
              (BinaryPack.encryptor this) methodCode)
    then Err MethodMismatch
    else decrypt_bytes (BinaryPack.encryptor this) methodCode b
  else Ok b)).

Definition unpack_bytes (this : BinaryPack.t) (b : list Z)
  : Result JSValue :=
  result_wrap UnpackError
    (result_bind (checked_copy this b) (λ b',
     result_bind (get32 b' BinaryPack.OFFSET_DATA_LENGTH) (λ dataLength,
     if bool_decide
          (dataLength
           > Z.of_nat (length b') - Z.of_nat BinaryPack.META_LENGTH)
     then Err InvalidLength
     else
       if bool_decide
            (BinaryPack.OFFSET_DATA + Z.to_nat dataLength ≤ length b')%nat
       then
         parsed
           (JSON_parse
              (TextDecoder_decode
                 (take (Z.to_nat dataLength)
                    (drop BinaryPack.OFFSET_DATA b'))))
       else Err RangeError))).

(** A value that has a JSON text from which the platform gives it
    back: [JSON.stringify] returns a well-formed text, the text decoder
    inverts the encoder on it, and [JSON.parse] returns the value. *)
Definition JSON_representable (v : JSValue) : Prop :=
  ∃ s : JSString,
    JSON_stringify v = Ok (Text s)
    ∧ valid_string s
    ∧ TextDecoder_decode (TextEncoder.encode (Some s)) = s
    ∧ JSON_parse s = Some v.

(** The UTF-8 byte length of the JSON text of a value. *)
Definition serialized_length (v : JSValue) (n : nat) : Prop :=
  ∃ r : Stringified,
    JSON_stringify v = Ok r ∧ length (encode_stringified r) = n.

End CodecReadings.

(** ** A small runtime, to run the codec on concrete values

    Its values are the JSON literals [null], [true] and [false]; its
    decoder reads ASCII (every other byte becomes U+FFFD). *)
Inductive Literal : Type := LNull | LTrue | LFalse.

Definition literal_stringify (v : Literal) : Result Stringified :=
  Ok (Text (match v with
            | LNull => js "null"
            | LTrue => js "true"
            | LFalse => js "false"
            end)).

Definition literal_parse (s : JSString) : option Literal :=
  if bool_decide (s = js "null") then Some LNull
  else if bool_decide (s = js "true") then Some LTrue
  else if bool_decide (s = js "false") then Some LFalse
  else None.

Definition ascii_decode (b : list Z) : JSString :=
  (λ x, if bool_decide (x < 128) then x else 65533) <$> b.

Definition literal_runtime : Runtime :=
  {| JSValue := Literal;
     JSON_stringify := literal_stringify;
     JSON_parse := literal_parse;
     TextDecoder_decode := ascii_decode |}.

(** The instance the constructor leaves for accepted parameters. *)
Definition packer (secret method : option JSString) : BinaryPack.t :=
  {| BinaryPack.secret := secret;
     BinaryPack.encryptionMethod := method;
     BinaryPack.encryptor :=
       EncryptionMethod.new secret BinaryPack.META_LENGTH;
     BinaryPack.validMethodsName :=
       Methods.name <$> Methods.AvailableMethods |}.

Definition plain_packer : BinaryPack.t := packer None None.

Definition xor_packer : BinaryPack.t :=
  packer (Some (js "k")) (Some (js "xor")).

(** ** The platform's base64 functions ([btoa] and [atob])

    [btoa] takes a binary string (code units below 256) to its base64
    text with padding and throws on any other string; [atob] is the
    forgiving base64 decoder: it drops ASCII whitespace, drops one or two
    trailing [=] when the length is a multiple of 4, and throws when the
    length is then 1 modulo 4 or a character is outside the alphabet.
    [None] is the [InvalidCharacterError] they throw. *)
Module WindowBase64.

Definition char_of_sextet (n : Z) : Z :=
  if n <? 26 then 65 + n
  else if n <? 52 then 97 + (n - 26)
  else if n <? 62 then 48 + (n - 52)
  else if n =? 62 then 43
  else 47.

Definition sextet_of_char (c : Z) : option Z :=
  if (65 <=? c) && (c <=? 90) then Some (c - 65)
  else if (97 <=? c) && (c <=? 122) then Some (c - 97 + 26)
  else if (48 <=? c) && (c <=? 57) then Some (c - 48 + 52)
  else if c =? 43 then Some 62
  else if c =? 47 then Some 63
  else None.

Fixpoint encode_bytes (s : list Z) : list Z :=
  match s with
  | b0 :: b1 :: b2 :: rest =>
      [char_of_sextet (b0 / 4);
       char_of_sextet ((b0 mod 4) * 16 + b1 / 16);
       char_of_sextet ((b1 mod 16) * 4 + b2 / 64);
       char_of_sextet (b2 mod 64)]
      ++ encode_bytes rest
  | [b0; b1] =>
      [char_of_sextet (b0 / 4);
       char_of_sextet ((b0 mod 4) * 16 + b1 / 16);
       char_of_sextet ((b1 mod 16) * 4);
       61]
  | [b0] =>
      [char_of_sextet (b0 / 4); char_of_sextet ((b0 mod 4) * 16); 61; 61]
  | [] => []
  end.

Definition btoa (s : JSString) : option JSString :=
  if forallb (λ c, (0 <=? c) && (c <? 256)) s
  then Some (encode_bytes s)
  else None.

Definition is_ascii_whitespace (c : Z) : bool :=
  bool_decide (c ∈ [9; 10; 12; 13; 32]).

Definition strip_padding (data : list Z) : list Z :=
  let n := length data in
  if bool_decide (drop (n - 2) data = [61; 61]) then take (n - 2) data
  else if bool_decide (drop (n - 1) data = [61]) then take (n - 1) data
  else data.

Fixpoint sextets (data : list Z) : option (list Z) :=
  match data with
  | [] => Some []
  | c :: rest =>
      match sextet_of_char c, sextets rest with
      | Some q, Some qs => Some (q :: qs)
      | _, _ => None
      end
  end.

(** Groups of four sextets give three bytes; a last group of two gives
    one byte and a last group of three gives two, the bits left over
    being dropped. *)
Fixpoint decode_sextets (q : list Z) : list Z :=
  match q with
  | s0 :: s1 :: s2 :: s3 :: rest =>
      [s0 * 4 + s1 / 16; (s1 mod 16) * 16 + s2 / 4; (s2 mod 4) * 64 + s3]
      ++ decode_sextets rest
  | [s0; s1; s2] => [s0 * 4 + s1 / 16; (s1 mod 16) * 16 + s2 / 4]
  | [s0; s1] => [s0 * 4 + s1 / 16]
  | _ => []
  end.

Definition atob (s : JSString) : option JSString :=
  let data := List.filter (λ c, negb (is_ascii_whitespace c)) s in
  let data :=
    if bool_decide (length data mod 4 = 0)%nat
    then strip_padding data else data in
  if bool_decide (length data mod 4 = 1)%nat then None
  else
    match sextets data with
    | Some q => Some (decode_sextets q)
    | None => None
    end.

End WindowBase64.

(** ** src/Utils/Base64.js *)

(** An argument that is an [ArrayBuffer] (a location of the store) or
    any other value. *)
Inductive JSArg : Type :=
| ArrayBufferRef (l : nat)
| Other (v : JSPrim).

Inductive Base64Error : Type :=
| ExpectedArrayBuffer     (* bufferToBase64: not an ArrayBuffer *)
| ExpectedString          (* base64ToBuffer: not a string *)
| InvalidBase64Format     (* base64ToBuffer: the regular expression fails *)
| DecodeFailure           (* base64ToBuffer: the catch around atob *)
| InvalidCharacterError.  (* thrown by btoa, not caught *)

Inductive Outcome (A : Type) : Type :=
| Returned (a : A)
| Thrown (e : Base64Error).
Arguments Returned {A} a.
Arguments Thrown {A} e.

Module Base64.

(** /^[A-Za-z0-9+/]*={0,2}$/.test(base64): after the longest run of
    alphabet characters nothing, one [=] or two [=] may be left. *)
Definition is_alphabet (c : Z) : bool :=
  bool_decide (is_Some (WindowBase64.sextet_of_char c)).

Fixpoint base64Regex_test (base64 : JSString) : bool :=
  match base64 with
  | [] => true
  | c :: rest =>
      if is_alphabet c then base64Regex_test rest
      else bool_decide (base64 = [61] ∨ base64 = [61; 61])
  end.

(** String.fromCharCode(x) *)
Definition fromCharCode (x : Z) : Z := x mod 2 ^ 16.

Definition bufferToBase64 (buffer : JSArg) (h : Heap) : Outcome JSString :=
  match buffer with
  | Other _ => Thrown ExpectedArrayBuffer
  | ArrayBufferRef l =>
      match h !! l with
      | None => Thrown ExpectedArrayBuffer
      | Some bytes =>
          let binary :=
            JS.for_up (length bytes)
              (λ i binary, binary ++ [fromCharCode (Uint8Array.get bytes i)])
              [] in
          match WindowBase64.btoa binary with
          | Some text => Returned text
          | None => Thrown InvalidCharacterError
          end
      end
  end.

(** The new buffer is filled through its [Uint8Array] view before it is
    returned; the store is given with the buffer already filled. *)
Definition base64ToBuffer (base64 : JSPrim) (h : Heap)
  : Outcome nat * Heap :=
  match base64 with
  | Str s =>
      if base64Regex_test s then
        match WindowBase64.atob s with
        | None => (Thrown DecodeFailure, h)
        | Some binary =>
            let buffer := fresh (dom h) in
            let bytes :=
              JS.for_up (length binary)
                (λ i bytes, Uint8Array.set bytes i (binary !!! i))
                (replicate (length binary) 0) in
            (Returned buffer, <[buffer := bytes]> h)
        end
      else (Thrown InvalidBase64Format, h)
  | _ => (Thrown ExpectedString, h)
  end.

End Base64.

(** The static methods of [BinaryPack] that hand over to [Base64]. *)
Definition BinaryPack_bufferToBase64 (buffer : JSArg) (h : Heap)
  : Outcome JSString :=
  Base64.bufferToBase64 buffer h.

Definition BinaryPack_base64ToBuffer (base64 : JSPrim) (h : Heap)
  : Outcome nat * Heap :=
  Base64.base64ToBuffer base64 h.

(** The text the regular expression of [base64ToBuffer] accepts, as a
    language: alphabet characters followed by at most two [=]. *)
Definition base64_shaped (s : JSString) : Prop :=
  ∃ body pad : list Z,
    s = body ++ pad
    ∧ Forall (λ c, Base64.is_alphabet c = true) body
    ∧ (pad = [] ∨ pad = [61] ∨ pad = [61; 61]).

(** The accumulator of the hash without the wrap to 32 bits. *)
Definition hash_polynomial (s : JSString) : Z :=
  foldl (λ h c, h * 31 + c) 0 s.


(** ** A runtime with [undefined]

    [JSON.stringify(undefined)] returns [undefined], no text; the other
    values are the literals of [literal_runtime]. *)
Inductive Loose : Type := LUndefined | LDefined (v : Literal).

Definition loose_stringify (v : Loose) : Result Stringified :=
  match v with
  | LUndefined => Ok NoText
  | LDefined v => literal_stringify v
  end.

Definition loose_runtime : Runtime :=
  {| JSValue := Loose;
     JSON_stringify := loose_stringify;
     JSON_parse := λ s, LDefined <$> literal_parse s;
     TextDecoder_decode := ascii_decode |}.

(** Packers for the examples. *)
Definition caesar_packer (secret : JSString) : BinaryPack.t :=
  packer (Some secret) (Some (js "caesar")).

Definition aes_packer : BinaryPack.t :=
  packer (Some (js "k")) (Some (js "aes-like")).

(** The two parts of [btoa]'s output: the sextets of the bytes, and the
    padding. *)
Fixpoint encode_sextets (s : list Z) : list Z :=
  match s with
  | b0 :: b1 :: b2 :: rest =>
      [b0 / 4; (b0 mod 4) * 16 + b1 / 16; (b1 mod 16) * 4 + b2 / 64;
       b2 mod 64]
      ++ encode_sextets rest
  | [b0; b1] => [b0 / 4; (b0 mod 4) * 16 + b1 / 16; (b1 mod 16) * 4]
  | [b0] => [b0 / 4; (b0 mod 4) * 16]
  | [] => []
  end.

Fixpoint encode_padding (s : list Z) : list Z :=
  match s with
  | _ :: _ :: _ :: rest => encode_padding rest
  | [_; _] => [61]
  | [_] => [61; 61]
  | [] => []
  end.

(** The three paddings the regular expression lets through. *)
Definition is_padding (pad : list Z) : Prop :=
  pad = [] ∨ pad = [61] ∨ pad = [61; 61].

(** ** The hash as the specification words it

    The specification's contract of the hash iterates the characters of
    the string and adds the code point of each. The characters of a
    JavaScript string are what its iterator and [codePointAt] give: a
    high surrogate followed by a low surrogate is one character, whose
    code point lies above U+FFFF; every other code unit is a character
    of its own. [hash_of_code_points] is that reading, for a given wrap
    to 32 bits (the specification's [mod 2^32], or the signed wrap of
    the code), to be compared with [Hash.secret]. *)
Definition is_high_surrogate (c : Z) : bool := (55296 <=? c) && (c <=? 56319).

Definition is_low_surrogate (c : Z) : bool := (56320 <=? c) && (c <=? 57343).

Fixpoint code_points (s : JSString) : list Z :=
  match s with
  | [] => []
  | c :: rest =>
      match rest with
      | d :: rest' =>
          if is_high_surrogate c && is_low_surrogate d
          then (65536 + (c - 55296) * 1024 + (d - 56320)) :: code_points rest'
          else c :: code_points rest
      | [] => [c]
      end
  end.

Definition hash_of_code_points (wrap : Z → Z) (s : JSString) : Z :=
  Z.abs (foldl (λ h codePoint, wrap (h * 31 + codePoint)) 0 (code_points s)).
(** * Properties *)

(** ** The integer fragment *)
Section Integers.

Lemma ToInt32_wrap (x : Z) : ∃ k : Z, JS.ToInt32 x = x + k * 2 ^ 32.
Proof.
  exists (- ((x + 2 ^ 31) / 2 ^ 32)). unfold JS.ToInt32.
  rewrite Z.mod_eq by lia. lia.
Qed.

Lemma ToInt32_range (x : Z) : - 2 ^ 31 ≤ JS.ToInt32 x < 2 ^ 31.
Proof.
  unfold JS.ToInt32.
  pose proof (Z.mod_pos_bound (x + 2 ^ 31) (2 ^ 32) ltac:(lia)). lia.
Qed.

Lemma ToInt32_id (x : Z) : - 2 ^ 31 ≤ x < 2 ^ 31 → JS.ToInt32 x = x.
Proof.
  intros Hx. unfold JS.ToInt32. rewrite Z.mod_small by lia. lia.
Qed.

Lemma ToInt32_shift (x k : Z) : JS.ToInt32 (x + k * 2 ^ 32) = JS.ToInt32 x.
Proof.
  unfold JS.ToInt32.
  replace (x + k * 2 ^ 32 + 2 ^ 31) with (x + 2 ^ 31 + k * 2 ^ 32) by lia.
  by rewrite Z_mod_plus_full.
Qed.

Lemma ToInt32_mod (x : Z) : JS.ToInt32 x mod 2 ^ 32 = x mod 2 ^ 32.
Proof.
  destruct (ToInt32_wrap x) as [k ->]. apply Z_mod_plus_full.
Qed.

Lemma ToUint8_range (x : Z) : 0 ≤ JS.ToUint8 x < 256.
Proof. unfold JS.ToUint8. apply (Z.mod_pos_bound x (2 ^ 8)). lia. Qed.

Lemma ToUint8_id (x : Z) : 0 ≤ x < 256 → JS.ToUint8 x = x.
Proof. intros Hx. unfold JS.ToUint8. apply Z.mod_small. lia. Qed.

Lemma ToUint8_shift (x k : Z) : JS.ToUint8 (x + k * 2 ^ 8) = JS.ToUint8 x.
Proof. unfold JS.ToUint8. apply Z_mod_plus_full. Qed.

(** The low byte survives ToInt32. *)
Lemma ToUint8_ToInt32 (x : Z) : JS.ToUint8 (JS.ToInt32 x) = JS.ToUint8 x.
Proof.
  destruct (ToInt32_wrap x) as [k ->].
  replace (x + k * 2 ^ 32) with (x + (k * 2 ^ 24) * 2 ^ 8) by lia.
  apply ToUint8_shift.
Qed.

Lemma ToUint8_lxor (a b : Z) :
  JS.ToUint8 (Z.lxor a b) = Z.lxor (JS.ToUint8 a) (JS.ToUint8 b).
Proof.
  unfold JS.ToUint8. apply Z.bits_inj'. intros n Hn.
  rewrite Z.lxor_spec, !Z.testbit_mod_pow2, Z.lxor_spec by lia.
  by destruct (n <? 8).
Qed.

(** What a [Uint8Array] keeps of [a ^ b]. *)
Lemma ToUint8_bitxor (a b : Z) :
  JS.ToUint8 (JS.bitxor a b) = Z.lxor (JS.ToUint8 a) (JS.ToUint8 b).
Proof.
  unfold JS.bitxor. by rewrite ToUint8_lxor, !ToUint8_ToInt32.
Qed.

(** [%] agrees with the mathematical remainder modulo 256 once stored. *)
Lemma ToUint8_rem (x : Z) : JS.ToUint8 (JS.rem x 256) = JS.ToUint8 x.
Proof.
  unfold JS.rem. pose proof (Z.quot_rem' x 256) as Hq.
  replace (Z.rem x 256) with (x + (- (x ÷ 256)) * 2 ^ 8) by lia.
  apply ToUint8_shift.
Qed.

Lemma lxor_byte_range (a b : Z) :
  0 ≤ a < 256 → 0 ≤ b < 256 → 0 ≤ Z.lxor a b < 256.
Proof.
  intros Ha Hb.
  rewrite <- (ToUint8_id a), <- (ToUint8_id b), <- ToUint8_lxor by done.
  apply ToUint8_range.
Qed.

End Integers.

(** ** src/Utils/Hash.js *)
Section HashProperties.

(** The loop body is the wrapped [h * 31 + c]. *)
Lemma hash_step_wrap (h c : Z) : Hash.step h c = JS.ToInt32 (h * 31 + c).
Proof.
  unfold Hash.step, JS.bitor, JS.shl.
  change (JS.ToInt32 0) with 0. rewrite Z.lor_0_r.
  change (JS.ToUint32 5 mod 32) with 5.
  rewrite Z.shiftl_mul_pow2 by lia.
  destruct (ToInt32_wrap h) as [k1 ->].
  destruct (ToInt32_wrap ((h + k1 * 2 ^ 32) * 2 ^ 5)) as [k2 ->].
  replace ((h + k1 * 2 ^ 32) * 2 ^ 5 + k2 * 2 ^ 32 - h + c)
    with (h * 31 + c + (k1 * 2 ^ 5 + k2) * 2 ^ 32) by lia.
  apply ToInt32_shift.
Qed.

(** The numbers the loop body computes before [|= 0] stay far inside
    the range in which JavaScript numbers are exact integers. *)
Lemma hash_step_exact (h c : Z) :
  - 2 ^ 31 ≤ h < 2 ^ 31 → 0 ≤ c < 2 ^ 16 →
  - 2 ^ 53 < (JS.shl h 5 - h) + c < 2 ^ 53.
Proof.
  intros Hh Hc. unfold JS.shl.
  pose proof (ToInt32_range
    (Z.shiftl (JS.ToInt32 h) (JS.ToUint32 5 mod 32))). lia.
Qed.

Lemma hash_foldl_wrap (s : JSString) (h : Z) :
  foldl Hash.step h s = foldl (λ h c, JS.ToInt32 (h * 31 + c)) h s.
Proof.
  revert h. induction s as [|c s IH]; intros h; simpl; [done|].
  by rewrite IH, hash_step_wrap.
Qed.

Lemma hash_accumulator_range (s : JSString) :
  - 2 ^ 31 ≤ foldl (λ h c, JS.ToInt32 (h * 31 + c)) 0 s < 2 ^ 31.
Proof.
  induction s as [|c s IH] using rev_ind; [simpl; lia|].
  rewrite foldl_app. simpl. apply ToInt32_range.
Qed.

(** C5, as amended. [Hash.secret] is a function from strings to
    unsigned 32-bit integers: on a string it folds the UTF-16 code units
    in order (what [charCodeAt] returns, not the code points of the
    characters) with the accumulator [h := h * 31 + c] wrapped to 32
    bits (the wrapped value is congruent to [h * 31 + c] modulo 2^32 and
    is the signed representative) and returns the absolute value of the
    final accumulator, which lies in [0, 2^32); the empty string gives
    0; an argument that is not a string fails with [InvalidInput]. *)
Theorem hash_contract :
  (∀ s : JSString,
     Hash.secret (Str s)
     = Ok (Z.abs (foldl (λ h c, JS.ToInt32 (h * 31 + c)) 0 s)))
  ∧ (∀ h c : Z,
       JS.ToInt32 (h * 31 + c) mod 2 ^ 32 = (h * 31 + c) mod 2 ^ 32
       ∧ - 2 ^ 31 ≤ JS.ToInt32 (h * 31 + c) < 2 ^ 31)
  ∧ (∀ s : JSString, ∃ n : Z, Hash.secret (Str s) = Ok n ∧ 0 ≤ n < 2 ^ 32)
  ∧ Hash.secret (Str []) = Ok 0
  ∧ (∀ v : JSPrim,
       match v with
       | Str _ => True
       | _ => Hash.secret v = Err InvalidInput
       end).
Proof.
  assert (Hform : ∀ s : JSString,
    Hash.secret (Str s)
    = Ok (Z.abs (foldl (λ h c, JS.ToInt32 (h * 31 + c)) 0 s))).
  { intros s. unfold Hash.secret. case_bool_decide as Hlen.
    - destruct s; [done | discriminate].
    - by rewrite hash_foldl_wrap. }
  split; [exact Hform|]. split.
  { intros h c. split; [apply ToInt32_mod | apply ToInt32_range]. }
  split.
  { intros s. eexists. split; [apply Hform|].
    pose proof (hash_accumulator_range s). lia. }
  split; [done|].
  intros []; done.
Qed.

Example hash_abc : Hash.secret (Str (js "abc")) = Ok 96354.
Proof. reflexivity. Qed.

(** The secret of test/test.js: the accumulator ends negative
    (-44325782) and its absolute value is returned. *)
Example hash_test_secret :
  Hash.secret (Str (js "Test Binary Pack")) = Ok 44325782.
Proof. vm_compute. reflexivity. Qed.

(** A string of two code units, a surrogate pair: [charCodeAt] gives
    the two units and each takes one turn of the loop. *)
Example hash_two_units :
  Hash.secret (Str [55357; 56832]) = Ok (55357 * 31 + 56832).
Proof. vm_compute. reflexivity. Qed.

(** C5, counterexample. The claim as it is stated adds the code point
    of each character. The string of the one character U+1F600 has the
    two code units D83D and DE00: by the claim's words its hash is the
    code point, 128512, under the wrap modulo 2^32 and under the signed
    wrap alike; [Hash.secret] returns 55357 * 31 + 56832 = 1772899. *)
Lemma hash_contract_counterexample :
  code_points [55357; 56832] = [128512]
  ∧ hash_of_code_points (λ x, x mod 2 ^ 32) [55357; 56832] = 128512
  ∧ hash_of_code_points JS.ToInt32 [55357; 56832] = 128512
  ∧ Hash.secret (Str [55357; 56832]) = Ok 1772899
  ∧ Hash.secret (Str [55357; 56832])
    ≠ Ok (hash_of_code_points (λ x, x mod 2 ^ 32) [55357; 56832])
  ∧ Hash.secret (Str [55357; 56832])
    ≠ Ok (hash_of_code_points JS.ToInt32 [55357; 56832]).
Proof.
  assert (Hcode : Hash.secret (Str [55357; 56832]) = Ok 1772899)
    by (vm_compute; reflexivity).
  assert (Hmod : hash_of_code_points (λ x, x mod 2 ^ 32) [55357; 56832]
                 = 128512) by (vm_compute; reflexivity).
  assert (Hsigned : hash_of_code_points JS.ToInt32 [55357; 56832] = 128512)
    by (vm_compute; reflexivity).
  split; [reflexivity|]. split; [exact Hmod|]. split; [exact Hsigned|].
  split; [exact Hcode|]. rewrite Hcode, Hmod, Hsigned.
  split; discriminate.
Qed.

(** On strings without surrogate pairs the two readings agree, the
    accumulators being congruent modulo 2^32: for instance on 'abc'. *)
Example hash_code_points_abc :
  code_points (js "abc") = js "abc"
  ∧ Hash.secret (Str (js "abc"))
    = Ok (hash_of_code_points JS.ToInt32 (js "abc")).
Proof. split; vm_compute; reflexivity. Qed.

End HashProperties.

(** ** Loops that update a typed array element by element *)
Section Loops.



Lemma update_at_lookup (g : nat → Z → Z) (i j : nat) (d : list Z) :
  update_at g i d !! j
  = if decide (i = j) then (λ x, JS.ToUint8 (g j x)) <$> d !! j else d !! j.
Proof.
  unfold update_at, Uint8Array.set, Uint8Array.get.
  destruct (decide (i = j)) as [->|Hne].
  - destruct (d !! j) as [x|] eqn:Hj.
    + rewrite list_lookup_insert_eq by (by eapply lookup_lt_Some).
      by rewrite (list_lookup_total_correct _ _ _ Hj).
    + simpl. by apply list_lookup_insert_None.
  - by apply list_lookup_insert_ne.
Qed.

(** Visiting distinct indices in any order updates exactly those. *)
Lemma foldl_update_lookup (g : nat → Z → Z) (ixs : list nat) :
  NoDup ixs →
  ∀ (d : list Z) (j : nat),
    foldl (λ d i, update_at g i d) d ixs !! j
    = if decide (j ∈ ixs)
      then (λ x, JS.ToUint8 (g j x)) <$> d !! j else d !! j.
Proof.
  induction 1 as [|i ixs Hi Hnd IH]; intros d j; simpl.
  - destruct (decide (j ∈ [])) as [Hin|]; [|done].
    by apply not_elem_of_nil in Hin.
  - rewrite IH, update_at_lookup.
    destruct (decide (j ∈ i :: ixs)) as [Hin|Hnin].
    + apply elem_of_cons in Hin as [->|Hin].
      * by rewrite decide_False, decide_True by done.
      * rewrite decide_True by done.
        destruct (decide (i = j)) as [->|]; done.
    + apply not_elem_of_cons in Hnin as [Hne Hnin].
      by rewrite (decide_False (P := j ∈ ixs)), decide_False by done.
Qed.

Lemma foldl_update_all (g : nat → Z → Z) (ixs : list nat) (d : list Z) :
  NoDup ixs → (∀ j, j ∈ ixs ↔ (j < length d)%nat) →
  foldl (λ d i, update_at g i d) d ixs = pointwise g d.
Proof.
  intros Hnd Hall. apply list_eq. intros j.
  unfold pointwise. rewrite foldl_update_lookup, list_lookup_imap by done.
  destruct (decide (j ∈ ixs)) as [Hin|Hnin]; [done|].
  rewrite lookup_ge_None_2; [done|].
  destruct (decide (j < length d)%nat) as [Hlt|]; [|lia].
  by apply Hall in Hlt.
Qed.

Lemma for_up_pointwise (g : nat → Z → Z) (n : nat) (d : list Z) :
  n = length d →
  JS.for_up n (λ i d, Uint8Array.set d i (g i (Uint8Array.get d i))) d
  = pointwise g d.
Proof.
  intros ->. apply (foldl_update_all g); [apply NoDup_seq|].
  intros j. rewrite elem_of_seq. lia.
Qed.

Lemma for_down_pointwise (g : nat → Z → Z) (n : nat) (d : list Z) :
  n = length d →
  JS.for_down n (λ i d, Uint8Array.set d i (g i (Uint8Array.get d i))) d
  = pointwise g d.
Proof.
  intros ->. apply (foldl_update_all g).
  - rewrite reverse_Permutation. apply NoDup_seq.
  - intros j. rewrite elem_of_reverse, elem_of_seq. lia.
Qed.

Lemma length_pointwise (g : nat → Z → Z) (d : list Z) :
  length (pointwise g d) = length d.
Proof. apply length_imap. Qed.

Lemma pointwise_lookup (g : nat → Z → Z) (d : list Z) (i : nat) :
  pointwise g d !! i = (λ x, JS.ToUint8 (g i x)) <$> d !! i.
Proof. apply list_lookup_imap. Qed.

Lemma pointwise_bytes (g : nat → Z → Z) (d : list Z) :
  Forall is_byte (pointwise g d).
Proof.
  apply Forall_lookup. intros i y. rewrite pointwise_lookup.
  destruct (d !! i); simpl; [|done]. intros [= <-]. apply ToUint8_range.
Qed.

(** Two loops in sequence, when the second undoes the first on bytes. *)
Lemma pointwise_inverse (g g' : nat → Z → Z) (d : list Z) :
  (∀ i x, is_byte x → JS.ToUint8 (g' i (JS.ToUint8 (g i x))) = x) →
  Forall is_byte d →
  pointwise g' (pointwise g d) = d.
Proof.
  intros Hinv Hd. apply list_eq. intros i.
  rewrite !pointwise_lookup.
  destruct (d !! i) as [x|] eqn:Hi; simpl; [|done].
  f_equal. apply Hinv.
  exact (Forall_lookup_1 is_byte d i x Hd Hi).
Qed.

(** A prefix of the result is the result on the prefix: an element of
    the result depends on its index and its own value only. *)
Lemma pointwise_take (g : nat → Z → Z) (n : nat) (d : list Z) :
  take n (pointwise g d) = pointwise g (take n d).
Proof.
  apply list_eq. intros i.
  destruct (decide (i < n)%nat) as [Hlt|Hge].
  - by rewrite lookup_take_lt, !pointwise_lookup, lookup_take_lt by done.
  - by rewrite lookup_take_ge, pointwise_lookup, lookup_take_ge by lia.
Qed.

Lemma pointwise_ext (g g' : nat → Z → Z) (d : list Z) :
  (∀ i x, JS.ToUint8 (g i x) = JS.ToUint8 (g' i x)) →
  pointwise g d = pointwise g' d.
Proof. intros H. apply imap_ext. intros i x _. apply H. Qed.

End Loops.

(** ** The three methods, element by element *)
Section Methods.



Lemma ToUint8_wrap (x : Z) : ∃ m : Z, JS.ToUint8 x = x + m * 2 ^ 8.
Proof.
  exists (- (x / 2 ^ 8)). unfold JS.ToUint8. rewrite Z.mod_eq by lia. lia.
Qed.

Lemma ToUint8_idemp (x : Z) : JS.ToUint8 (JS.ToUint8 x) = JS.ToUint8 x.
Proof. apply ToUint8_id, ToUint8_range. Qed.

Lemma lxor_cancel_r (a b : Z) : Z.lxor (Z.lxor a b) b = a.
Proof. by rewrite Z.lxor_assoc, Z.lxor_nilpotent, Z.lxor_0_r. Qed.

Lemma XOR_byte_involutive (k : list Z) (i : nat) (x : Z) :
  is_byte x → JS.ToUint8 (XOR_byte k i (JS.ToUint8 (XOR_byte k i x))) = x.
Proof.
  intros Hx. unfold XOR_byte.
  rewrite ToUint8_bitxor, ToUint8_idemp, ToUint8_bitxor, lxor_cancel_r.
  by apply ToUint8_id.
Qed.

Lemma AES_byte_inverse (k : list Z) (round i : nat) (x : Z) :
  is_byte x →
  JS.ToUint8
    (AES_decrypt_byte k round i (JS.ToUint8 (AES_encrypt_byte k round i x)))
  = x.
Proof.
  intros Hx. unfold AES_decrypt_byte, AES_encrypt_byte.
  set (kb := Uint8Array.cyclic_operand k (i + round)).
  rewrite ToUint8_bitxor, !ToUint8_rem.
  destruct (ToUint8_wrap (JS.bitxor x kb + Z.of_nat round + Z.of_nat i))
    as [m ->].
  replace (JS.bitxor x kb + Z.of_nat round + Z.of_nat i + m * 2 ^ 8
           - Z.of_nat round - Z.of_nat i + 256)
    with (JS.bitxor x kb + (m + 1) * 2 ^ 8) by lia.
  rewrite ToUint8_shift, ToUint8_bitxor, lxor_cancel_r.
  by apply ToUint8_id.
Qed.

Lemma Caesar_byte_inverse (shift : Z) (i : nat) (x : Z) :
  is_byte x →
  JS.ToUint8
    (Caesar_decrypt_byte shift i (JS.ToUint8 (Caesar_encrypt_byte shift i x)))
  = x.
Proof.
  intros Hx. unfold Caesar_decrypt_byte, Caesar_encrypt_byte.
  rewrite !ToUint8_rem.
  destruct (ToUint8_wrap (x + shift)) as [m ->].
  replace (x + shift + m * 2 ^ 8 - shift + 256)
    with (x + (m + 1) * 2 ^ 8) by lia.
  rewrite ToUint8_shift. by apply ToUint8_id.
Qed.

(** Each method is its element-wise form. *)
Lemma XOR_encrypt_pointwise (secret : option JSString) (d : list Z) :
  XOR.encrypt secret d = Ok (pointwise (XOR_byte (TextEncoder.encode secret)) d).
Proof.
  unfold XOR.encrypt. f_equal.
  exact (for_up_pointwise (XOR_byte (TextEncoder.encode secret))
           (length d) d eq_refl).
Qed.

Lemma AES_encrypt_pointwise (secret : option JSString) (d : list Z) :
  let k := TextEncoder.encode secret in
  AES.encrypt secret d
  = Ok (pointwise (AES_encrypt_byte k 2)
          (pointwise (AES_encrypt_byte k 1)
             (pointwise (AES_encrypt_byte k 0) d))).
Proof.
  intros k.
  pose proof (for_up_pointwise (AES_encrypt_byte k 0) (length d) d eq_refl)
    as H0.
  pose proof (for_up_pointwise (AES_encrypt_byte k 1) (length d)
                (pointwise (AES_encrypt_byte k 0) d)
                (eq_sym (length_pointwise _ _))) as H1.
  pose proof (for_up_pointwise (AES_encrypt_byte k 2) (length d)
                (pointwise (AES_encrypt_byte k 1)
                   (pointwise (AES_encrypt_byte k 0) d))
                (eq_sym (eq_trans (length_pointwise _ _)
                                  (length_pointwise _ _)))) as H2.
  unfold AES.encrypt. f_equal. rewrite <- H2, <- H1, <- H0. reflexivity.
Qed.

Lemma AES_decrypt_pointwise (secret : option JSString) (d : list Z) :
  let k := TextEncoder.encode secret in
  AES.decrypt secret d
  = Ok (pointwise (AES_decrypt_byte k 0)
          (pointwise (AES_decrypt_byte k 1)
             (pointwise (AES_decrypt_byte k 2) d))).
Proof.
  intros k.
  pose proof (for_down_pointwise (AES_decrypt_byte k 2) (length d) d eq_refl)
    as H2.
  pose proof (for_down_pointwise (AES_decrypt_byte k 1) (length d)
                (pointwise (AES_decrypt_byte k 2) d)
                (eq_sym (length_pointwise _ _))) as H1.
  pose proof (for_down_pointwise (AES_decrypt_byte k 0) (length d)
                (pointwise (AES_decrypt_byte k 1)
                   (pointwise (AES_decrypt_byte k 2) d))
                (eq_sym (eq_trans (length_pointwise _ _)
                                  (length_pointwise _ _)))) as H0.
  unfold AES.decrypt. f_equal. rewrite <- H0, <- H1, <- H2. reflexivity.
Qed.

Lemma Caesar_encrypt_pointwise (s : JSString) (h : Z) (d : list Z) :
  Hash.secret (Str s) = Ok h →
  Caesar.encrypt (Some s) d
  = Ok (pointwise (Caesar_encrypt_byte (JS.rem h 26)) d).
Proof.
  intros Hh. unfold Caesar.encrypt. simpl of_nullable. rewrite Hh. f_equal.
  exact (for_up_pointwise (Caesar_encrypt_byte (JS.rem h 26))
           (length d) d eq_refl).
Qed.

Lemma Caesar_decrypt_pointwise (s : JSString) (h : Z) (d : list Z) :
  Hash.secret (Str s) = Ok h →
  Caesar.decrypt (Some s) d
  = Ok (pointwise (Caesar_decrypt_byte (JS.rem h 26)) d).
Proof.
  intros Hh. unfold Caesar.decrypt. simpl of_nullable. rewrite Hh. f_equal.
  exact (for_up_pointwise (Caesar_decrypt_byte (JS.rem h 26))
           (length d) d eq_refl).
Qed.

Lemma Hash_secret_total (s : JSString) :
  ∃ h : Z, Hash.secret (Str s) = Ok h ∧ 0 ≤ h.
Proof.
  unfold Hash.secret. case_bool_decide; eexists; (split; [done|lia]).
Qed.

(** Decrypt undoes encrypt, for each method and any secret. *)
Lemma XOR_inverse (secret : option JSString) (d : list Z) :
  Forall is_byte d →
  ∃ c, XOR.encrypt secret d = Ok c ∧ XOR.decrypt secret c = Ok d.
Proof.
  intros Hd. eexists. split; [apply XOR_encrypt_pointwise|].
  unfold XOR.decrypt. rewrite XOR_encrypt_pointwise. f_equal.
  apply pointwise_inverse; [|done]. intros i x. apply XOR_byte_involutive.
Qed.

Lemma AES_inverse (secret : option JSString) (d : list Z) :
  Forall is_byte d →
  ∃ c, AES.encrypt secret d = Ok c ∧ AES.decrypt secret c = Ok d.
Proof.
  intros Hd. eexists. split; [apply AES_encrypt_pointwise|].
  rewrite AES_decrypt_pointwise. f_equal.
  set (k := TextEncoder.encode secret).
  rewrite (pointwise_inverse (AES_encrypt_byte k 2) (AES_decrypt_byte k 2));
    [| intros i x; apply AES_byte_inverse | apply pointwise_bytes].
  rewrite (pointwise_inverse (AES_encrypt_byte k 1) (AES_decrypt_byte k 1));
    [| intros i x; apply AES_byte_inverse | apply pointwise_bytes].
  apply pointwise_inverse; [|done]. intros i x. apply AES_byte_inverse.
Qed.

Lemma Caesar_inverse (s : JSString) (d : list Z) :
  Forall is_byte d →
  ∃ c, Caesar.encrypt (Some s) d = Ok c ∧ Caesar.decrypt (Some s) c = Ok d.
Proof.
  intros Hd. destruct (Hash_secret_total s) as (h & Hh & _).
  eexists. split; [by apply Caesar_encrypt_pointwise|].
  rewrite (Caesar_decrypt_pointwise s h) by done. f_equal.
  apply pointwise_inverse; [|done]. intros i x. apply Caesar_byte_inverse.
Qed.

End Methods.

(** ** The operations on the store compute the functional readings *)
Section Store.
Implicit Types (h : Heap) (l : nat) (b : list Z).

Lemma load_run l b h : h !! l = Some b → ArrayBuffer.load l h = (Ok b, h).
Proof. intros Hl. unfold ArrayBuffer.load. by rewrite Hl. Qed.

Lemma getUint8_run l off b h :
  h !! l = Some b → DataView.getUint8 l off h = (get8 b off, h).
Proof.
  intros Hl. unfold DataView.getUint8, bind, get8.
  rewrite (load_run l b h Hl). by destruct (b !! off).
Qed.

Lemma getUint32_run l off b h :
  h !! l = Some b → DataView.getUint32 l off h = (get32 b off, h).
Proof.
  intros Hl. unfold DataView.getUint32, bind, get32.
  rewrite (load_run l b h Hl).
  by destruct (take 4 (drop off b)) as [|? [|? [|? [|? [|? ?]]]]].
Qed.

Lemma byteLength_run l b h :
  h !! l = Some b → ArrayBuffer.byteLength l h = (Ok (length b), h).
Proof.
  intros Hl. unfold ArrayBuffer.byteLength, bind.
  by rewrite (load_run l b h Hl).
Qed.

Lemma elements_run l off len b h :
  h !! l = Some b →
  Uint8Array.elements l off len h
  = (if bool_decide (off + len ≤ length b)%nat
     then Ok (take len (drop off b)) else Err RangeError, h).
Proof.
  intros Hl. unfold Uint8Array.elements, bind.
  rewrite (load_run l b h Hl). by case_bool_decide.
Qed.

Lemma on_subarray_run l off f b h :
  h !! l = Some b →
  Uint8Array.on_subarray l off f h
  = match region off f b with
    | Ok b' => (Ok tt, <[l := b']> h)
    | Err e => (Err e, h)
    end.
Proof.
  intros Hl. unfold Uint8Array.on_subarray, bind, region, result_bind.
  rewrite (load_run l b h Hl). by destruct (f (drop off b)).
Qed.

Lemma decrypt_run (enc : EncryptionMethod.t) l (methodCode : Z) b h :
  h !! l = Some b →
  EncryptionMethod.decrypt enc l methodCode h
  = match decrypt_bytes enc methodCode b with
    | Ok b' => (Ok l, <[l := b']> h)
    | Err e => (Err e, h)
    end.
Proof.
  intros Hl. unfold EncryptionMethod.decrypt, decrypt_bytes.
  destruct (EncryptionMethod.find_by_code enc methodCode) as [e|].
  - unfold bind. rewrite (on_subarray_run _ _ _ b h Hl).
    by destruct (region _ _ b).
  - unfold ret. by rewrite insert_id.
Qed.

Lemma encrypt_run (enc : EncryptionMethod.t) l (method : option JSString) b h :
  h !! l = Some b →
  EncryptionMethod.encrypt enc l method h
  = match encrypt_bytes enc method b with
    | Ok b' => (Ok l, <[l := b']> h)
    | Err e => (Err e, h)
    end.
Proof.
  intros Hl. unfold EncryptionMethod.encrypt, encrypt_bytes.
  destruct (EncryptionMethod.find_by_name enc method) as [e|].
  - unfold bind. rewrite (on_subarray_run _ _ _ b h Hl).
    by destruct (region _ _ b).
  - unfold ret. by rewrite insert_id.
Qed.

Lemma fresh_not_in h l : is_Some (h !! l) → fresh (dom h) ≠ l.
Proof.
  intros Hl%elem_of_dom Heq. rewrite <- Heq in Hl.
  by apply (is_fresh (dom h)).
Qed.

Lemma fresh_lookup h : h !! fresh (dom h) = None.
Proof. apply not_elem_of_dom, is_fresh. Qed.

Context `{RT : Runtime}.

Lemma slice_run l (begin : nat) b h :
  h !! l = Some b →
  ArrayBuffer.slice l begin h
  = (Ok (fresh (dom h)), <[fresh (dom h) := drop begin b]> h).
Proof.
  intros Hl. unfold ArrayBuffer.slice, bind.
  by rewrite (load_run l b h Hl).
Qed.

(** The steps of [unpack] after the method check, on the copy [b1]. *)
Ltac unpack_tail Hl' b1 :=
  rewrite (getUint32_run _ _ b1 _ (Hl' b1)); cbv beta iota;
  destruct (get32 b1 _) as [dataLength|?]; [|by eexists];
  rewrite (byteLength_run _ b1 _ (Hl' b1)); cbv beta iota;
  case_bool_decide; [by eexists|]; cbv beta iota;
  rewrite (elements_run _ _ _ b1 _ (Hl' b1));
  case_bool_decide; [|by eexists]; cbv beta iota;
  unfold parsed; destruct (JSON_parse _); by eexists.

(** [unpack] returns what [unpack_bytes] computes from the bytes of its
    argument, and leaves a store that differs from the one it was given
    by one new buffer, the copy. *)
Lemma unpack_run (this : BinaryPack.t) l b h :
  h !! l = Some b →
  ∃ b', BinaryPack.unpack this l h
        = (unpack_bytes this b, <[fresh (dom h) := b']> h).
Proof.
  intros Hl.
  unfold BinaryPack.unpack, try_catch, bind, ret, throw.
  rewrite (slice_run l 0 b h Hl), drop_0. cbv beta iota.
  set (l' := fresh (dom h)).
  assert (Hl' : ∀ x, <[l' := x]> h !! l' = Some x)
    by (intros x; apply lookup_insert_eq).
  unfold unpack_bytes, checked_copy, result_wrap, result_bind, configured.
  rewrite (getUint8_run l' _ b _ (Hl' b)). cbv beta iota.
  destruct (get8 b BinaryPack.OFFSET_VERSION) as [version|e];
    [|by eexists].
  case_bool_decide as Hv; [by eexists|]. cbv beta iota.
  rewrite (getUint8_run l' _ b _ (Hl' b)). cbv beta iota.
  destruct (get8 b BinaryPack.OFFSET_METHOD_CODE) as [methodCode|e];
    [|by eexists].
  destruct (truthy (BinaryPack.secret this)
            && truthy (BinaryPack.encryptionMethod this)).
  - case_bool_decide as Hm; [by eexists|]. cbv beta iota.
    rewrite (decrypt_run _ l' _ b _ (Hl' b)).
    destruct (decrypt_bytes _ methodCode b) as [b1|e]; [|by eexists].
    rewrite insert_insert_eq. cbv beta iota.
    unpack_tail Hl' b1.
  - cbv beta iota. unpack_tail Hl' b.
Qed.

Lemma unpack_run_missing (this : BinaryPack.t) l h :
  h !! l = None →
  BinaryPack.unpack this l h = (Err (UnpackError TypeError), h).
Proof.
  intros Hl.
  unfold BinaryPack.unpack, try_catch, bind, ArrayBuffer.slice, bind,
    ArrayBuffer.load.
  by rewrite Hl.
Qed.

Lemma setUint8_run l (off : nat) (v : Z) b h :
  h !! l = Some b → (off < length b)%nat →
  DataView.setUint8 l off v h = (Ok tt, <[l := <[off := JS.ToUint8 v]> b]> h).
Proof.
  intros Hl Hoff. unfold DataView.setUint8, bind.
  rewrite (load_run l b h Hl). by rewrite bool_decide_true by done.
Qed.

Lemma setUint32_run l (off : nat) (v : Z) b h :
  h !! l = Some b → (off + 4 ≤ length b)%nat →
  DataView.setUint32 l off v h
  = (Ok tt,
     <[l := <[off := JS.ToUint32 v / 2 ^ 24]>
              (<[S off := (JS.ToUint32 v / 2 ^ 16) mod 2 ^ 8]>
                 (<[S (S off) := (JS.ToUint32 v / 2 ^ 8) mod 2 ^ 8]>
                    (<[S (S (S off)) := JS.ToUint32 v mod 2 ^ 8]> b)))]> h).
Proof.
  intros Hl Hoff. unfold DataView.setUint32, bind.
  rewrite (load_run l b h Hl). by rewrite bool_decide_true by done.
Qed.

Lemma set_from_run l (off : nat) (src : list Z) b h :
  h !! l = Some b → (off + length src ≤ length b)%nat →
  Uint8Array.set_from l off src h
  = (Ok tt, <[l := take off b ++ src ++ drop (off + length src) b]> h).
Proof.
  intros Hl Hoff. unfold Uint8Array.set_from, bind.
  rewrite (load_run l b h Hl). by rewrite bool_decide_true by done.
Qed.

(** The header and the payload as [pack] leaves them in the zero-filled
    buffer, before any transform. *)
Lemma written_buffer (x0 x1 x2 x3 x4 x5 : Z) (src : list Z) :
  let b := <[2%nat := x2]>
             (<[3%nat := x3]>
                (<[4%nat := x4]>
                   (<[5%nat := x5]>
                      (<[1%nat := x1]>
                         (<[0%nat := x0]>
                            (replicate (length src + 6) 0)))))) in
  take 6 b ++ src ++ drop (6 + length src) b
  = [x0; x1; x2; x3; x4; x5] ++ src.
Proof.
  intros b.
  assert (Hb : b = [x0; x1; x2; x3; x4; x5] ++ replicate (length src) 0).
  { subst b. by rewrite Nat.add_comm. }
  rewrite Hb.
  rewrite (drop_ge _ (6 + length src)), app_nil_r;
    [done | rewrite length_app, length_replicate; simpl; lia].
Qed.

Lemma pack_run (this : BinaryPack.t) (data : JSValue) h :
  match pack_bytes this data with
  | Ok b =>
      BinaryPack.pack this data h
      = (Ok (fresh (dom h)), <[fresh (dom h) := b]> h)
  | Err e => (BinaryPack.pack this data h).1 = Err e
  end.
Proof.
  unfold pack_bytes, BinaryPack.pack, try_catch, result_wrap, result_bind.
  destruct (JSON_stringify data) as [jsonString|e]; [|done].
  set (stringBytes := encode_stringified jsonString).
  set (methodCode := EncryptionMethod.getEncryptionMethodCode _ _).
  unfold bind, ret, throw, ArrayBuffer.new. cbv beta iota zeta.
  set (l' := fresh (dom h)).
  assert (Hl' : ∀ x, <[l' := x]> h !! l' = Some x)
    by (intros x; apply lookup_insert_eq).
  rewrite (setUint8_run l' _ _ _ _ (Hl' _));
    [| rewrite length_replicate; unfold BinaryPack.OFFSET_VERSION,
         BinaryPack.META_LENGTH; lia].
  rewrite insert_insert_eq. cbv beta iota.
  rewrite (setUint8_run l' _ _ _ _ (Hl' _));
    [| rewrite length_insert, length_replicate;
       unfold BinaryPack.OFFSET_METHOD_CODE, BinaryPack.META_LENGTH; lia].
  rewrite insert_insert_eq. cbv beta iota.
  rewrite (setUint32_run l' _ _ _ _ (Hl' _));
    [| rewrite !length_insert, length_replicate;
       unfold BinaryPack.OFFSET_DATA_LENGTH, BinaryPack.META_LENGTH; lia].
  rewrite insert_insert_eq. cbv beta iota.
  rewrite (set_from_run l' _ _ _ _ (Hl' _));
    [| rewrite !length_insert, length_replicate;
       unfold BinaryPack.OFFSET_DATA, BinaryPack.META_LENGTH; lia].
  rewrite insert_insert_eq. cbv beta iota.
  unfold BinaryPack.OFFSET_VERSION, BinaryPack.OFFSET_METHOD_CODE,
    BinaryPack.OFFSET_DATA_LENGTH, BinaryPack.OFFSET_DATA,
    BinaryPack.META_LENGTH.
  rewrite (written_buffer _ _ _ _ _ _ stringBytes).
  change ([JS.ToUint8 BinaryPack.VERSION; JS.ToUint8 methodCode;
           JS.ToUint32 (Z.of_nat (length stringBytes)) / 2 ^ 24;
           (JS.ToUint32 (Z.of_nat (length stringBytes)) / 2 ^ 16) mod 2 ^ 8;
           (JS.ToUint32 (Z.of_nat (length stringBytes)) / 2 ^ 8) mod 2 ^ 8;
           JS.ToUint32 (Z.of_nat (length stringBytes)) mod 2 ^ 8]
          ++ stringBytes)
    with (header methodCode (length stringBytes) ++ stringBytes).
  unfold configured.
  destruct (truthy (BinaryPack.secret this)
            && truthy (BinaryPack.encryptionMethod this)); [|done].
  rewrite (encrypt_run _ l' _ _ _ (Hl' _)).
  destruct (encrypt_bytes _ _ _) as [b'|e]; [|done].
  by rewrite insert_insert_eq.
Qed.

End Store.

(** ** The registry and the constructor *)
Section Registry.

Lemma registry_names :
  Methods.name <$> Methods.AvailableMethods
  = [js "xor"; js "aes-like"; js "caesar"].
Proof. reflexivity. Qed.

Lemma registry_codes :
  Methods.code <$> Methods.AvailableMethods = [1; 2; 3].
Proof. reflexivity. Qed.

Lemma entry_cases (e : Methods.entry) :
  e ∈ Methods.AvailableMethods →
  e = {| Methods.code := 1; Methods.name := XOR.name;
         Methods.instance := Methods.XOR_class |}
  ∨ e = {| Methods.code := 2; Methods.name := AES.name;
           Methods.instance := Methods.AES_class |}
  ∨ e = {| Methods.code := 3; Methods.name := Caesar.name;
           Methods.instance := Methods.Caesar_class |}.
Proof.
  unfold Methods.AvailableMethods. rewrite !elem_of_cons, elem_of_nil.
  tauto.
Qed.

(** Looking a registered name up finds its entry, and the code of that
    entry leads back to it. *)
Lemma registry_lookup (secret : option JSString) (metaLength : nat)
    (name : JSString) :
  name ∈ Methods.name <$> Methods.AvailableMethods →
  ∃ e : Methods.entry,
    e ∈ Methods.AvailableMethods
    ∧ Methods.name e = name
    ∧ 1 ≤ Methods.code e ≤ 3
    ∧ EncryptionMethod.find_by_name
        (EncryptionMethod.new secret metaLength) (Some name) = Some e
    ∧ EncryptionMethod.find_by_code
        (EncryptionMethod.new secret metaLength) (Methods.code e) = Some e.
Proof.
  rewrite registry_names, !elem_of_cons, elem_of_nil.
  intros [->|[->|[->|[]]]].
  - exists {| Methods.code := 1; Methods.name := XOR.name;
              Methods.instance := Methods.XOR_class |}.
    unfold Methods.AvailableMethods. rewrite !elem_of_cons.
    repeat split; (done || lia || tauto).
  - exists {| Methods.code := 2; Methods.name := AES.name;
              Methods.instance := Methods.AES_class |}.
    unfold Methods.AvailableMethods. rewrite !elem_of_cons.
    repeat split; (done || lia || tauto).
  - exists {| Methods.code := 3; Methods.name := Caesar.name;
              Methods.instance := Methods.Caesar_class |}.
    unfold Methods.AvailableMethods. rewrite !elem_of_cons.
    repeat split; (done || lia || tauto).
Qed.

(** A code outside 1..3, in particular 0, resolves to nothing. *)
Lemma unknown_code (enc : EncryptionMethod.t) (methodCode : Z) :
  EncryptionMethod.methods enc = Methods.AvailableMethods →
  ¬ (1 ≤ methodCode ≤ 3) →
  EncryptionMethod.getEncryptionMethodName enc methodCode = None.
Proof.
  intros Hm Hc.
  unfold EncryptionMethod.getEncryptionMethodName,
    EncryptionMethod.find_by_code.
  rewrite Hm. simpl.
  rewrite !bool_decide_false by lia. done.
Qed.

(** What a successful construction leaves. *)
Lemma new_inv (secret method : option JSString) (this : BinaryPack.t) :
  BinaryPack.new secret method = Ok this →
  this = {| BinaryPack.secret := secret;
            BinaryPack.encryptionMethod := method;
            BinaryPack.encryptor :=
              EncryptionMethod.new secret BinaryPack.META_LENGTH;
            BinaryPack.validMethodsName :=
              Methods.name <$> Methods.AvailableMethods |}
  ∧ ((truthy secret = false ∧ truthy method = false)
     ∨ (truthy secret = true ∧ truthy method = true
        ∧ ∃ name, method = Some name
                  ∧ name ∈ Methods.name <$> Methods.AvailableMethods)).
Proof.
  unfold BinaryPack.new.
  destruct (truthy secret) eqn:Hs, (truthy method) eqn:Hm; simpl; try done.
  - case_bool_decide as Hex; simpl; [|done].
    intros [= <-]. split; [done|]. right. repeat split.
    apply Exists_exists in Hex as (name & Hin & Hname).
    exists name. by split.
  - intros [= <-]. split; [done|]. by left.
Qed.

End Registry.

(** ** Every registered class inverts itself and works byte by byte *)
Section RegisteredClasses.

Lemma registered_inverse (e : Methods.entry) (s : JSString) (d : list Z) :
  e ∈ Methods.AvailableMethods → Forall is_byte d →
  ∃ c, method_encrypt (Methods.instance e) (Some s) d = Ok c
       ∧ method_decrypt (Methods.instance e) (Some s) c = Ok d.
Proof.
  intros [-> | [-> | ->]]%entry_cases Hd; simpl.
  - by apply XOR_inverse.
  - by apply AES_inverse.
  - by apply Caesar_inverse.
Qed.

Lemma registered_encrypt_length (e : Methods.entry) (s : JSString)
    (d c : list Z) :
  e ∈ Methods.AvailableMethods →
  method_encrypt (Methods.instance e) (Some s) d = Ok c →
  length c = length d.
Proof.
  intros [-> | [-> | ->]]%entry_cases; simpl.
  - rewrite XOR_encrypt_pointwise. intros [= <-]. apply length_pointwise.
  - rewrite AES_encrypt_pointwise. intros [= <-].
    by rewrite !length_pointwise.
  - destruct (Hash_secret_total s) as (hs & Hh & _).
    rewrite (Caesar_encrypt_pointwise s hs) by done. intros [= <-].
    apply length_pointwise.
Qed.

(** Decrypting a prefix gives the prefix of the decryption: no byte of
    the result depends on a byte after it. *)
Lemma registered_decrypt_take (e : Methods.entry) (s : JSString)
    (d : list Z) (n : nat) :
  e ∈ Methods.AvailableMethods →
  ∃ d', method_decrypt (Methods.instance e) (Some s) d = Ok d'
        ∧ length d' = length d
        ∧ method_decrypt (Methods.instance e) (Some s) (take n d)
          = Ok (take n d').
Proof.
  intros [-> | [-> | ->]]%entry_cases; simpl.
  - unfold XOR.decrypt. rewrite !XOR_encrypt_pointwise.
    eexists. split; [done|]. split; [apply length_pointwise|].
    by rewrite pointwise_take.
  - rewrite !AES_decrypt_pointwise.
    eexists. split; [done|]. split; [by rewrite !length_pointwise|].
    by rewrite !pointwise_take.
  - destruct (Hash_secret_total s) as (hs & Hh & _).
    rewrite !(Caesar_decrypt_pointwise s hs) by done.
    eexists. split; [done|]. split; [apply length_pointwise|].
    by rewrite pointwise_take.
Qed.

End RegisteredClasses.

(** ** The text encoder produces bytes *)
Section Utf8.

Lemma utf8_of_code_point_bytes (cp : Z) :
  0 ≤ cp < 1114112 → Forall is_byte (TextEncoder.utf8_of_code_point cp).
Proof.
  intros Hcp. unfold TextEncoder.utf8_of_code_point, is_byte.
  repeat case_match; repeat apply Forall_cons_2; try apply Forall_nil_2;
    repeat match goal with
           | |- context [?a mod ?m] =>
               lazymatch goal with
               | _ : 0 ≤ a mod m < m |- _ => fail
               | _ => pose proof (Z.mod_pos_bound a m ltac:(lia))
               end
           end;
    try lia.
  all: try (assert (0 ≤ cp / 64 < 32)
              by (split; [apply Z.div_pos; lia
                         | apply Z.div_lt_upper_bound; lia]); lia).
  all: try (assert (0 ≤ cp / 4096 < 16)
              by (split; [apply Z.div_pos; lia
                         | apply Z.div_lt_upper_bound; lia]); lia).
Qed.

Lemma utf8_bytes_bounded (n : nat) (s : JSString) :
  (length s ≤ n)%nat → valid_string s → Forall is_byte (TextEncoder.utf8 s).
Proof.
  revert s. induction n as [|n IH]; intros s Hlen Hs.
  { destruct s; [apply Forall_nil_2 | simpl in Hlen; lia]. }
  destruct s as [|c rest]; [apply Forall_nil_2|].
  apply Forall_cons in Hs as [Hc Hrest]. simpl in Hlen.
  cbn [TextEncoder.utf8].
  destruct (TextEncoder.is_high_surrogate c) eqn:Hhigh.
  - destruct rest as [|c2 rest'].
    + apply utf8_of_code_point_bytes. lia.
    + destruct (TextEncoder.is_low_surrogate c2) eqn:Hlow.
      * apply Forall_app. split.
        -- apply utf8_of_code_point_bytes.
           unfold TextEncoder.is_high_surrogate,
             TextEncoder.is_low_surrogate in Hhigh, Hlow. lia.
        -- apply Forall_cons in Hrest as [_ Hrest'].
           apply IH; [simpl in Hlen; lia | done].
      * apply Forall_app. split.
        -- apply utf8_of_code_point_bytes. lia.
        -- apply IH; [lia | done].
  - destruct (TextEncoder.is_low_surrogate c).
    + apply Forall_app. split.
      * apply utf8_of_code_point_bytes. lia.
      * apply IH; [lia | done].
    + apply Forall_app. split.
      * apply utf8_of_code_point_bytes. lia.
      * apply IH; [lia | done].
Qed.

Lemma utf8_bytes (s : JSString) :
  valid_string s → Forall is_byte (TextEncoder.utf8 s).
Proof. by apply (utf8_bytes_bounded (length s)). Qed.

End Utf8.

(** ** The header *)
Section Envelope.

Lemma be32_sum (v : Z) :
  match be32 v with
  | [b0; b1; b2; b3] =>
      b0 * 2 ^ 24 + b1 * 2 ^ 16 + b2 * 2 ^ 8 + b3 = JS.ToUint32 v
  | _ => False
  end.
Proof.
  unfold be32. set (u := JS.ToUint32 v).
  rewrite !Z.mod_eq by lia.
  replace (u / 2 ^ 16 / 2 ^ 8) with (u / 2 ^ 24)
    by (rewrite Z.div_div by lia; reflexivity).
  replace (u / 2 ^ 8 / 2 ^ 8) with (u / 2 ^ 16)
    by (rewrite Z.div_div by lia; reflexivity).
  lia.
Qed.

Lemma be32_bytes (v : Z) : Forall is_byte (be32 v).
Proof.
  unfold be32, is_byte.
  assert (0 ≤ JS.ToUint32 v < 2 ^ 32)
    by (apply Z.mod_pos_bound; lia).
  repeat apply Forall_cons_2; try apply Forall_nil_2;
    try (apply Z.mod_pos_bound; lia).
  split; [apply Z.div_pos; lia | apply Z.div_lt_upper_bound; lia].
Qed.

Lemma header_length (c : Z) (n : nat) : length (header c n) = 6%nat.
Proof. reflexivity. Qed.

Lemma take_header (c : Z) (n : nat) (p : list Z) :
  take 6 (header c n ++ p) = header c n.
Proof. by apply take_app_length'. Qed.

Lemma drop_header (c : Z) (n : nat) (p : list Z) :
  drop 6 (header c n ++ p) = p.
Proof. by apply drop_app_length'. Qed.

Lemma get8_header_version (c : Z) (n : nat) (p : list Z) :
  get8 (header c n ++ p) BinaryPack.OFFSET_VERSION = Ok 1.
Proof. reflexivity. Qed.

Lemma get8_header_code (c : Z) (n : nat) (p : list Z) :
  get8 (header c n ++ p) BinaryPack.OFFSET_METHOD_CODE = Ok (JS.ToUint8 c).
Proof. reflexivity. Qed.

Lemma get32_header (c : Z) (n : nat) (p : list Z) :
  Z.of_nat n < 2 ^ 32 →
  get32 (header c n ++ p) BinaryPack.OFFSET_DATA_LENGTH = Ok (Z.of_nat n).
Proof.
  intros Hn. pose proof (be32_sum (Z.of_nat n)) as Hsum.
  unfold get32, header, BinaryPack.OFFSET_DATA_LENGTH.
  change (drop 2 (([JS.ToUint8 BinaryPack.VERSION; JS.ToUint8 c]
                   ++ be32 (Z.of_nat n)) ++ p))
    with (be32 (Z.of_nat n) ++ p).
  destruct (be32 (Z.of_nat n)) as [|b0 [|b1 [|b2 [|b3 [|]]]]]; try done.
  change (take 4 ([b0; b1; b2; b3] ++ p)) with [b0; b1; b2; b3].
  cbv beta iota. rewrite Hsum. unfold JS.ToUint32. f_equal.
  apply Z.mod_small. lia.
Qed.

Lemma region_header (c : Z) (n : nat) (f : list Z → Result (list Z))
    (p : list Z) :
  region 6 f (header c n ++ p)
  = result_bind (f p) (λ d, Ok (header c n ++ d)).
Proof. unfold region. by rewrite take_header, drop_header. Qed.

End Envelope.

(** ** Constructed packers *)
Section Constructed.

Lemma truthy_Some (o : option JSString) :
  truthy o = true → ∃ s, o = Some s ∧ s ≠ [].
Proof.
  destruct o as [s|]; simpl; [|done].
  case_bool_decide; [done|]. intros _. by exists s.
Qed.

Lemma falsy_not_found (enc : EncryptionMethod.t) (method : option JSString) :
  EncryptionMethod.methods enc = Methods.AvailableMethods →
  truthy method = false →
  EncryptionMethod.find_by_name enc method = None.
Proof.
  intros Hm Hf. unfold EncryptionMethod.find_by_name. rewrite Hm.
  destruct method as [s|]; [|done].
  simpl in Hf. apply negb_false_iff, bool_decide_eq_true in Hf as ->. done.
Qed.

(** A constructed packer is either without a transform, and then writes
    code 0, or has a nonempty secret and a registered entry [e]. *)
Lemma constructed_cases (secret method : option JSString)
    (this : BinaryPack.t) :
  BinaryPack.new secret method = Ok this →
  BinaryPack.secret this = secret
  ∧ BinaryPack.encryptionMethod this = method
  ∧ BinaryPack.encryptor this
    = EncryptionMethod.new secret BinaryPack.META_LENGTH
  ∧ ((configured this = false
      ∧ truthy secret = false ∧ truthy method = false
      ∧ EncryptionMethod.getEncryptionMethodCode
          (BinaryPack.encryptor this) method = 0)
     ∨ (configured this = true
        ∧ ∃ (s : JSString) (e : Methods.entry),
            secret = Some s ∧ s ≠ []
            ∧ e ∈ Methods.AvailableMethods
            ∧ method = Some (Methods.name e)
            ∧ 1 ≤ Methods.code e ≤ 3
            ∧ EncryptionMethod.find_by_name
                (BinaryPack.encryptor this) method = Some e
            ∧ EncryptionMethod.find_by_code
                (BinaryPack.encryptor this) (Methods.code e) = Some e)).
Proof.
  intros [-> Hcases]%new_inv.
  unfold configured.
  cbn [BinaryPack.secret BinaryPack.encryptionMethod BinaryPack.encryptor].
  do 3 (split; [done|]).
  destruct Hcases as [[Hs Hm]|(Hs & Hm & name & Hmeth & Hname)].
  - left. rewrite Hs, Hm. repeat split.
    unfold EncryptionMethod.getEncryptionMethodCode.
    by rewrite falsy_not_found.
  - right. rewrite Hs, Hm. split; [done|]. subst method.
    destruct (truthy_Some _ Hs) as (s & -> & Hne).
    destruct (registry_lookup (Some s) BinaryPack.META_LENGTH name Hname)
      as (e & He & <- & Hcode & Hfind & Hback).
    by exists s, e.
Qed.

(** Both parameters truthy and the method registered: construction
    succeeds. *)
Lemma new_registered (secret method : option JSString) :
  truthy secret = true → truthy method = true →
  (∃ name, method = Some name
           ∧ name ∈ [js "xor"; js "aes-like"; js "caesar"]) →
  ∃ this, BinaryPack.new secret method = Ok this.
Proof.
  unfold BinaryPack.new. intros -> -> (name & -> & Hin).
  cbn [andb negb BinaryPack.validMethodsName]. rewrite bool_decide_true.
  - by eexists.
  - apply Exists_exists. exists name. by rewrite registry_names.
Qed.

End Constructed.

(** C7. The constructor requires the secret and the method together,
    where a parameter counts as provided when it is truthy ([null] and
    the empty string are not): a secret without a method and a method
    without a secret both fail with a [ConfigError]; both provided with a
    method name outside the registry ('xor', 'aes-like', 'caesar') fails
    with [UnsupportedMethod]; both provided with a registered name, or
    neither provided, succeeds. *)
Theorem constructor_validation (secret method : option JSString) :
  (truthy secret = true → truthy method = false →
   BinaryPack.new secret method = Err ConfigMethodRequired
   ∧ is_ConfigError ConfigMethodRequired = true)
  ∧ (truthy secret = false → truthy method = true →
     BinaryPack.new secret method = Err ConfigSecretRequired
     ∧ is_ConfigError ConfigSecretRequired = true)
  ∧ (truthy secret = true → truthy method = true →
     (∀ name, method = Some name →
              name ∉ [js "xor"; js "aes-like"; js "caesar"]) →
     BinaryPack.new secret method = Err UnsupportedMethod)
  ∧ (truthy secret = true → truthy method = true →
     (∃ name, method = Some name
              ∧ name ∈ [js "xor"; js "aes-like"; js "caesar"]) →
     ∃ this, BinaryPack.new secret method = Ok this)
  ∧ (truthy secret = false → truthy method = false →
     ∃ this, BinaryPack.new secret method = Ok this).
Proof.
  unfold BinaryPack.new. split; [|split; [|split; [|split]]].
  - by intros -> ->.
  - by intros -> ->.
  - intros -> -> Hout. cbn [andb negb BinaryPack.validMethodsName].
    rewrite bool_decide_false; [done|].
    intros (name & Hin & Hname)%Exists_exists.
    rewrite registry_names in Hin. by apply (Hout name).
  - intros Hs Hm Hname. by apply new_registered.
  - intros -> ->. by eexists.
Qed.

(** The constructions of the specification's examples. *)
Lemma constructor_validation_witness :
  BinaryPack.new (Some (js "x")) None = Err ConfigMethodRequired
  ∧ BinaryPack.new None (Some (js "xor")) = Err ConfigSecretRequired
  ∧ BinaryPack.new (Some (js "x")) (Some (js "md5")) = Err UnsupportedMethod
  ∧ (∃ this, BinaryPack.new (Some (js "x")) (Some (js "xor")) = Ok this)
  ∧ (∃ this, BinaryPack.new None None = Ok this).
Proof.
  split; [|split; [|split; [|split]]].
  - apply (proj1 (constructor_validation (Some (js "x")) None));
      reflexivity.
  - apply (proj1 (proj2 (constructor_validation None (Some (js "xor")))));
      reflexivity.
  - apply (proj1 (proj2 (proj2
             (constructor_validation (Some (js "x")) (Some (js "md5"))))));
      [reflexivity | reflexivity |].
    intros name [= <-]. rewrite !elem_of_cons, elem_of_nil.
    intros [H|[H|[H|[]]]]; discriminate H.
  - apply (proj1 (proj2 (proj2 (proj2
             (constructor_validation (Some (js "x")) (Some (js "xor")))))));
      [reflexivity | reflexivity |].
    exists (js "xor"). split; [reflexivity | apply elem_of_cons; by left].
  - apply (proj2 (proj2 (proj2 (proj2
             (constructor_validation None None))))); reflexivity.
Defined.

(** An empty string is a falsy parameter: the constructor treats it as
    [null]. *)
Example constructor_empty_strings :
  BinaryPack.new (Some []) (Some (js "xor")) = Err ConfigSecretRequired
  ∧ BinaryPack.new (Some (js "x")) (Some []) = Err ConfigMethodRequired
  ∧ BinaryPack.new (Some []) None = Ok (packer (Some []) None).
Proof. repeat split. Qed.

(** ** The codec on the bytes of one buffer *)
Section CodecProperties.
Context `{RT : Runtime}.

Lemma registered_encrypt_total (e : Methods.entry) (s : JSString)
    (d : list Z) :
  e ∈ Methods.AvailableMethods →
  ∃ c, method_encrypt (Methods.instance e) (Some s) d = Ok c
       ∧ length c = length d.
Proof.
  intros He.
  assert (∃ c, method_encrypt (Methods.instance e) (Some s) d = Ok c)
    as [c Hc].
  { destruct (entry_cases e He) as [-> | [-> | ->]]; simpl.
    - rewrite XOR_encrypt_pointwise. by eexists.
    - rewrite AES_encrypt_pointwise. by eexists.
    - destruct (Hash_secret_total s) as (hs & Hh & _).
      rewrite (Caesar_encrypt_pointwise s hs) by done. by eexists. }
  exists c. split; [done|]. by eapply registered_encrypt_length.
Qed.

(** What [pack] produces, for a constructed packer. *)
Lemma pack_bytes_constructed (secret method : option JSString)
    (this : BinaryPack.t) (v : JSValue) (r : Stringified) :
  BinaryPack.new secret method = Ok this →
  JSON_stringify v = Ok r →
  let bytes := encode_stringified r in
  (configured this = false
   ∧ truthy secret = false ∧ truthy method = false
   ∧ pack_bytes this v = Ok (header 0 (length bytes) ++ bytes))
  ∨ (configured this = true
     ∧ ∃ (s : JSString) (e : Methods.entry) (c : list Z),
         secret = Some s ∧ s ≠ []
         ∧ e ∈ Methods.AvailableMethods
         ∧ method = Some (Methods.name e)
         ∧ 1 ≤ Methods.code e ≤ 3
         ∧ EncryptionMethod.find_by_code
             (BinaryPack.encryptor this) (Methods.code e) = Some e
         ∧ method_encrypt (Methods.instance e) (Some s) bytes = Ok c
         ∧ length c = length bytes
         ∧ pack_bytes this v
           = Ok (header (Methods.code e) (length bytes) ++ c)
         ∧ EncryptionMethod.getEncryptionMethodCode
             (BinaryPack.encryptor this) (BinaryPack.encryptionMethod this)
           = Methods.code e).
Proof.
  intros Hnew Hr bytes.
  destruct (constructed_cases _ _ _ Hnew)
    as (Hsec & Hmeth & Henc
        & [(Hconf & Hs & Hm & Hcode)
          |(Hconf & s & e & -> & Hne & He & -> & Hc & Hfind & Hback)]).
  - left. do 3 (split; [done|]).
    unfold pack_bytes. rewrite Hr, Hconf, Hmeth, Hcode. done.
  - right. split; [done|].
    destruct (registered_encrypt_total e s bytes He) as (c & Hc1 & Hc2).
    exists s, e, c. do 8 (split; [done|]).
    rewrite Hmeth. unfold EncryptionMethod.getEncryptionMethodCode.
    rewrite Hfind. split; [|done].
    unfold pack_bytes. rewrite Hr, Hconf, Hmeth.
    cbn [result_bind result_wrap].
    unfold EncryptionMethod.getEncryptionMethodCode, encrypt_bytes.
    rewrite Hfind, Henc.
    cbn [EncryptionMethod.new EncryptionMethod.metaLength
         EncryptionMethod.secret].
    change BinaryPack.META_LENGTH with 6%nat.
    fold bytes. rewrite region_header, Hc1. done.
Qed.

(** The steps of [unpack] after the method check, on an envelope whose
    length field is the length of its payload. *)
Lemma unpack_tail_envelope (c0 : Z) (p : list Z) :
  Z.of_nat (length p) < 2 ^ 32 →
  let b' := header c0 (length p) ++ p in
  result_bind (get32 b' BinaryPack.OFFSET_DATA_LENGTH) (λ dataLength,
    if bool_decide
         (dataLength
          > Z.of_nat (length b') - Z.of_nat BinaryPack.META_LENGTH)
    then Err InvalidLength
    else
      if bool_decide
           (BinaryPack.OFFSET_DATA + Z.to_nat dataLength ≤ length b')%nat
      then
        parsed
          (JSON_parse
             (TextDecoder_decode
                (take (Z.to_nat dataLength)
                   (drop BinaryPack.OFFSET_DATA b'))))
      else Err RangeError)
  = parsed (JSON_parse (TextDecoder_decode p)).
Proof.
  intros Hn b'. subst b'.
  rewrite get32_header by done. cbn [result_bind].
  rewrite length_app, header_length.
  change BinaryPack.META_LENGTH with 6%nat.
  change BinaryPack.OFFSET_DATA with 6%nat.
  rewrite bool_decide_false by lia.
  rewrite bool_decide_true by lia.
  by rewrite drop_header, Nat2Z.id, firstn_all.
Qed.

Lemma ToUint8_code (c : Z) : 0 ≤ c ≤ 3 → JS.ToUint8 c = c.
Proof. intros Hc. apply ToUint8_id. lia. Qed.

(** [unpack] inverts [pack] on the bytes. *)
Lemma unpack_pack_bytes (secret method : option JSString)
    (this : BinaryPack.t) (v : JSValue) (s : JSString) :
  BinaryPack.new secret method = Ok this →
  JSON_stringify v = Ok (Text s) →
  valid_string s →
  Z.of_nat (length (TextEncoder.encode (Some s))) < 2 ^ 32 →
  ∃ b, pack_bytes this v = Ok b
       ∧ unpack_bytes this b
         = result_wrap UnpackError
             (parsed
                (JSON_parse
                   (TextDecoder_decode (TextEncoder.encode (Some s))))).
Proof.
  intros Hnew Hr Hvalid Hn.
  destruct (pack_bytes_constructed _ _ _ v _ Hnew Hr)
    as [(Hconf & _ & _ & Hpack)
       |(Hconf & k & e & c & -> & Hne & He & -> & Hcode & Hback
         & Henc & Hlen & Hpack & _)];
    cbn [encode_stringified] in *.
  - eexists. split; [exact Hpack|].
    unfold unpack_bytes, checked_copy.
    rewrite get8_header_version, get8_header_code. cbn [result_bind].
    rewrite bool_decide_false by (intros Hv; by apply Hv).
    rewrite Hconf. cbn [result_bind].
    by rewrite unpack_tail_envelope.
  - eexists. split; [exact Hpack|].
    destruct (constructed_cases _ _ _ Hnew) as (_ & Hmeth & Hencr & _).
    destruct (registered_inverse e k (TextEncoder.encode (Some s)) He)
      as (c' & Henc' & Hdec); [by apply utf8_bytes|].
    rewrite Henc in Henc'. injection Henc' as <-.
    unfold unpack_bytes, checked_copy.
    rewrite get8_header_version, get8_header_code. cbn [result_bind].
    rewrite bool_decide_false by (intros Hv; by apply Hv).
    rewrite Hconf, ToUint8_code by lia.
    unfold EncryptionMethod.getEncryptionMethodName, decrypt_bytes.
    rewrite Hback, Hmeth. rewrite bool_decide_false by (intros Hv; by apply Hv).
    rewrite Hencr.
    cbn [EncryptionMethod.new EncryptionMethod.metaLength
         EncryptionMethod.secret].
    change BinaryPack.META_LENGTH with 6%nat.
    rewrite region_header, Hdec. cbn [result_bind].
    by rewrite unpack_tail_envelope.
Qed.

End CodecProperties.

(** ** The codec on the store: round trip and wire format *)
Section PackUnpack.
Context `{RT : Runtime}.

(** Packing then unpacking with one constructed packer. *)
Lemma round_trip_constructed (secret method : option JSString)
    (this : BinaryPack.t) (v : JSValue) (h : Heap) :
  BinaryPack.new secret method = Ok this →
  JSON_representable v →
  (∀ n, serialized_length v n → Z.of_nat n < 2 ^ 32) →
  ∃ (l : nat) (h1 h2 : Heap),
    BinaryPack.pack this v h = (Ok l, h1)
    ∧ BinaryPack.unpack this l h1 = (Ok v, h2).
Proof.
  intros Hnew (s & Hs & Hvalid & Hdec & Hparse) Hfits.
  assert (Hn : Z.of_nat (length (TextEncoder.encode (Some s))) < 2 ^ 32).
  { apply Hfits. by exists (Text s). }
  destruct (unpack_pack_bytes _ _ _ v s Hnew Hs Hvalid Hn)
    as (b & Hpack & Hunpack).
  pose proof (pack_run this v h) as Hrun. rewrite Hpack in Hrun.
  destruct (unpack_run this (fresh (dom h)) b (<[fresh (dom h) := b]> h))
    as [b' Hrun']; [apply lookup_insert_eq|].
  eexists _, _, _. split; [exact Hrun|].
  rewrite Hrun', Hunpack, Hdec, Hparse. reflexivity.
Qed.

(** C1. For a JSON-representable value [v] (one whose JSON text the
    platform parses back to [v], of a byte length that fits the 32-bit
    length field), a packer constructed with no secret and no method
    unpacks what it packs to [v]; and so does a packer constructed with
    any nonempty secret and any of the methods 'xor', 'aes-like' and
    'caesar'. *)
Theorem pack_unpack_round_trip (v : JSValue) (h : Heap) :
  JSON_representable v →
  (∀ n, serialized_length v n → Z.of_nat n < 2 ^ 32) →
  (∃ this,
     BinaryPack.new None None = Ok this
     ∧ ∃ (l : nat) (h1 h2 : Heap),
         BinaryPack.pack this v h = (Ok l, h1)
         ∧ BinaryPack.unpack this l h1 = (Ok v, h2))
  ∧ (∀ (s method : JSString),
       s ≠ [] →
       method ∈ [js "xor"; js "aes-like"; js "caesar"] →
       ∃ this,
         BinaryPack.new (Some s) (Some method) = Ok this
         ∧ ∃ (l : nat) (h1 h2 : Heap),
             BinaryPack.pack this v h = (Ok l, h1)
             ∧ BinaryPack.unpack this l h1 = (Ok v, h2)).
Proof.
  intros Hv Hfits. split.
  - eexists. split; [reflexivity|].
    by apply (round_trip_constructed None None).
  - intros s method Hs Hmethod.
    assert (Htruthy : ∀ x : JSString, x ≠ [] → truthy (Some x) = true).
    { intros x Hx. simpl. by rewrite bool_decide_false. }
    assert (Hm : method ≠ []).
    { intros ->. revert Hmethod. rewrite !elem_of_cons, elem_of_nil.
      intros [H|[H|[H|[]]]]; discriminate H. }
    destruct (new_registered (Some s) (Some method)
                (Htruthy s Hs) (Htruthy method Hm)) as [this Hnew].
    { by exists method. }
    exists this. split; [done|].
    by apply (round_trip_constructed (Some s) (Some method)).
Qed.

End PackUnpack.

(** ** The claims about the three methods *)
Section MethodClaims.

(** C8. For every nonempty secret and every byte slice, the XOR method's
    [encrypt] applied twice with the same secret gives the original
    bytes back, and its [decrypt] is the same operation as its
    [encrypt]. *)
Theorem xor_involution (secret : JSString) (data : list Z) :
  secret ≠ [] → Forall is_byte data →
  (∃ c, XOR.encrypt (Some secret) data = Ok c
        ∧ XOR.encrypt (Some secret) c = Ok data)
  ∧ (∀ d, XOR.decrypt (Some secret) d = XOR.encrypt (Some secret) d).
Proof.
  intros _ Hdata. split; [|done].
  destruct (XOR_inverse (Some secret) data Hdata) as (c & Henc & Hdec).
  by exists c.
Qed.

Lemma xor_involution_witness :
  (∃ c, XOR.encrypt (Some (js "key")) [1; 2; 3; 250; 0] = Ok c
        ∧ XOR.encrypt (Some (js "key")) c = Ok [1; 2; 3; 250; 0])
  ∧ (∀ d, XOR.decrypt (Some (js "key")) d = XOR.encrypt (Some (js "key")) d).
Proof.
  apply (xor_involution (js "key") [1; 2; 3; 250; 0]).
  - discriminate.
  - repeat apply Forall_cons_2; try apply Forall_nil_2; unfold is_byte; lia.
Defined.

Example xor_twice :
  XOR.encrypt (Some (js "key")) [1; 2; 3; 250; 0] = Ok [106; 103; 122; 145; 101]
  ∧ XOR.encrypt (Some (js "key")) [106; 103; 122; 145; 101]
    = Ok [1; 2; 3; 250; 0].
Proof. split; vm_compute; reflexivity. Qed.

(** C4. For every byte slice of length 0 to 256 and every secret of 1 to
    64 characters, the AES-like method's [encrypt] followed by its
    [decrypt] with the same secret gives exactly the original bytes. *)
Theorem aes_decrypt_encrypt (secret : JSString) (data : list Z) :
  (1 ≤ length secret ≤ 64)%nat → (length data ≤ 256)%nat →
  Forall is_byte data →
  ∃ c, AES.encrypt (Some secret) data = Ok c
       ∧ AES.decrypt (Some secret) c = Ok data.
Proof. intros _ _ Hdata. by apply AES_inverse. Qed.

Lemma aes_decrypt_encrypt_witness :
  ∃ c, AES.encrypt (Some (js "k")) (replicate 256 0) = Ok c
       ∧ AES.decrypt (Some (js "k")) c = Ok (replicate 256 0).
Proof.
  apply (aes_decrypt_encrypt (js "k") (replicate 256 0)).
  - simpl. lia.
  - rewrite length_replicate. lia.
  - apply Forall_replicate. unfold is_byte. lia.
Defined.

(** In the last round of [decrypt], at the last index of a slice of 256
    bytes, [%] returns a negative number and [^] another; the store
    into the typed array keeps its low byte, which is the right one. *)
Example aes_negative_intermediate :
  JS.rem (0 - 2 - 255 + 256) 256 = -1
  ∧ AES_decrypt_byte [107] 2 255 0 = -108
  ∧ JS.ToUint8 (AES_decrypt_byte [107] 2 255 0) = 148
  ∧ JS.ToUint8 (AES_encrypt_byte [107] 2 255 148) = 0.
Proof. repeat split; vm_compute; reflexivity. Qed.

(** C9. The Caesar method uses the secret only through
    [hash(secret) mod 26]: two secrets whose hashes are equal modulo 26
    encrypt every byte slice to the same bytes. *)
Theorem caesar_key_collision (s1 s2 : JSString) (h1 h2 : Z) (data : list Z) :
  Hash.secret (Str s1) = Ok h1 → Hash.secret (Str s2) = Ok h2 →
  h1 mod 26 = h2 mod 26 →
  Caesar.encrypt (Some s1) data = Caesar.encrypt (Some s2) data
  ∧ Caesar.encrypt (Some s1) data
    = Ok (pointwise (λ _ x, x + h1 mod 26) data).
Proof.
  intros Hh1 Hh2 Hmod.
  assert (Hnonneg : ∀ s h, Hash.secret (Str s) = Ok h → 0 ≤ h).
  { intros s h Hs. destruct (Hash_secret_total s) as (h' & Hs' & Hpos).
    rewrite Hs in Hs'. by injection Hs' as ->. }
  assert (Hrem : ∀ s h, Hash.secret (Str s) = Ok h → JS.rem h 26 = h mod 26).
  { intros s h Hs. unfold JS.rem. apply Z.rem_mod_nonneg; [|lia].
    by apply (Hnonneg s). }
  rewrite (Caesar_encrypt_pointwise s1 h1), (Caesar_encrypt_pointwise s2 h2)
    by done.
  rewrite (Hrem s1 h1), (Hrem s2 h2), Hmod by done.
  split; [done|]. f_equal. apply pointwise_ext.
  intros i x. unfold Caesar_encrypt_byte. apply ToUint8_rem.
Qed.

(** 'a' and '{' are different secrets with the same shift, 19. *)
Lemma caesar_key_collision_witness :
  Caesar.encrypt (Some (js "a")) [0; 100; 250]
  = Caesar.encrypt (Some (js "{")) [0; 100; 250]
  ∧ Caesar.encrypt (Some (js "a")) [0; 100; 250]
    = Ok (pointwise (λ _ x, x + 97 mod 26) [0; 100; 250]).
Proof.
  apply (caesar_key_collision (js "a") (js "{") 97 123 [0; 100; 250]);
    reflexivity.
Defined.

Example caesar_collision_bytes :
  Caesar.encrypt (Some (js "a")) [0; 100; 250] = Ok [19; 119; 13]
  ∧ Caesar.encrypt (Some (js "{")) [0; 100; 250] = Ok [19; 119; 13].
Proof. split; vm_compute; reflexivity. Qed.

End MethodClaims.

(** ** The wire format and the frame of [unpack] *)
Section WireFormat.
Context `{RT : Runtime}.

Lemma registered_code (e : Methods.entry) :
  e ∈ Methods.AvailableMethods →
  (Methods.name e = js "xor" → Methods.code e = 1)
  ∧ (Methods.name e = js "aes-like" → Methods.code e = 2)
  ∧ (Methods.name e = js "caesar" → Methods.code e = 3).
Proof.
  intros [-> | [-> | ->]]%entry_cases; simpl;
    repeat split; (done || discriminate).
Qed.

Lemma header_eq (c : Z) (n : nat) :
  0 ≤ c ≤ 3 → header c n = [1; c] ++ be32 (Z.of_nat n).
Proof. intros Hc. unfold header. by rewrite (ToUint8_code c Hc). Qed.

Lemma be32_small (v : Z) :
  0 ≤ v < 2 ^ 32 →
  be32 v = [v / 2 ^ 24; (v / 2 ^ 16) mod 2 ^ 8; (v / 2 ^ 8) mod 2 ^ 8;
            v mod 2 ^ 8].
Proof.
  intros Hv. unfold be32, JS.ToUint32. by rewrite Z.mod_small by done.
Qed.

(** C2. For a value whose JSON text has UTF-8 byte length [n] (below
    2^32), [pack] of a constructed packer returns a new buffer of
    length 6 + n: byte 0 is 1; byte 1 is 0 without a method and the
    registry code of the method otherwise (1 'xor', 2 'aes-like',
    3 'caesar'); bytes 2..5 are [n] as a big-endian unsigned 32-bit
    integer; and the buffer is what the dispatcher's [encrypt], when a
    transform is configured, makes of the buffer holding the same six
    bytes followed by the encoded text, so that the transform leaves the
    first six bytes as they were written (without a transform the
    payload is the encoded text itself). *)
Theorem pack_wire_format (secret method : option JSString)
    (this : BinaryPack.t) (v : JSValue) (s : JSString) (n : nat) (h : Heap) :
  BinaryPack.new secret method = Ok this →
  JSON_stringify v = Ok (Text s) →
  length (TextEncoder.encode (Some s)) = n →
  Z.of_nat n < 2 ^ 32 →
  ∃ (l : nat) (code : Z) (payload : list Z),
    let written := [1; code] ++ be32 (Z.of_nat n) in
    h !! l = None
    ∧ BinaryPack.pack this v h = (Ok l, <[l := written ++ payload]> h)
    ∧ length (written ++ payload) = (6 + n)%nat
    ∧ (truthy method = false → code = 0)
    ∧ (method = Some (js "xor") → code = 1)
    ∧ (method = Some (js "aes-like") → code = 2)
    ∧ (method = Some (js "caesar") → code = 3)
    ∧ be32 (Z.of_nat n)
      = [Z.of_nat n / 2 ^ 24; (Z.of_nat n / 2 ^ 16) mod 2 ^ 8;
         (Z.of_nat n / 2 ^ 8) mod 2 ^ 8; Z.of_nat n mod 2 ^ 8]
    ∧ Forall is_byte (be32 (Z.of_nat n))
    ∧ get32 (written ++ payload) 2 = Ok (Z.of_nat n)
    ∧ (if configured this
       then EncryptionMethod.encrypt (BinaryPack.encryptor this) l method
              (<[l := written ++ TextEncoder.encode (Some s)]> h)
            = (Ok l, <[l := written ++ payload]> h)
       else payload = TextEncoder.encode (Some s)).
Proof.
  intros Hnew Hr Hlen Hn.
  pose proof (pack_run this v h) as Hrun.
  assert (Hplain : pack_bytes this v
            = result_wrap PackError
                (if configured this
                 then encrypt_bytes (BinaryPack.encryptor this)
                        (BinaryPack.encryptionMethod this)
                        (header
                           (EncryptionMethod.getEncryptionMethodCode
                              (BinaryPack.encryptor this)
                              (BinaryPack.encryptionMethod this)) n
                         ++ TextEncoder.encode (Some s))
                 else Ok (header
                            (EncryptionMethod.getEncryptionMethodCode
                               (BinaryPack.encryptor this)
                               (BinaryPack.encryptionMethod this)) n
                          ++ TextEncoder.encode (Some s)))).
  { unfold pack_bytes. rewrite Hr. cbn [result_bind encode_stringified].
    by rewrite Hlen. }
  destruct (pack_bytes_constructed _ _ _ v _ Hnew Hr)
    as [(Hconf & Hs & Hm & Hpack)
       |(Hconf & k & e & c & -> & Hne & He & -> & Hcode & Hback
         & Henc & Hclen & Hpack & Hcode_eq)];
    cbn [encode_stringified] in *; rewrite Hlen in Hpack;
    rewrite Hpack in Hrun, Hplain; rewrite Hconf in Hplain |- *.
  - exists (fresh (dom h)), 0, (TextEncoder.encode (Some s)).
    cbv zeta. rewrite <- (header_eq 0 n) by lia.
    split; [apply fresh_lookup|]. split; [exact Hrun|].
    split; [by rewrite length_app, header_length, Hlen|].
    split; [done|].
    do 3 (split; [intros ->; vm_compute in Hm; discriminate Hm|]).
    split; [apply be32_small; lia|].
    split; [apply be32_bytes|].
    split; [by apply (get32_header 0 n)|done].
  - destruct (constructed_cases _ _ _ Hnew) as (_ & Hmeth & _).
    rewrite Hcode_eq, Hmeth in Hplain.
    exists (fresh (dom h)), (Methods.code e), c.
    cbv zeta. rewrite <- (header_eq (Methods.code e) n) by lia.
    split; [apply fresh_lookup|]. split; [exact Hrun|].
    split; [by rewrite length_app, header_length, Hclen, Hlen|].
    destruct (registered_code e He) as (Hx & Ha & Hc).
    split.
    { intros Hf. exfalso.
      destruct (entry_cases e He) as [-> | [-> | ->]];
        vm_compute in Hf; discriminate Hf. }
    split; [intros [= Heq]; by apply Hx|].
    split; [intros [= Heq]; by apply Ha|].
    split; [intros [= Heq]; by apply Hc|].
    split; [apply be32_small; lia|].
    split; [apply be32_bytes|].
    split; [by apply (get32_header (Methods.code e) n)|].
    rewrite (encrypt_run _ _ _ _ _ (lookup_insert_eq _ _ _)).
    destruct (encrypt_bytes _ _ _) as [b|err]; [|discriminate Hplain].
    cbn [result_wrap] in Hplain. injection Hplain as <-.
    by rewrite insert_insert_eq.
Qed.

(** C6. [unpack] leaves the buffer it is given, and every other buffer
    of the store, with the bytes it had: the store after the call,
    whether [unpack] returned or threw, extends the store before it. *)
Theorem unpack_does_not_mutate (this : BinaryPack.t) (l : nat) (h : Heap) :
  (BinaryPack.unpack this l h).2 !! l = h !! l
  ∧ h ⊆ (BinaryPack.unpack this l h).2.
Proof.
  destruct (h !! l) as [b|] eqn:Hl.
  - destruct (unpack_run this l b h Hl) as [b' ->]. simpl. split.
    + rewrite lookup_insert_ne; [done|]. apply fresh_not_in. by rewrite Hl.
    + apply insert_subseteq, fresh_lookup.
  - rewrite (unpack_run_missing this l h Hl). simpl. by split.
Qed.

End WireFormat.

(** ** Validation in [unpack], and the bytes it reads *)
Section Validation.
Context `{RT : Runtime}.

Lemma find_by_code_elem (enc : EncryptionMethod.t) (c : Z)
    (e : Methods.entry) :
  EncryptionMethod.methods enc = Methods.AvailableMethods →
  EncryptionMethod.find_by_code enc c = Some e →
  e ∈ Methods.AvailableMethods ∧ Methods.code e = c.
Proof.
  intros Hm Hfind. unfold EncryptionMethod.find_by_code in Hfind.
  rewrite Hm in Hfind. apply find_some in Hfind as [Hin Hc].
  split; [by apply list_elem_of_In | by apply bool_decide_eq_true in Hc].
Qed.

Lemma get32_some_length (b : list Z) (off : nat) (v : Z) :
  get32 b off = Ok v → (off + 4 ≤ length b)%nat.
Proof.
  unfold get32. intros Hget.
  assert (Hlen : length (take 4 (drop off b)) = 4%nat).
  { by destruct (take 4 (drop off b)) as [|? [|? [|? [|? [|? ?]]]]]. }
  rewrite length_take, length_drop in Hlen. lia.
Qed.

(** The length field is read from the first six bytes. *)
Lemma get32_prefix (b x : list Z) (n : nat) :
  (6 ≤ n)%nat → (6 ≤ length b)%nat →
  get32 (take n b ++ x) BinaryPack.OFFSET_DATA_LENGTH
  = get32 b BinaryPack.OFFSET_DATA_LENGTH.
Proof.
  intros Hn Hb. unfold get32, BinaryPack.OFFSET_DATA_LENGTH.
  replace (take 4 (drop 2 (take n b ++ x))) with (take 4 (drop 2 b));
    [done|].
  apply list_eq. intros i.
  destruct (decide (i < 4)%nat) as [Hi|Hi].
  - rewrite !lookup_take_lt, !lookup_drop by done.
    rewrite lookup_app_l by (rewrite length_take; lia).
    by rewrite lookup_take_lt by lia.
  - by rewrite !lookup_take_ge by lia.
Qed.

Lemma get8_take (b : list Z) (n off : nat) :
  (off < n)%nat → get8 (take n b) off = get8 b off.
Proof. intros Hoff. unfold get8. by rewrite lookup_take_lt. Qed.

(** The dispatcher's [decrypt] with a string secret, on a buffer and on
    a prefix of it that contains the header. *)
Lemma decrypt_bytes_take (s : JSString) (c : Z) (b : list Z) (n : nat) :
  (6 ≤ length b)%nat →
  ∃ b',
    decrypt_bytes (EncryptionMethod.new (Some s) BinaryPack.META_LENGTH) c b
    = Ok b'
    ∧ take 6 b' = take 6 b
    ∧ length b' = length b
    ∧ decrypt_bytes (EncryptionMethod.new (Some s) BinaryPack.META_LENGTH)
        c (take (6 + n) b)
      = Ok (take (6 + n) b').
Proof.
  intros Hb. unfold decrypt_bytes.
  destruct (EncryptionMethod.find_by_code _ c) as [e|] eqn:Hfind.
  - apply find_by_code_elem in Hfind as [He _]; [|done].
    cbn [EncryptionMethod.new EncryptionMethod.metaLength
         EncryptionMethod.secret].
    change BinaryPack.META_LENGTH with 6%nat. unfold region.
    destruct (registered_decrypt_take e s (drop 6 b) n He)
      as (d' & Hdec & Hlen & Htake).
    rewrite Hdec. cbn [result_bind]. exists (take 6 b ++ d').
    assert (Hl6 : length (take 6 b) = 6%nat) by (rewrite length_take; lia).
    split; [done|]. split; [by apply take_app_length'|].
    split.
    { rewrite length_app, Hl6, Hlen, length_drop. lia. }
    rewrite take_take, Nat.min_l by lia.
    rewrite skipn_firstn_comm.
    replace (6 + n - 6)%nat with n by lia.
    rewrite Htake. cbn [result_bind].
    by rewrite (take_app_add' (take 6 b) d' 6 n).
  - by exists b.
Qed.

(** The copy after the method check keeps the header and the length. *)
Lemma checked_copy_take (secret method : option JSString)
    (this : BinaryPack.t) (b : list Z) (n : nat) :
  BinaryPack.new secret method = Ok this →
  (6 ≤ length b)%nat →
  match checked_copy this b with
  | Ok b' =>
      take 6 b' = take 6 b ∧ length b' = length b
      ∧ checked_copy this (take (6 + n) b) = Ok (take (6 + n) b')
  | Err e => checked_copy this (take (6 + n) b) = Err e
  end.
Proof.
  intros Hnew Hb.
  destruct (constructed_cases _ _ _ Hnew)
    as (Hsec & Hmeth & Henc
        & [(Hconf & _)|(Hconf & s & e & -> & _)]);
    unfold checked_copy;
    rewrite !get8_take
      by (unfold BinaryPack.OFFSET_VERSION, BinaryPack.OFFSET_METHOD_CODE;
          lia);
    rewrite Hconf;
    (destruct (get8 b BinaryPack.OFFSET_VERSION) as [version|err];
       [|done]); cbn [result_bind];
    (case_bool_decide; [done|]);
    (destruct (get8 b BinaryPack.OFFSET_METHOD_CODE) as [code|err];
       [|done]); cbn [result_bind].
  - done.
  - case_bool_decide; [done|]. rewrite Henc.
    destruct (decrypt_bytes_take s code b n Hb)
      as (b' & -> & Hhead & Hlen & ->).
    done.
Qed.

(** When the length check passes, [unpack] reads the header and the
    first [n] payload bytes, [n] being the stored length, and nothing
    else. *)
Lemma unpack_bytes_take (secret method : option JSString)
    (this : BinaryPack.t) (b : list Z) (n : nat) :
  BinaryPack.new secret method = Ok this →
  get32 b BinaryPack.OFFSET_DATA_LENGTH = Ok (Z.of_nat n) →
  (6 + n ≤ length b)%nat →
  unpack_bytes this b = unpack_bytes this (take (6 + n) b).
Proof.
  intros Hnew Hget Hlen.
  pose proof (checked_copy_take _ _ this b n Hnew ltac:(lia)) as Hcopy.
  unfold unpack_bytes.
  destruct (checked_copy this b) as [b'|err];
    [destruct Hcopy as (Hhead & Hlen' & ->)|by rewrite Hcopy].
  cbn [result_bind]. f_equal.
  assert (Hget' : get32 b' BinaryPack.OFFSET_DATA_LENGTH = Ok (Z.of_nat n)).
  { rewrite <- Hget, <- (take_drop 6 b'), Hhead.
    apply (get32_prefix b (drop 6 b') 6); lia. }
  assert (Hget'' : get32 (take (6 + n) b') BinaryPack.OFFSET_DATA_LENGTH
                   = Ok (Z.of_nat n)).
  { rewrite <- Hget', <- (app_nil_r (take (6 + n) b')).
    apply (get32_prefix b' [] (6 + n)); lia. }
  rewrite Hget', Hget''. cbn [result_bind].
  rewrite length_take, Nat.min_l by lia.
  change BinaryPack.META_LENGTH with 6%nat.
  change BinaryPack.OFFSET_DATA with 6%nat.
  rewrite (bool_decide_false (Z.of_nat n > Z.of_nat (length b') - Z.of_nat 6))
    by lia.
  rewrite (bool_decide_false (Z.of_nat n > Z.of_nat (6 + n) - Z.of_nat 6))
    by lia.
  rewrite Nat2Z.id, !bool_decide_true by lia.
  rewrite skipn_firstn_comm.
  replace (6 + n - 6)%nat with n by lia.
  by rewrite take_idemp.
Qed.

End Validation.

Section ValidationClaims.
Context `{RT : Runtime}.

Lemma get8_lookup (b : list Z) (off : nat) (x : Z) :
  b !! off = Some x → get8 b off = Ok x.
Proof. intros Hx. unfold get8. by rewrite Hx. Qed.

(** A buffer that passes the version check and the method check. *)
Lemma checked_copy_ok (secret method : option JSString)
    (this : BinaryPack.t) (b : list Z) (c : Z) :
  BinaryPack.new secret method = Ok this →
  b !! 0%nat = Some 1 → b !! 1%nat = Some c →
  (configured this = true →
   EncryptionMethod.getEncryptionMethodName (BinaryPack.encryptor this) c
   = method) →
  (6 ≤ length b)%nat →
  ∃ b', checked_copy this b = Ok b'
        ∧ take 6 b' = take 6 b ∧ length b' = length b.
Proof.
  intros Hnew Hv Hc Hname Hb.
  pose proof (checked_copy_take _ _ this b 0 Hnew Hb) as Hshape.
  assert (Hok : ∃ b', checked_copy this b = Ok b').
  { destruct (constructed_cases _ _ _ Hnew)
      as (Hsec & Hmeth & Henc
          & [(Hconf & _)|(Hconf & s & e & -> & _)]);
      unfold checked_copy;
      rewrite (get8_lookup b BinaryPack.OFFSET_VERSION 1 Hv),
        (get8_lookup b BinaryPack.OFFSET_METHOD_CODE c Hc), Hconf;
      cbn [result_bind];
      rewrite bool_decide_false by (intros Hne; by apply Hne).
    - by eexists.
    - rewrite Hmeth, (Hname Hconf).
      rewrite bool_decide_false by (intros Hne; by apply Hne).
      rewrite Henc.
      destruct (decrypt_bytes_take s c b 0 Hb) as (b' & -> & _).
      by eexists. }
  destruct Hok as [b' Hb']. rewrite Hb' in Hshape.
  exists b'. by destruct Hshape as (? & ? & _).
Qed.

(** C3. [unpack] checks in this order, and the first check that fails
    gives the error: the version (byte 0 must be 1, else
    [FormatVersionMismatch], whatever the rest of the buffer holds);
    then, only for a packer with a secret and a method, the method (the
    stored code must resolve through the registry to the packer's
    method, else [MethodMismatch], whatever the length field holds; code
    0 resolves to nothing); then the stored length (it must not exceed
    the buffer length minus 6, else [InvalidLength]). A packer without a
    secret and method never reports [MethodMismatch]. *)
Theorem unpack_validation_order (secret method : option JSString)
    (this : BinaryPack.t) (l : nat) (b : list Z) (h : Heap) :
  BinaryPack.new secret method = Ok this →
  h !! l = Some b →
  (∀ x, b !! 0%nat = Some x → x ≠ 1 →
        (BinaryPack.unpack this l h).1
        = Err (UnpackError FormatVersionMismatch))
  ∧ (∀ c, b !! 0%nat = Some 1 → b !! 1%nat = Some c →
          configured this = true →
          EncryptionMethod.getEncryptionMethodName
            (BinaryPack.encryptor this) c ≠ method →
          (BinaryPack.unpack this l h).1 = Err (UnpackError MethodMismatch))
  ∧ (b !! 0%nat = Some 1 → b !! 1%nat = Some 0 →
     configured this = true →
     (BinaryPack.unpack this l h).1 = Err (UnpackError MethodMismatch))
  ∧ (∀ c len, b !! 0%nat = Some 1 → b !! 1%nat = Some c →
              (configured this = true →
               EncryptionMethod.getEncryptionMethodName
                 (BinaryPack.encryptor this) c = method) →
              get32 b 2 = Ok len →
              len > Z.of_nat (length b) - 6 →
              (BinaryPack.unpack this l h).1
              = Err (UnpackError InvalidLength))
  ∧ (configured this = false →
     (BinaryPack.unpack this l h).1 ≠ Err (UnpackError MethodMismatch)).
Proof.
  intros Hnew Hl.
  destruct (unpack_run this l b h Hl) as [bc ->]. cbn [fst].
  destruct (constructed_cases _ _ _ Hnew) as (Hsec & Hmeth & Henc & Hcases).
  assert (Hmismatch : ∀ c, b !! 0%nat = Some 1 → b !! 1%nat = Some c →
            configured this = true →
            EncryptionMethod.getEncryptionMethodName
              (BinaryPack.encryptor this) c ≠ method →
            unpack_bytes this b = Err (UnpackError MethodMismatch)).
  { intros c Hv Hc Hconf Hne. unfold unpack_bytes, checked_copy.
    rewrite (get8_lookup b BinaryPack.OFFSET_VERSION 1 Hv),
      (get8_lookup b BinaryPack.OFFSET_METHOD_CODE c Hc), Hconf.
    cbn [result_bind].
    rewrite bool_decide_false by (intros Hx; by apply Hx).
    rewrite Hmeth, bool_decide_true by (intros Hx; by apply Hne). done. }
  split; [|split; [|split; [|split]]].
  - intros x Hx Hne. unfold unpack_bytes, checked_copy.
    rewrite (get8_lookup b BinaryPack.OFFSET_VERSION x Hx). cbn [result_bind].
    by rewrite bool_decide_true.
  - exact Hmismatch.
  - intros Hv Hc Hconf. apply (Hmismatch 0 Hv Hc Hconf).
    rewrite unknown_code; [|by rewrite Henc|lia].
    destruct Hcases as [(Hconf' & _)|(_ & s & e & _ & _ & _ & -> & _)];
      [congruence|done].
  - intros c len Hv Hc Hname Hget Hlen.
    pose proof (get32_some_length b 2 len Hget) as Hb.
    destruct (checked_copy_ok _ _ this b c Hnew Hv Hc Hname ltac:(lia))
      as (b' & Hcopy & Hhead & Hlen').
    unfold unpack_bytes. rewrite Hcopy. cbn [result_bind].
    assert (Hget' : get32 b' BinaryPack.OFFSET_DATA_LENGTH = Ok len).
    { rewrite <- Hget, <- (take_drop 6 b'), Hhead.
      apply (get32_prefix b (drop 6 b') 6); lia. }
    rewrite Hget'. cbn [result_bind].
    rewrite Hlen'. change BinaryPack.META_LENGTH with 6%nat.
    by rewrite bool_decide_true by lia.
  - intros Hconf. unfold unpack_bytes, checked_copy. rewrite Hconf.
    unfold result_bind, result_wrap, parsed, get8, get32.
    repeat case_match; congruence.
Qed.

(** The two checks before the length is read can fail only as a
    version or a method mismatch on a buffer that holds a header. *)
Lemma checked_copy_errors (secret method : option JSString)
    (this : BinaryPack.t) (b : list Z) (e : Error) :
  BinaryPack.new secret method = Ok this →
  (6 ≤ length b)%nat →
  checked_copy this b = Err e →
  e = FormatVersionMismatch ∨ e = MethodMismatch.
Proof.
  intros Hnew Hb.
  destruct (lookup_lt_is_Some_2 b 0) as [version Hv]; [lia|].
  destruct (lookup_lt_is_Some_2 b 1) as [code Hc]; [lia|].
  destruct (constructed_cases _ _ _ Hnew)
    as (Hsec & Hmeth & Henc
        & [(Hconf & _)|(Hconf & s & k & -> & _)]);
    unfold checked_copy;
    rewrite (get8_lookup b BinaryPack.OFFSET_VERSION version Hv),
      (get8_lookup b BinaryPack.OFFSET_METHOD_CODE code Hc), Hconf;
    cbn [result_bind];
    (case_bool_decide; [intros [= <-]; by left|]).
  - discriminate.
  - case_bool_decide; [intros [= <-]; by right|].
    rewrite Henc.
    destruct (decrypt_bytes_take s code b 0 Hb) as (b' & -> & _).
    discriminate.
Qed.

(** A buffer that passes the two checks and is long enough for its
    stored length [n] is accepted: the outcome is the verdict of
    [JSON.parse] on the decoding of the [n] payload bytes of the copy. *)
Lemma unpack_bytes_accepted (secret method : option JSString)
    (this : BinaryPack.t) (b b' : list Z) (n : nat) :
  BinaryPack.new secret method = Ok this →
  get32 b BinaryPack.OFFSET_DATA_LENGTH = Ok (Z.of_nat n) →
  (6 + n ≤ length b)%nat →
  checked_copy this b = Ok b' →
  unpack_bytes this b
  = match JSON_parse (TextDecoder_decode (take n (drop 6 b'))) with
    | Some v => Ok v
    | None => Err (UnpackError SyntaxError)
    end.
Proof.
  intros Hnew Hget Hlen Hcopy.
  pose proof (checked_copy_take _ _ this b 0 Hnew ltac:(lia)) as Hshape.
  rewrite Hcopy in Hshape. destruct Hshape as (Hhead & Hlen' & _).
  unfold unpack_bytes. rewrite Hcopy. cbn [result_bind].
  assert (Hget' : get32 b' BinaryPack.OFFSET_DATA_LENGTH = Ok (Z.of_nat n)).
  { rewrite <- Hget, <- (take_drop 6 b'), Hhead.
    apply (get32_prefix b (drop 6 b') 6); lia. }
  rewrite Hget'. cbn [result_bind].
  change BinaryPack.META_LENGTH with 6%nat.
  change BinaryPack.OFFSET_DATA with 6%nat.
  rewrite (bool_decide_false (Z.of_nat n > Z.of_nat (length b') - Z.of_nat 6))
    by lia.
  rewrite Nat2Z.id, bool_decide_true by lia.
  by destruct (JSON_parse _).
Qed.

(** C10. The outcome of [unpack] is a function of the six header bytes
    and of the payload bytes below the stored length [n]: two buffers
    that agree up to offset 6 + n and are both at least that long (so
    that both pass the length check) give the same outcome, value or
    error, which is the outcome on the buffer cut after offset 6 + n.
    A stored length below the payload that is there is accepted: the
    outcome is never the invalid-length error nor a read out of range,
    an error can only come from the version check, the method check or
    [JSON.parse], and once the two checks are passed the outcome is the
    verdict of [JSON.parse] on the decoding of the first [n] payload
    bytes of the (decrypted) copy; for a packer without a secret these
    are bytes 6 to 6 + n - 1 of the buffer itself. *)
Theorem trailing_bytes_ignored (secret method : option JSString)
    (this : BinaryPack.t) (l1 l2 : nat) (b1 b2 : list Z) (h1 h2 : Heap)
    (n : nat) :
  BinaryPack.new secret method = Ok this →
  h1 !! l1 = Some b1 → h2 !! l2 = Some b2 →
  get32 b1 2 = Ok (Z.of_nat n) →
  take (6 + n) b1 = take (6 + n) b2 →
  (6 + n ≤ length b1)%nat → (6 + n ≤ length b2)%nat →
  (BinaryPack.unpack this l1 h1).1 = (BinaryPack.unpack this l2 h2).1
  ∧ (BinaryPack.unpack this l1 h1).1
    = (BinaryPack.unpack this l1 (<[l1 := take (6 + n) b1]> h1)).1
  ∧ (BinaryPack.unpack this l1 h1).1 ≠ Err (UnpackError InvalidLength)
  ∧ (BinaryPack.unpack this l1 h1).1 ≠ Err (UnpackError RangeError)
  ∧ (∀ e, (BinaryPack.unpack this l1 h1).1 = Err e →
          e = UnpackError FormatVersionMismatch
          ∨ e = UnpackError MethodMismatch
          ∨ e = UnpackError SyntaxError)
  ∧ (∀ copy, checked_copy this b1 = Ok copy →
             (BinaryPack.unpack this l1 h1).1
             = match JSON_parse (TextDecoder_decode (take n (drop 6 copy)))
               with
               | Some v => Ok v
               | None => Err (UnpackError SyntaxError)
               end)
  ∧ (configured this = false → b1 !! 0%nat = Some 1 →
     (BinaryPack.unpack this l1 h1).1
     = match JSON_parse (TextDecoder_decode (take n (drop 6 b1))) with
       | Some v => Ok v
       | None => Err (UnpackError SyntaxError)
       end).
Proof.
  intros Hnew Hl1 Hl2 Hget Hagree Hlen1 Hlen2.
  change (get32 b1 BinaryPack.OFFSET_DATA_LENGTH = Ok (Z.of_nat n)) in Hget.
  destruct (unpack_run this l1 b1 h1 Hl1) as [c1 ->].
  destruct (unpack_run this l2 b2 h2 Hl2) as [c2 ->].
  destruct (unpack_run this l1 (take (6 + n) b1)
              (<[l1 := take (6 + n) b1]> h1)) as [c3 ->];
    [apply lookup_insert_eq|].
  cbn [fst].
  assert (Hget2 : get32 b2 BinaryPack.OFFSET_DATA_LENGTH = Ok (Z.of_nat n)).
  { rewrite <- Hget.
    rewrite <- (get32_prefix b2 [] (6 + n)) by lia.
    rewrite <- (get32_prefix b1 [] (6 + n)) by lia.
    by rewrite Hagree. }
  assert (Houtcome : ∀ e, unpack_bytes this b1 = Err e →
            e = UnpackError FormatVersionMismatch
            ∨ e = UnpackError MethodMismatch
            ∨ e = UnpackError SyntaxError).
  { intros e. destruct (checked_copy this b1) as [copy|cause] eqn:Hcopy.
    - rewrite (unpack_bytes_accepted _ _ this b1 copy n Hnew Hget Hlen1 Hcopy).
      destruct (JSON_parse _); [discriminate|]. intros [= <-]. tauto.
    - destruct (checked_copy_errors _ _ this b1 cause Hnew ltac:(lia) Hcopy)
        as [-> | ->];
        unfold unpack_bytes; rewrite Hcopy; cbn [result_bind result_wrap];
        intros [= <-]; tauto.
  }
  split; [|split; [|split; [|split; [|split; [|split]]]]].
  - rewrite (unpack_bytes_take _ _ this b1 n Hnew Hget Hlen1).
    rewrite (unpack_bytes_take _ _ this b2 n Hnew Hget2 Hlen2).
    by rewrite Hagree.
  - by rewrite (unpack_bytes_take _ _ this b1 n Hnew Hget Hlen1).
  - intros Herr. by destruct (Houtcome _ Herr) as [H | [H | H]].
  - intros Herr. by destruct (Houtcome _ Herr) as [H | [H | H]].
  - exact Houtcome.
  - intros copy Hcopy.
    exact (unpack_bytes_accepted _ _ this b1 copy n Hnew Hget Hlen1 Hcopy).
  - intros Hconf Hv.
    apply (unpack_bytes_accepted _ _ this b1 b1 n Hnew Hget Hlen1).
    destruct (lookup_lt_is_Some_2 b1 1) as [code Hc]; [lia|].
    unfold checked_copy.
    rewrite (get8_lookup b1 BinaryPack.OFFSET_VERSION 1 Hv),
      (get8_lookup b1 BinaryPack.OFFSET_METHOD_CODE code Hc), Hconf.
    cbn [result_bind].
    by rewrite bool_decide_false by (intros Hne; by apply Hne).
Qed.

End ValidationClaims.

(** ** The codec run on the literal runtime *)
Section Runs.

Lemma literal_true_representable :
  JSON_representable (RT := literal_runtime) LTrue.
Proof.
  exists (js "true"). split; [reflexivity|]. split.
  - unfold valid_string. change (js "true") with [116; 114; 117; 101].
    repeat apply Forall_cons_2; try apply Forall_nil_2; simpl; lia.
  - split; reflexivity.
Defined.

Lemma literal_true_fits (n : nat) :
  serialized_length (RT := literal_runtime) LTrue n → Z.of_nat n < 2 ^ 32.
Proof.
  intros (r & Hr & <-). injection Hr as <-. vm_compute. reflexivity.
Defined.

Lemma pack_unpack_round_trip_witness :
  (∃ this,
     BinaryPack.new None None = Ok this
     ∧ ∃ (l : nat) (h1 h2 : Heap),
         BinaryPack.pack (RT := literal_runtime) this LTrue ∅ = (Ok l, h1)
         ∧ BinaryPack.unpack (RT := literal_runtime) this l h1
           = (Ok LTrue, h2))
  ∧ (∀ (s method : JSString),
       s ≠ [] →
       method ∈ [js "xor"; js "aes-like"; js "caesar"] →
       ∃ this,
         BinaryPack.new (Some s) (Some method) = Ok this
         ∧ ∃ (l : nat) (h1 h2 : Heap),
             BinaryPack.pack (RT := literal_runtime) this LTrue ∅
             = (Ok l, h1)
             ∧ BinaryPack.unpack (RT := literal_runtime) this l h1
               = (Ok LTrue, h2)).
Proof.
  apply (pack_unpack_round_trip (RT := literal_runtime) LTrue ∅).
  - exact literal_true_representable.
  - exact literal_true_fits.
Defined.

(** The buffers [pack] returns for [true]: without a transform, and with
    each method under the secret 'k'. *)
Example pack_true_bytes :
  (BinaryPack.pack (RT := literal_runtime) plain_packer LTrue ∅).2 !! 0%nat
  = Some [1; 0; 0; 0; 0; 4; 116; 114; 117; 101]
  ∧ (BinaryPack.pack (RT := literal_runtime) xor_packer LTrue ∅).2 !! 0%nat
    = Some [1; 1; 0; 0; 0; 4; 31; 25; 30; 14]
  ∧ (BinaryPack.pack (RT := literal_runtime)
       (packer (Some (js "k")) (Some (js "aes-like"))) LTrue ∅).2 !! 0%nat
    = Some [1; 2; 0; 0; 0; 4; 32; 27; 41; 26]
  ∧ (BinaryPack.pack (RT := literal_runtime)
       (packer (Some (js "k")) (Some (js "caesar"))) LTrue ∅).2 !! 0%nat
    = Some [1; 3; 0; 0; 0; 4; 119; 117; 120; 104].
Proof. repeat split; vm_compute; reflexivity. Qed.

Lemma pack_wire_format_witness :
  ∃ (l : nat) (payload : list Z),
    BinaryPack.pack (RT := literal_runtime) xor_packer LTrue ∅
    = (Ok l, <[l := ([1; 1] ++ be32 4) ++ payload]> ∅)
    ∧ length (([1; 1] ++ be32 4) ++ payload) = 10%nat
    ∧ EncryptionMethod.encrypt (BinaryPack.encryptor xor_packer) l
        (Some (js "xor"))
        (<[l := ([1; 1] ++ be32 4) ++ TextEncoder.encode (Some (js "true"))]>
           ∅)
      = (Ok l, <[l := ([1; 1] ++ be32 4) ++ payload]> ∅).
Proof.
  destruct (pack_wire_format (RT := literal_runtime)
              (Some (js "k")) (Some (js "xor")) xor_packer LTrue
              (js "true") 4 ∅)
    as (l & code & payload & _ & Hpack & Hlen & _ & Hxor & _ & _ & _ & _
        & _ & Hplain).
  - reflexivity.
  - reflexivity.
  - reflexivity.
  - vm_compute. reflexivity.
  - rewrite (Hxor eq_refl) in Hpack, Hlen, Hplain.
    exists l, payload. split; [exact Hpack|]. split; [exact Hlen|].
    exact Hplain.
Defined.

Lemma unpack_validation_order_witness :
  (BinaryPack.unpack (RT := literal_runtime) plain_packer 0
     {[0%nat := [2; 0; 0; 0; 0; 0]]}).1
  = Err (UnpackError FormatVersionMismatch)
  ∧ (BinaryPack.unpack (RT := literal_runtime) xor_packer 0
       {[0%nat := [1; 3; 0; 0; 0; 9]]}).1
    = Err (UnpackError MethodMismatch)
  ∧ (BinaryPack.unpack (RT := literal_runtime) xor_packer 0
       {[0%nat := [1; 0; 0; 0; 0; 0]]}).1
    = Err (UnpackError MethodMismatch)
  ∧ (BinaryPack.unpack (RT := literal_runtime) plain_packer 0
       {[0%nat := [1; 3; 0; 0; 0; 9; 116]]}).1
    = Err (UnpackError InvalidLength).
Proof.
  split; [|split; [|split]].
  - destruct (unpack_validation_order (RT := literal_runtime)
                None None plain_packer 0 [2; 0; 0; 0; 0; 0]
                {[0%nat := [2; 0; 0; 0; 0; 0]]}) as (Hversion & _);
      [reflexivity | vm_compute; reflexivity |].
    apply (Hversion 2); [reflexivity | lia].
  - destruct (unpack_validation_order (RT := literal_runtime)
                (Some (js "k")) (Some (js "xor")) xor_packer 0
                [1; 3; 0; 0; 0; 9]
                {[0%nat := [1; 3; 0; 0; 0; 9]]}) as (_ & Hmethod & _);
      [reflexivity | vm_compute; reflexivity |].
    apply (Hmethod 3); [reflexivity | reflexivity | reflexivity |].
    vm_compute. discriminate.
  - destruct (unpack_validation_order (RT := literal_runtime)
                (Some (js "k")) (Some (js "xor")) xor_packer 0
                [1; 0; 0; 0; 0; 0]
                {[0%nat := [1; 0; 0; 0; 0; 0]]}) as (_ & _ & Hzero & _);
      [reflexivity | vm_compute; reflexivity |].
    apply Hzero; reflexivity.
  - destruct (unpack_validation_order (RT := literal_runtime)
                None None plain_packer 0 [1; 3; 0; 0; 0; 9; 116]
                {[0%nat := [1; 3; 0; 0; 0; 9; 116]]})
      as (_ & _ & _ & Hlength & _);
      [reflexivity | vm_compute; reflexivity |].
    apply (Hlength 3 9);
      [reflexivity | reflexivity | discriminate | reflexivity
      | simpl; lia].
Defined.

(** Two buffers with the envelope of [true] under XOR and different
    bytes after it: both are accepted, with the same outcome. *)
Lemma trailing_bytes_ignored_witness :
  (BinaryPack.unpack (RT := literal_runtime) xor_packer 0
     {[0%nat := [1; 1; 0; 0; 0; 4; 31; 25; 30; 14; 9; 9]]}).1
  = (BinaryPack.unpack (RT := literal_runtime) xor_packer 5
       {[5%nat := [1; 1; 0; 0; 0; 4; 31; 25; 30; 14; 200]]}).1
  ∧ (BinaryPack.unpack (RT := literal_runtime) xor_packer 0
       {[0%nat := [1; 1; 0; 0; 0; 4; 31; 25; 30; 14; 9; 9]]}).1
    = (BinaryPack.unpack (RT := literal_runtime) xor_packer 0
         (<[0%nat := take (6 + 4) [1; 1; 0; 0; 0; 4; 31; 25; 30; 14; 9; 9]]>
            {[0%nat := [1; 1; 0; 0; 0; 4; 31; 25; 30; 14; 9; 9]]})).1
  ∧ (BinaryPack.unpack (RT := literal_runtime) xor_packer 0
       {[0%nat := [1; 1; 0; 0; 0; 4; 31; 25; 30; 14; 9; 9]]}).1
    ≠ Err (UnpackError InvalidLength).
Proof.
  pose proof (trailing_bytes_ignored (RT := literal_runtime)
           (Some (js "k")) (Some (js "xor")) xor_packer 0 5
           [1; 1; 0; 0; 0; 4; 31; 25; 30; 14; 9; 9]
           [1; 1; 0; 0; 0; 4; 31; 25; 30; 14; 200]
           {[0%nat := [1; 1; 0; 0; 0; 4; 31; 25; 30; 14; 9; 9]]}
           {[5%nat := [1; 1; 0; 0; 0; 4; 31; 25; 30; 14; 200]]} 4) as H.
  destruct H as (Hsame & Hcut & Haccepted & _);
    [ reflexivity | vm_compute; reflexivity | vm_compute; reflexivity
    | reflexivity | reflexivity | simpl; lia | simpl; lia | ].
  split; [exact Hsame|]. split; [exact Hcut|exact Haccepted].
Defined.

Example unpack_with_trailing_bytes :
  (BinaryPack.unpack (RT := literal_runtime) xor_packer 0
     {[0%nat := [1; 1; 0; 0; 0; 4; 31; 25; 30; 14; 9; 9]]}).1
  = Ok LTrue.
Proof. vm_compute. reflexivity. Qed.

(** [unpack] on a buffer under XOR: the caller's buffer keeps its
    bytes, the decrypted bytes are in the copy. *)
Example unpack_leaves_argument :
  let h := {[0%nat := [1; 1; 0; 0; 0; 4; 31; 25; 30; 14]]} in
  let out := BinaryPack.unpack (RT := literal_runtime) xor_packer 0 h in
  out.1 = Ok LTrue
  ∧ out.2 !! 0%nat = Some [1; 1; 0; 0; 0; 4; 31; 25; 30; 14]
  ∧ out.2 !! 1%nat = Some [1; 1; 0; 0; 0; 4; 116; 114; 117; 101].
Proof. repeat split; vm_compute; reflexivity. Qed.

End Runs.

(** * Further properties of the code *)

(** ** The three methods *)
Section MethodsFurther.

Lemma pointwise_compose (g g' : nat → Z → Z) (d : list Z) :
  pointwise g' (pointwise g d)
  = pointwise (λ i x, g' i (JS.ToUint8 (g i x))) d.
Proof.
  apply list_eq. intros i. rewrite !pointwise_lookup.
  by destruct (d !! i).
Qed.

Lemma pointwise_ext_bytes (g g' : nat → Z → Z) (d : list Z) :
  (∀ i x, is_byte x → JS.ToUint8 (g i x) = JS.ToUint8 (g' i x)) →
  Forall is_byte d →
  pointwise g d = pointwise g' d.
Proof.
  intros Hext Hd. apply imap_ext. intros i x Hx. apply Hext.
  exact (Forall_lookup_1 is_byte d i x Hd Hx).
Qed.

Lemma pointwise_id (g : nat → Z → Z) (d : list Z) :
  (∀ i x, is_byte x → JS.ToUint8 (g i x) = x) →
  Forall is_byte d →
  pointwise g d = d.
Proof.
  intros Hid Hd. apply list_eq. intros i. rewrite pointwise_lookup.
  destruct (d !! i) as [x|] eqn:Hx; simpl; [|done].
  f_equal. apply Hid. exact (Forall_lookup_1 is_byte d i x Hd Hx).
Qed.

Lemma Caesar_byte_inverse_back (shift : Z) (i : nat) (x : Z) :
  is_byte x →
  JS.ToUint8
    (Caesar_encrypt_byte shift i (JS.ToUint8 (Caesar_decrypt_byte shift i x)))
  = x.
Proof.
  intros Hx. unfold Caesar_decrypt_byte, Caesar_encrypt_byte.
  rewrite !ToUint8_rem.
  destruct (ToUint8_wrap (x - shift + 256)) as [m ->].
  replace (x - shift + 256 + m * 2 ^ 8 + shift)
    with (x + (m + 1) * 2 ^ 8) by lia.
  rewrite ToUint8_shift. by apply ToUint8_id.
Qed.

Lemma AES_byte_inverse_back (k : list Z) (round i : nat) (x : Z) :
  is_byte x →
  JS.ToUint8
    (AES_encrypt_byte k round i (JS.ToUint8 (AES_decrypt_byte k round i x)))
  = x.
Proof.
  intros Hx. unfold AES_decrypt_byte, AES_encrypt_byte.
  set (kb := Uint8Array.cyclic_operand k (i + round)).
  rewrite ToUint8_rem.
  set (y := JS.rem (x - Z.of_nat round - Z.of_nat i + 256) 256).
  destruct (ToUint8_wrap
              (JS.bitxor (JS.ToUint8 (JS.bitxor y kb)) kb
               + Z.of_nat round + Z.of_nat i)) as [m Hm].
  assert (Hxor : JS.ToUint8 (JS.bitxor (JS.ToUint8 (JS.bitxor y kb)) kb)
                 = JS.ToUint8 y).
  { by rewrite ToUint8_bitxor, ToUint8_idemp, ToUint8_bitxor, lxor_cancel_r. }
  destruct (ToUint8_wrap (JS.bitxor (JS.ToUint8 (JS.bitxor y kb)) kb))
    as [m1 Hm1].
  destruct (ToUint8_wrap y) as [m2 Hm2].
  assert (Hy : JS.ToUint8 y
               = JS.ToUint8 (x - Z.of_nat round - Z.of_nat i + 256))
    by apply ToUint8_rem.
  destruct (ToUint8_wrap (x - Z.of_nat round - Z.of_nat i + 256))
    as [m3 Hm3].
  replace (JS.bitxor (JS.ToUint8 (JS.bitxor y kb)) kb
           + Z.of_nat round + Z.of_nat i)
    with (x + (m3 + 1 - m1) * 2 ^ 8) by lia.
  rewrite ToUint8_shift. by apply ToUint8_id.
Qed.

(** X1. The Caesar method is a bijection on byte slices for every string
    secret: [decrypt] undoes [encrypt] and [encrypt] undoes [decrypt]. *)
Theorem caesar_round_trip (secret : JSString) (data : list Z) :
  Forall is_byte data →
  (∃ c, Caesar.encrypt (Some secret) data = Ok c
        ∧ Caesar.decrypt (Some secret) c = Ok data)
  ∧ (∃ p, Caesar.decrypt (Some secret) data = Ok p
          ∧ Caesar.encrypt (Some secret) p = Ok data).
Proof.
  intros Hd. split; [by apply Caesar_inverse|].
  destruct (Hash_secret_total secret) as (h & Hh & _).
  eexists. split; [by apply Caesar_decrypt_pointwise|].
  rewrite (Caesar_encrypt_pointwise secret h) by done. f_equal.
  apply pointwise_inverse; [|done].
  intros i x. apply Caesar_byte_inverse_back.
Qed.

Lemma caesar_round_trip_witness :
  (∃ c, Caesar.encrypt (Some (js "key")) [0; 128; 255] = Ok c
        ∧ Caesar.decrypt (Some (js "key")) c = Ok [0; 128; 255])
  ∧ (∃ p, Caesar.decrypt (Some (js "key")) [0; 128; 255] = Ok p
          ∧ Caesar.encrypt (Some (js "key")) p = Ok [0; 128; 255]).
Proof.
  apply (caesar_round_trip (js "key") [0; 128; 255]).
  repeat apply Forall_cons_2; try apply Forall_nil_2; unfold is_byte; lia.
Defined.

(** X2. The AES-like method: [encrypt] also undoes [decrypt], for byte
    slices of every length and every secret, so both are bijections. *)
Theorem aes_encrypt_decrypt (secret : option JSString) (data : list Z) :
  Forall is_byte data →
  ∃ p, AES.decrypt secret data = Ok p ∧ AES.encrypt secret p = Ok data.
Proof.
  intros Hd. eexists. split; [apply AES_decrypt_pointwise|].
  rewrite AES_encrypt_pointwise. f_equal.
  set (k := TextEncoder.encode secret).
  rewrite (pointwise_inverse (AES_decrypt_byte k 0) (AES_encrypt_byte k 0));
    [| intros i x; apply AES_byte_inverse_back | apply pointwise_bytes].
  rewrite (pointwise_inverse (AES_decrypt_byte k 1) (AES_encrypt_byte k 1));
    [| intros i x; apply AES_byte_inverse_back | apply pointwise_bytes].
  apply pointwise_inverse; [|done]. intros i x. apply AES_byte_inverse_back.
Qed.

Lemma aes_encrypt_decrypt_witness :
  ∃ p, AES.decrypt (Some (js "k")) (replicate 300 7) = Ok p
       ∧ AES.encrypt (Some (js "k")) p = Ok (replicate 300 7).
Proof.
  apply (aes_encrypt_decrypt (Some (js "k")) (replicate 300 7)).
  apply Forall_replicate. unfold is_byte. lia.
Defined.

(** Each registered class the other way round: [encrypt] undoes
    [decrypt] on byte slices. *)
Lemma registered_inverse_back (e : Methods.entry) (s : JSString)
    (d : list Z) :
  e ∈ Methods.AvailableMethods → Forall is_byte d →
  ∃ p, method_decrypt (Methods.instance e) (Some s) d = Ok p
       ∧ method_encrypt (Methods.instance e) (Some s) p = Ok d.
Proof.
  intros [-> | [-> | ->]]%entry_cases Hd; simpl.
  - eexists. unfold XOR.decrypt.
    split; [apply XOR_encrypt_pointwise|].
    rewrite XOR_encrypt_pointwise. f_equal.
    apply pointwise_inverse; [|done]. intros i x. apply XOR_byte_involutive.
  - eexists. split; [apply AES_decrypt_pointwise|].
    rewrite AES_encrypt_pointwise. f_equal.
    set (k := TextEncoder.encode (Some s)).
    rewrite (pointwise_inverse (AES_decrypt_byte k 0) (AES_encrypt_byte k 0));
      [| intros i x; apply AES_byte_inverse_back | apply pointwise_bytes].
    rewrite (pointwise_inverse (AES_decrypt_byte k 1) (AES_encrypt_byte k 1));
      [| intros i x; apply AES_byte_inverse_back | apply pointwise_bytes].
    apply pointwise_inverse; [|done]. intros i x. apply AES_byte_inverse_back.
  - destruct (Hash_secret_total s) as (h & Hh & _).
    eexists. split; [by apply Caesar_decrypt_pointwise|].
    rewrite (Caesar_encrypt_pointwise s h) by done. f_equal.
    apply pointwise_inverse; [|done].
    intros i x. apply Caesar_byte_inverse_back.
Qed.

(** X3. Every class of the registry, with a string secret, permutes the
    byte slices of each length: on the bytes of a typed array neither
    [encrypt] nor [decrypt] throws, each returns bytes of the same
    length, [decrypt] undoes [encrypt] and [encrypt] undoes
    [decrypt]. *)
Theorem registered_methods_permute (e : Methods.entry) (secret : JSString)
    (data : list Z) :
  e ∈ Methods.AvailableMethods → Forall is_byte data →
  ∃ c p,
    method_encrypt (Methods.instance e) (Some secret) data = Ok c
    ∧ method_decrypt (Methods.instance e) (Some secret) data = Ok p
    ∧ length c = length data ∧ length p = length data
    ∧ Forall is_byte c ∧ Forall is_byte p
    ∧ method_decrypt (Methods.instance e) (Some secret) c = Ok data
    ∧ method_encrypt (Methods.instance e) (Some secret) p = Ok data.
Proof.
  intros He Hd.
  destruct (registered_inverse e secret data He Hd) as (c & Henc & Hdec).
  destruct (registered_inverse_back e secret data He Hd)
    as (p & Hdec' & Henc').
  destruct (registered_decrypt_take e secret data 0 He)
    as (p' & Hp' & Hlenp & _).
  rewrite Hdec' in Hp'. injection Hp' as <-.
  assert (Hbytes : ∀ x y, method_encrypt (Methods.instance e) (Some secret) x
                          = Ok y → Forall is_byte y).
  { intros x y. revert He. intros [-> | [-> | ->]]%entry_cases; simpl.
    - rewrite XOR_encrypt_pointwise. intros [= <-]. apply pointwise_bytes.
    - rewrite AES_encrypt_pointwise. intros [= <-]. apply pointwise_bytes.
    - destruct (Hash_secret_total secret) as (h & Hh & _).
      rewrite (Caesar_encrypt_pointwise secret h) by done. intros [= <-].
      apply pointwise_bytes. }
  assert (Hbytes' : ∀ x y, method_decrypt (Methods.instance e) (Some secret) x
                           = Ok y → Forall is_byte y).
  { intros x y. revert He. intros [-> | [-> | ->]]%entry_cases; simpl.
    - unfold XOR.decrypt. rewrite XOR_encrypt_pointwise. intros [= <-].
      apply pointwise_bytes.
    - rewrite AES_decrypt_pointwise. intros [= <-]. apply pointwise_bytes.
    - destruct (Hash_secret_total secret) as (h & Hh & _).
      rewrite (Caesar_decrypt_pointwise secret h) by done. intros [= <-].
      apply pointwise_bytes. }
  exists c, p. split; [done|]. split; [done|].
  split; [by eapply registered_encrypt_length|]. split; [done|].
  split; [by eapply Hbytes|]. split; [by eapply Hbytes'|]. done.
Qed.

Lemma registered_methods_permute_witness :
  ∃ c p,
    AES.encrypt (Some (js "k")) [200; 0; 7] = Ok c
    ∧ AES.decrypt (Some (js "k")) [200; 0; 7] = Ok p
    ∧ length c = 3%nat ∧ length p = 3%nat
    ∧ Forall is_byte c ∧ Forall is_byte p
    ∧ AES.decrypt (Some (js "k")) c = Ok [200; 0; 7]
    ∧ AES.encrypt (Some (js "k")) p = Ok [200; 0; 7].
Proof.
  apply (registered_methods_permute
           {| Methods.code := 2; Methods.name := AES.name;
              Methods.instance := Methods.AES_class |} (js "k")
           [200; 0; 7]).
  - unfold Methods.AvailableMethods. rewrite !elem_of_cons. tauto.
  - repeat apply Forall_cons_2; try apply Forall_nil_2; unfold is_byte; lia.
Defined.

Lemma bitxor_zero_byte (x : Z) : is_byte x → JS.bitxor x 0 = x.
Proof.
  intros Hx. unfold JS.bitxor. change (JS.ToInt32 0) with 0.
  rewrite Z.lxor_0_r. apply ToInt32_id. unfold is_byte in Hx. lia.
Qed.

(** X4. With the empty string as secret the XOR method and the Caesar
    method leave every byte as it is (the key index is NaN, the shift is
    0), and the AES-like method adds [3 + 3 * i] to the byte at index
    [i] modulo 256, whatever the data. *)
Theorem empty_secret_transforms (data : list Z) :
  Forall is_byte data →
  XOR.encrypt (Some []) data = Ok data
  ∧ Caesar.encrypt (Some []) data = Ok data
  ∧ Caesar.decrypt (Some []) data = Ok data
  ∧ AES.encrypt (Some []) data
    = Ok (imap (λ i x, (x + 3 + 3 * Z.of_nat i) mod 256) data).
Proof.
  intros Hd. split; [|split; [|split]].
  - rewrite XOR_encrypt_pointwise. f_equal. apply pointwise_id; [|done].
    intros i x Hx. unfold XOR_byte. simpl Uint8Array.cyclic_operand.
    rewrite bitxor_zero_byte by done. by apply ToUint8_id.
  - rewrite (Caesar_encrypt_pointwise [] 0) by done. f_equal.
    apply pointwise_id; [|done]. intros i x Hx.
    unfold Caesar_encrypt_byte. rewrite ToUint8_rem.
    change (JS.rem 0 26) with 0. rewrite Z.add_0_r. by apply ToUint8_id.
  - rewrite (Caesar_decrypt_pointwise [] 0) by done. f_equal.
    apply pointwise_id; [|done]. intros i x Hx.
    unfold Caesar_decrypt_byte. rewrite ToUint8_rem.
    change (JS.rem 0 26) with 0.
    replace (x - 0 + 256) with (x + 1 * 2 ^ 8) by lia.
    rewrite ToUint8_shift. by apply ToUint8_id.
  - rewrite AES_encrypt_pointwise. f_equal.
    rewrite !pointwise_compose. unfold pointwise. apply imap_ext.
    intros i x Hx.
    assert (Hb : is_byte x) by exact (Forall_lookup_1 is_byte data i x Hd Hx).
    unfold AES_encrypt_byte. simpl Uint8Array.cyclic_operand.
    rewrite !ToUint8_rem.
    rewrite (bitxor_zero_byte x) by done.
    rewrite (bitxor_zero_byte (JS.ToUint8 _)) by apply ToUint8_range.
    rewrite (bitxor_zero_byte (JS.ToUint8 _)) by apply ToUint8_range.
    destruct (ToUint8_wrap (x + Z.of_nat 0 + Z.of_nat i)) as [m0 ->].
    destruct (ToUint8_wrap
                (x + Z.of_nat 0 + Z.of_nat i + m0 * 2 ^ 8
                 + Z.of_nat 1 + Z.of_nat i)) as [m1 ->].
    unfold JS.ToUint8. 
    replace (x + Z.of_nat 0 + Z.of_nat i + m0 * 2 ^ 8 + Z.of_nat 1
             + Z.of_nat i + m1 * 2 ^ 8 + Z.of_nat 2 + Z.of_nat i)
      with (x + 3 + 3 * Z.of_nat i + (m0 + m1) * 2 ^ 8) by lia.
    change 256 with (2 ^ 8). apply Z_mod_plus_full.
Qed.

Lemma empty_secret_transforms_witness :
  XOR.encrypt (Some []) [0; 100; 255] = Ok [0; 100; 255]
  ∧ Caesar.encrypt (Some []) [0; 100; 255] = Ok [0; 100; 255]
  ∧ Caesar.decrypt (Some []) [0; 100; 255] = Ok [0; 100; 255]
  ∧ AES.encrypt (Some []) [0; 100; 255]
    = Ok (imap (λ i x, (x + 3 + 3 * Z.of_nat i) mod 256) [0; 100; 255]).
Proof.
  apply (empty_secret_transforms [0; 100; 255]).
  repeat apply Forall_cons_2; try apply Forall_nil_2; unfold is_byte; lia.
Defined.

End MethodsFurther.

Section XorKey.

Lemma utf8_of_code_point_nonempty (cp : Z) :
  TextEncoder.utf8_of_code_point cp ≠ [].
Proof. unfold TextEncoder.utf8_of_code_point. by repeat case_match. Qed.

Lemma utf8_nonempty (s : JSString) : s ≠ [] → TextEncoder.utf8 s ≠ [].
Proof.
  destruct s as [|c rest]; [done|]. intros _.
  cbn [TextEncoder.utf8].
  assert (Happ : ∀ cp k, TextEncoder.utf8_of_code_point cp ++ k ≠ []).
  { intros cp k Heq. apply app_eq_nil in Heq as [Heq _].
    by apply utf8_of_code_point_nonempty in Heq. }
  repeat case_match; try apply Happ; apply utf8_of_code_point_nonempty.
Qed.

Lemma cyclic_operand_lookup (k : list Z) (i : nat) :
  k ≠ [] →
  Uint8Array.cyclic_operand k i = k !!! (i mod length k)%nat.
Proof.
  intros Hk. destruct k as [|k0 k']; [done|].
  unfold Uint8Array.cyclic_operand, Uint8Array.get, JS.rem.
  f_equal. rewrite Z.rem_mod_nonneg by (simpl length; lia).
  rewrite <- Nat2Z.inj_mod. apply Nat2Z.id.
Qed.

(** X5. The XOR method gives its key away to anyone who knows the
    plaintext: for a nonempty secret, the XOR of the byte before and the
    byte after at index [i] is byte [i mod m] of the UTF-8 encoding of
    the secret, [m] being the length of that encoding. *)
Theorem xor_reveals_key (secret : JSString) (data c : list Z) (i : nat)
    (x y : Z) :
  secret ≠ [] → valid_string secret → Forall is_byte data →
  XOR.encrypt (Some secret) data = Ok c →
  data !! i = Some x → c !! i = Some y →
  TextEncoder.encode (Some secret) ≠ []
  ∧ Z.lxor x y
    = TextEncoder.encode (Some secret)
        !!! (i mod length (TextEncoder.encode (Some secret)))%nat.
Proof.
  intros Hne Hvalid Hd Henc Hx Hy.
  set (key := TextEncoder.encode (Some secret)).
  assert (Hkey : key ≠ []) by (by apply utf8_nonempty).
  split; [done|].
  rewrite XOR_encrypt_pointwise in Henc. injection Henc as <-.
  rewrite pointwise_lookup, Hx in Hy. simpl in Hy. injection Hy as <-.
  fold key. unfold XOR_byte. rewrite ToUint8_bitxor.
  rewrite cyclic_operand_lookup by done.
  assert (Hxb : is_byte x) by exact (Forall_lookup_1 is_byte data i x Hd Hx).
  assert (Hkb : is_byte (key !!! (i mod length key)%nat)).
  { apply (Forall_lookup_total_1 is_byte key).
    - by apply utf8_bytes.
    - apply Nat.mod_upper_bound. by destruct key. }
  rewrite !ToUint8_id by done.
  by rewrite <- Z.lxor_assoc, Z.lxor_nilpotent, Z.lxor_0_l.
Qed.

Lemma xor_reveals_key_witness :
  TextEncoder.encode (Some (js "key")) ≠ []
  ∧ Z.lxor 250 145
    = TextEncoder.encode (Some (js "key"))
        !!! (3 mod length (TextEncoder.encode (Some (js "key"))))%nat.
Proof.
  apply (xor_reveals_key (js "key") [1; 2; 3; 250; 0]
           [106; 103; 122; 145; 101] 3 250 145).
  - discriminate.
  - unfold valid_string. change (js "key") with [107; 101; 121].
    repeat apply Forall_cons_2; try apply Forall_nil_2; simpl; lia.
  - repeat apply Forall_cons_2; try apply Forall_nil_2; unfold is_byte; lia.
  - vm_compute. reflexivity.
  - reflexivity.
  - reflexivity.
Defined.

End XorKey.

(** ** The hash *)
Section HashFurther.

Lemma hash_wrap_once (s : JSString) :
  foldl (λ h c, JS.ToInt32 (h * 31 + c)) 0 s
  = JS.ToInt32 (hash_polynomial s).
Proof.
  unfold hash_polynomial.
  induction s as [|c s IH] using rev_ind; [done|].
  rewrite !foldl_app. cbn [foldl]. rewrite IH.
  destruct (ToInt32_wrap (foldl (λ h c0, h * 31 + c0) 0 s)) as [k ->].
  replace ((foldl (λ h c0, h * 31 + c0) 0 s + k * 2 ^ 32) * 31 + c)
    with (foldl (λ h c0, h * 31 + c0) 0 s * 31 + c + (k * 31) * 2 ^ 32)
    by lia.
  apply ToInt32_shift.
Qed.

(** X6. Wrapping the accumulator at every character is the same as
    wrapping once at the end: the hash of a string is the absolute value
    of the signed 32-bit representative of the polynomial
    [c0 * 31^(n-1) + ... + c(n-1)]; it lies between 0 and 2^31, and it
    is the polynomial itself when that is below 2^31. *)
Theorem hash_wraps_once (s : JSString) :
  Hash.secret (Str s) = Ok (Z.abs (JS.ToInt32 (hash_polynomial s)))
  ∧ 0 ≤ Z.abs (JS.ToInt32 (hash_polynomial s)) ≤ 2 ^ 31
  ∧ (0 ≤ hash_polynomial s < 2 ^ 31 →
     Hash.secret (Str s) = Ok (hash_polynomial s)).
Proof.
  assert (Hform : Hash.secret (Str s)
                  = Ok (Z.abs (JS.ToInt32 (hash_polynomial s)))).
  { unfold Hash.secret. case_bool_decide as Hlen.
    - destruct s; [done | discriminate].
    - by rewrite hash_foldl_wrap, hash_wrap_once. }
  split; [done|]. split.
  - pose proof (ToInt32_range (hash_polynomial s)). lia.
  - intros Hsmall. rewrite Hform, ToInt32_id by lia. f_equal. lia.
Qed.

Lemma hash_wraps_once_witness :
  Hash.secret (Str (js "abc")) = Ok (hash_polynomial (js "abc")).
Proof.
  apply (hash_wraps_once (js "abc")). vm_compute.
  split; [discriminate | reflexivity].
Defined.

End HashFurther.

(** ** The registry and the dispatcher *)
Section DispatcherFurther.

Lemma find_by_name_elem (enc : EncryptionMethod.t)
    (method : option JSString) (e : Methods.entry) :
  EncryptionMethod.methods enc = Methods.AvailableMethods →
  EncryptionMethod.find_by_name enc method = Some e →
  e ∈ Methods.AvailableMethods ∧ method = Some (Methods.name e).
Proof.
  intros Hm Hfind. unfold EncryptionMethod.find_by_name in Hfind.
  rewrite Hm in Hfind. apply find_some in Hfind as [Hin Hc].
  split; [by apply list_elem_of_In|].
  by apply bool_decide_eq_true in Hc.
Qed.

Lemma find_by_name_unknown (enc : EncryptionMethod.t)
    (method : option JSString) :
  EncryptionMethod.methods enc = Methods.AvailableMethods →
  (∀ name, method = Some name →
           name ∉ Methods.name <$> Methods.AvailableMethods) →
  EncryptionMethod.find_by_name enc method = None.
Proof.
  intros Hm Hout.
  destruct (EncryptionMethod.find_by_name enc method) as [e|] eqn:Hfind;
    [|done].
  apply find_by_name_elem in Hfind as [He Hname]; [|done].
  exfalso. apply (Hout (Methods.name e) Hname).
  apply list_elem_of_fmap. by exists e.
Qed.

Lemma find_by_code_unknown (enc : EncryptionMethod.t) (c : Z) :
  EncryptionMethod.methods enc = Methods.AvailableMethods →
  c ∉ Methods.code <$> Methods.AvailableMethods →
  EncryptionMethod.find_by_code enc c = None.
Proof.
  intros Hm Hout.
  destruct (EncryptionMethod.find_by_code enc c) as [e|] eqn:Hfind; [|done].
  apply find_by_code_elem in Hfind as [He Hcode]; [|done].
  exfalso. apply Hout. apply list_elem_of_fmap. by exists e.
Qed.

(** X7. The registry keeps names and codes in one-to-one
    correspondence: codes and names are without duplicates and 0 is not
    a code; the name of the code of a registered name is that name, and
    the code of the name of a registered code is that code; every other
    name (and [null]) has code 0 and every other code has no name. *)
Theorem registry_consistent (secret : option JSString) (metaLength : nat) :
  let enc := EncryptionMethod.new secret metaLength in
  let names := Methods.name <$> Methods.AvailableMethods in
  let codes := Methods.code <$> Methods.AvailableMethods in
  NoDup names ∧ NoDup codes ∧ (0 ∉ codes)
  ∧ (∀ name, name ∈ names →
       EncryptionMethod.getEncryptionMethodName enc
         (EncryptionMethod.getEncryptionMethodCode enc (Some name))
       = Some name)
  ∧ (∀ c, c ∈ codes →
       ∃ name,
         EncryptionMethod.getEncryptionMethodName enc c = Some name
         ∧ EncryptionMethod.getEncryptionMethodCode enc (Some name) = c)
  ∧ (∀ name, name ∉ names →
       EncryptionMethod.getEncryptionMethodCode enc (Some name) = 0)
  ∧ EncryptionMethod.getEncryptionMethodCode enc None = 0
  ∧ (∀ c, c ∉ codes →
       EncryptionMethod.getEncryptionMethodName enc c = None).
Proof.
  intros enc names codes.
  split; [|split; [|split; [|split; [|split; [|split; [|split]]]]]].
  - subst names. rewrite registry_names.
    apply (bool_decide_unpack _). by vm_compute.
  - subst codes. rewrite registry_codes.
    apply (bool_decide_unpack _). by vm_compute.
  - subst codes. rewrite registry_codes.
    rewrite !elem_of_cons, elem_of_nil. lia.
  - intros name Hname.
    destruct (registry_lookup secret metaLength name Hname)
      as (e & He & <- & Hc & Hfind & Hback).
    unfold EncryptionMethod.getEncryptionMethodName,
      EncryptionMethod.getEncryptionMethodCode.
    subst enc. by rewrite Hfind, Hback.
  - intros c Hc. subst codes.
    apply list_elem_of_fmap in Hc as (e & -> & He).
    assert (Hname : Methods.name e
                    ∈ (Methods.name <$> Methods.AvailableMethods))
      by (apply list_elem_of_fmap; by exists e).
    destruct (registry_lookup secret metaLength (Methods.name e) Hname)
      as (e' & He' & Hn & _ & Hfind & Hback).
    assert (e' = e) as ->.
    { destruct (entry_cases e He) as [-> | [-> | ->]],
        (entry_cases e' He') as [-> | [-> | ->]];
        (done || discriminate Hn). }
    exists (Methods.name e).
    unfold EncryptionMethod.getEncryptionMethodName,
      EncryptionMethod.getEncryptionMethodCode.
    subst enc. by rewrite Hfind, Hback.
  - intros name Hname.
    unfold EncryptionMethod.getEncryptionMethodCode.
    rewrite find_by_name_unknown; [done | done |].
    by intros ? [= <-].
  - done.
  - intros c Hc. unfold EncryptionMethod.getEncryptionMethodName.
    by rewrite find_by_code_unknown.
Qed.

Lemma registry_consistent_witness :
  EncryptionMethod.getEncryptionMethodName (EncryptionMethod.new None 6)
    (EncryptionMethod.getEncryptionMethodCode (EncryptionMethod.new None 6)
       (Some (js "aes-like")))
  = Some (js "aes-like")
  ∧ EncryptionMethod.getEncryptionMethodCode (EncryptionMethod.new None 6)
      (Some (js "md5")) = 0
  ∧ EncryptionMethod.getEncryptionMethodName (EncryptionMethod.new None 6) 4
    = None.
Proof.
  destruct (registry_consistent None 6)
    as (_ & _ & _ & Hname & _ & Hunknown & _ & Hcode).
  split; [|split].
  - apply Hname. rewrite registry_names, !elem_of_cons. tauto.
  - apply Hunknown. rewrite registry_names, !elem_of_cons, elem_of_nil.
    intros [H|[H|[H|[]]]]; discriminate H.
  - apply Hcode. rewrite registry_codes, !elem_of_cons, elem_of_nil. lia.
Defined.

(** X8. The dispatcher does nothing for a name or a code it does not
    know (code 0 included): it returns the reference it was given,
    throws nothing and leaves the store as it is. *)
Theorem dispatcher_unknown_is_noop (secret : option JSString)
    (metaLength : nat) (l : nat) (h : Heap) (method : option JSString)
    (methodCode : Z) :
  (∀ name, method = Some name →
           name ∉ [js "xor"; js "aes-like"; js "caesar"]) →
  methodCode ∉ [1; 2; 3] →
  EncryptionMethod.encrypt (EncryptionMethod.new secret metaLength) l method h
  = (Ok l, h)
  ∧ EncryptionMethod.decrypt (EncryptionMethod.new secret metaLength)
      l methodCode h
    = (Ok l, h).
Proof.
  intros Hname Hcode. split.
  - unfold EncryptionMethod.encrypt.
    by rewrite find_by_name_unknown.
  - unfold EncryptionMethod.decrypt.
    by rewrite find_by_code_unknown.
Qed.

Lemma dispatcher_unknown_is_noop_witness :
  EncryptionMethod.encrypt (EncryptionMethod.new (Some (js "k")) 6) 0
    (Some (js "md5")) {[0%nat := [1; 2; 3; 4; 5; 6; 7; 8]]}
  = (Ok 0%nat, {[0%nat := [1; 2; 3; 4; 5; 6; 7; 8]]})
  ∧ EncryptionMethod.decrypt (EncryptionMethod.new (Some (js "k")) 6) 0 0
      {[0%nat := [1; 2; 3; 4; 5; 6; 7; 8]]}
    = (Ok 0%nat, {[0%nat := [1; 2; 3; 4; 5; 6; 7; 8]]}).
Proof.
  apply (dispatcher_unknown_is_noop (Some (js "k")) 6 0
           {[0%nat := [1; 2; 3; 4; 5; 6; 7; 8]]} (Some (js "md5")) 0).
  - intros name [= <-]. rewrite !elem_of_cons, elem_of_nil.
    intros [H|[H|[H|[]]]]; discriminate H.
  - rewrite !elem_of_cons, elem_of_nil. lia.
Defined.

End DispatcherFurther.

Section DispatcherFrame.

Lemma region_parts (m : nat) (b c : list Z) :
  length c = length (drop m b) →
  take m (take m b ++ c) = take m b
  ∧ drop m (take m b ++ c) = c
  ∧ length (take m b ++ c) = length b.
Proof.
  intros Hlen. rewrite length_drop in Hlen.
  destruct (decide (m ≤ length b)%nat) as [Hle|Hgt].
  - assert (Hm : length (take m b) = m) by (rewrite length_take; lia).
    split; [by apply take_app_length'|].
    split; [by apply drop_app_length'|].
    rewrite length_app, Hm, Hlen. lia.
  - assert (c = []) as -> by (apply nil_length_inv; lia).
    rewrite app_nil_r, take_idemp.
    split; [done|]. split.
    + apply drop_ge. rewrite length_take. lia.
    + rewrite length_take. lia.
Qed.

(** What the dispatcher's two operations make of the bytes of a buffer,
    for a string secret. *)
Lemma dispatch_bytes_shape (secret : JSString) (m : nat) (b : list Z)
    (method : option JSString) (methodCode : Z) :
  ∃ b1 b2,
    encrypt_bytes (EncryptionMethod.new (Some secret) m) method b = Ok b1
    ∧ decrypt_bytes (EncryptionMethod.new (Some secret) m) methodCode b
      = Ok b2
    ∧ take m b1 = take m b ∧ length b1 = length b
    ∧ take m b2 = take m b ∧ length b2 = length b.
Proof.
  assert (Henc : ∃ b1,
    encrypt_bytes (EncryptionMethod.new (Some secret) m) method b = Ok b1
    ∧ take m b1 = take m b ∧ length b1 = length b).
  { unfold encrypt_bytes.
    destruct (EncryptionMethod.find_by_name _ method) as [e|] eqn:Hfind;
      [|by exists b].
    apply find_by_name_elem in Hfind as [He _]; [|done].
    cbn [EncryptionMethod.new EncryptionMethod.metaLength
         EncryptionMethod.secret]. unfold region.
    destruct (registered_encrypt_total e secret (drop m b) He)
      as (c & -> & Hlen).
    cbn [result_bind]. exists (take m b ++ c).
    destruct (region_parts m b c Hlen) as (? & _ & ?). done. }
  assert (Hdec : ∃ b2,
    decrypt_bytes (EncryptionMethod.new (Some secret) m) methodCode b = Ok b2
    ∧ take m b2 = take m b ∧ length b2 = length b).
  { unfold decrypt_bytes.
    destruct (EncryptionMethod.find_by_code _ methodCode) as [e|] eqn:Hfind;
      [|by exists b].
    apply find_by_code_elem in Hfind as [He _]; [|done].
    cbn [EncryptionMethod.new EncryptionMethod.metaLength
         EncryptionMethod.secret]. unfold region.
    destruct (registered_decrypt_take e secret (drop m b) 0 He)
      as (c & -> & Hlen & _).
    cbn [result_bind]. exists (take m b ++ c).
    destruct (region_parts m b c Hlen) as (? & _ & ?). done. }
  destruct Henc as (b1 & ? & ? & ?), Hdec as (b2 & ? & ? & ?).
  by exists b1, b2.
Qed.

(** X9. With a string secret, the dispatcher's [encrypt] and [decrypt]
    never throw, return the reference they were given, write only the
    buffer behind it, and leave its first [metaLength] bytes and its
    length as they were, for every method name and every code. *)
Theorem dispatcher_keeps_header (secret : JSString) (metaLength l : nat)
    (b : list Z) (h : Heap) (method : option JSString) (methodCode : Z) :
  h !! l = Some b →
  ∃ b1 b2,
    EncryptionMethod.encrypt
      (EncryptionMethod.new (Some secret) metaLength) l method h
    = (Ok l, <[l := b1]> h)
    ∧ EncryptionMethod.decrypt
        (EncryptionMethod.new (Some secret) metaLength) l methodCode h
      = (Ok l, <[l := b2]> h)
    ∧ take metaLength b1 = take metaLength b ∧ length b1 = length b
    ∧ take metaLength b2 = take metaLength b ∧ length b2 = length b.
Proof.
  intros Hl.
  destruct (dispatch_bytes_shape secret metaLength b method methodCode)
    as (b1 & b2 & Henc & Hdec & Hrest).
  exists b1, b2.
  rewrite (encrypt_run _ l method b h Hl), Henc.
  rewrite (decrypt_run _ l methodCode b h Hl), Hdec. done.
Qed.

Lemma dispatcher_keeps_header_witness :
  ∃ b1 b2,
    EncryptionMethod.encrypt
      (EncryptionMethod.new (Some (js "k")) 6) 0 (Some (js "aes-like"))
      {[0%nat := [1; 2; 0; 0; 0; 2; 65; 66]]}
    = (Ok 0%nat, <[0%nat := b1]> {[0%nat := [1; 2; 0; 0; 0; 2; 65; 66]]})
    ∧ EncryptionMethod.decrypt
        (EncryptionMethod.new (Some (js "k")) 6) 0 3
        {[0%nat := [1; 2; 0; 0; 0; 2; 65; 66]]}
      = (Ok 0%nat, <[0%nat := b2]> {[0%nat := [1; 2; 0; 0; 0; 2; 65; 66]]})
    ∧ take 6 b1 = take 6 [1; 2; 0; 0; 0; 2; 65; 66]
    ∧ length b1 = length [1; 2; 0; 0; 0; 2; 65; 66]
    ∧ take 6 b2 = take 6 [1; 2; 0; 0; 0; 2; 65; 66]
    ∧ length b2 = length [1; 2; 0; 0; 0; 2; 65; 66].
Proof.
  apply (dispatcher_keeps_header (js "k") 6 0 [1; 2; 0; 0; 0; 2; 65; 66]
           {[0%nat := [1; 2; 0; 0; 0; 2; 65; 66]]}
           (Some (js "aes-like")) 3).
  vm_compute. reflexivity.
Defined.

(** X10. With a string secret, encrypting a buffer of bytes by a
    registered name and then decrypting it by the code of that name puts
    the buffer back as it was, whatever the width of the prefix the
    dispatcher skips. *)
Theorem dispatcher_round_trip (secret name : JSString) (metaLength l : nat)
    (b : list Z) (h : Heap) :
  h !! l = Some b → Forall is_byte b →
  name ∈ [js "xor"; js "aes-like"; js "caesar"] →
  ∃ b1,
    EncryptionMethod.encrypt
      (EncryptionMethod.new (Some secret) metaLength) l (Some name) h
    = (Ok l, <[l := b1]> h)
    ∧ EncryptionMethod.decrypt
        (EncryptionMethod.new (Some secret) metaLength) l
        (EncryptionMethod.getEncryptionMethodCode
           (EncryptionMethod.new (Some secret) metaLength) (Some name))
        (<[l := b1]> h)
      = (Ok l, h).
Proof.
  intros Hl Hb Hname. rewrite <- registry_names in Hname.
  destruct (registry_lookup (Some secret) metaLength name Hname)
    as (e & He & <- & Hc & Hfind & Hback).
  destruct (registered_inverse e secret (drop metaLength b) He)
    as (c & Henc & Hdec); [by apply Forall_drop|].
  pose proof (registered_encrypt_length e secret _ c He Henc) as Hlen.
  destruct (region_parts metaLength b c Hlen) as (Htake & Hdrop & _).
  exists (take metaLength b ++ c).
  rewrite (encrypt_run _ l _ b h Hl).
  unfold encrypt_bytes, EncryptionMethod.getEncryptionMethodCode.
  rewrite Hfind.
  cbn [EncryptionMethod.new EncryptionMethod.metaLength
       EncryptionMethod.secret].
  unfold region at 1. rewrite Henc. cbn [result_bind]. split; [done|].
  rewrite (decrypt_run _ l _ _ _ (lookup_insert_eq _ _ _)).
  unfold decrypt_bytes. rewrite Hback.
  cbn [EncryptionMethod.new EncryptionMethod.metaLength
       EncryptionMethod.secret].
  unfold region. rewrite Hdrop, Hdec, Htake. cbn [result_bind].
  by rewrite take_drop, insert_insert_eq, insert_id.
Qed.

Lemma dispatcher_round_trip_witness :
  ∃ b1,
    EncryptionMethod.encrypt
      (EncryptionMethod.new (Some (js "k")) 2) 0 (Some (js "caesar"))
      {[0%nat := [9; 9; 65; 66; 255]]}
    = (Ok 0%nat, <[0%nat := b1]> {[0%nat := [9; 9; 65; 66; 255]]})
    ∧ EncryptionMethod.decrypt
        (EncryptionMethod.new (Some (js "k")) 2) 0
        (EncryptionMethod.getEncryptionMethodCode
           (EncryptionMethod.new (Some (js "k")) 2) (Some (js "caesar")))
        (<[0%nat := b1]> {[0%nat := [9; 9; 65; 66; 255]]})
      = (Ok 0%nat, {[0%nat := [9; 9; 65; 66; 255]]}).
Proof.
  apply (dispatcher_round_trip (js "k") (js "caesar") 2 0
           [9; 9; 65; 66; 255] {[0%nat := [9; 9; 65; 66; 255]]}).
  - vm_compute. reflexivity.
  - repeat apply Forall_cons_2; try apply Forall_nil_2; unfold is_byte; lia.
  - rewrite !elem_of_cons. tauto.
Defined.

(** X11. The dispatcher is not free of errors: with the secret [null]
    the Caesar class hashes a non-string, so [encrypt] by the name
    'caesar' and [decrypt] by code 3 throw [InvalidInput]; the buffer is
    left untouched. *)
Theorem dispatcher_null_secret_caesar (metaLength l : nat) (b : list Z)
    (h : Heap) :
  h !! l = Some b →
  EncryptionMethod.encrypt (EncryptionMethod.new None metaLength) l
    (Some (js "caesar")) h
  = (Err InvalidInput, h)
  ∧ EncryptionMethod.decrypt (EncryptionMethod.new None metaLength) l 3 h
    = (Err InvalidInput, h).
Proof.
  intros Hl. split.
  - by rewrite (encrypt_run _ l _ b h Hl).
  - by rewrite (decrypt_run _ l _ b h Hl).
Qed.

Lemma dispatcher_null_secret_caesar_witness :
  EncryptionMethod.encrypt (EncryptionMethod.new None 6) 0
    (Some (js "caesar")) {[0%nat := [1; 3; 0; 0; 0; 1; 65]]}
  = (Err InvalidInput, {[0%nat := [1; 3; 0; 0; 0; 1; 65]]})
  ∧ EncryptionMethod.decrypt (EncryptionMethod.new None 6) 0 3
      {[0%nat := [1; 3; 0; 0; 0; 1; 65]]}
    = (Err InvalidInput, {[0%nat := [1; 3; 0; 0; 0; 1; 65]]}).
Proof.
  apply (dispatcher_null_secret_caesar 6 0 [1; 3; 0; 0; 0; 1; 65]
           {[0%nat := [1; 3; 0; 0; 0; 1; 65]]}).
  vm_compute. reflexivity.
Defined.

End DispatcherFrame.

(** ** The codec: stores, errors and packers that differ *)
Section CodecFurther.
Context `{RT : Runtime}.

Lemma get32_short (b : list Z) (off : nat) :
  (length b < off + 4)%nat → get32 b off = Err RangeError.
Proof.
  intros Hlen. unfold get32.
  assert (Hshort : (length (take 4 (drop off b)) < 4)%nat)
    by (rewrite length_take, length_drop; lia).
  by destruct (take 4 (drop off b)) as [|? [|? [|? [|? ?]]]];
    simpl in Hshort; try lia.
Qed.

(** The copy after the two first checks, for a constructed packer: an
    error of one of the checks, or a buffer of the same length. *)
Lemma checked_copy_cases (secret method : option JSString)
    (this : BinaryPack.t) (b : list Z) :
  BinaryPack.new secret method = Ok this →
  (∃ b', checked_copy this b = Ok b' ∧ length b' = length b)
  ∨ (∃ cause, checked_copy this b = Err cause
              ∧ cause ∈ [RangeError; FormatVersionMismatch; MethodMismatch]
              ∧ (b = [] → cause = RangeError)).
Proof.
  intros Hnew.
  destruct (constructed_cases _ _ _ Hnew)
    as (Hsec & Hmeth & Henc
        & [(Hconf & _)|(Hconf & s & e & -> & _)]);
    unfold checked_copy, get8; rewrite Hconf;
    (destruct (b !! BinaryPack.OFFSET_VERSION) as [version|] eqn:Hv;
       cbn [result_bind];
       [|right; exists RangeError; rewrite !elem_of_cons; tauto]);
    (case_bool_decide;
       [right; exists FormatVersionMismatch; rewrite !elem_of_cons;
        split; [done|]; split; [tauto|]; by intros ->|]);
    (destruct (b !! BinaryPack.OFFSET_METHOD_CODE) as [code|] eqn:Hc;
       cbn [result_bind];
       [|right; exists RangeError; rewrite !elem_of_cons; tauto]).
  - left. by exists b.
  - case_bool_decide.
    + right. exists MethodMismatch. rewrite !elem_of_cons.
      split; [done|]. split; [tauto|]. by intros ->.
    + left. rewrite Henc.
      destruct (dispatch_bytes_shape s BinaryPack.META_LENGTH b None code)
        as (_ & b2 & _ & -> & _ & _ & _ & Hlen).
      by exists b2.
Qed.

(** X13. A buffer of fewer than six bytes is never unpacked: a
    constructed packer fails on it with an [UnpackError] whose cause is
    a [RangeError] (a read past the end), a [FormatVersionMismatch] or a
    [MethodMismatch]; on the empty buffer it is the [RangeError]. *)
Theorem unpack_short_buffer (secret method : option JSString)
    (this : BinaryPack.t) (l : nat) (b : list Z) (h : Heap) :
  BinaryPack.new secret method = Ok this →
  h !! l = Some b → (length b < 6)%nat →
  ∃ cause,
    (BinaryPack.unpack this l h).1 = Err (UnpackError cause)
    ∧ cause ∈ [RangeError; FormatVersionMismatch; MethodMismatch]
    ∧ (b = [] → cause = RangeError).
Proof.
  intros Hnew Hl Hlen.
  destruct (unpack_run this l b h Hl) as [bc ->]. cbn [fst].
  unfold unpack_bytes.
  destruct (checked_copy_cases _ _ this b Hnew)
    as [(b' & -> & Hlen')|(cause & -> & Hcause)].
  - cbn [result_bind].
    rewrite get32_short
      by (unfold BinaryPack.OFFSET_DATA_LENGTH; lia).
    exists RangeError. rewrite !elem_of_cons. tauto.
  - by exists cause.
Qed.


(** X14. Whatever makes [unpack] of a constructed packer fail, the
    error is an [UnpackError], and its cause is one of: version
    mismatch, method mismatch, invalid length, a read out of range, a
    JSON syntax error, or the argument not being a buffer of the
    store. *)
Theorem unpack_errors_wrapped (secret method : option JSString)
    (this : BinaryPack.t) (l : nat) (h : Heap) (e : Error) :
  BinaryPack.new secret method = Ok this →
  (BinaryPack.unpack this l h).1 = Err e →
  ∃ cause,
    e = UnpackError cause
    ∧ cause ∈ [FormatVersionMismatch; MethodMismatch; InvalidLength;
               RangeError; SyntaxError; TypeError].
Proof.
  intros Hnew.
  destruct (h !! l) as [b|] eqn:Hl.
  - destruct (unpack_run this l b h Hl) as [bc ->]. cbn [fst].
    unfold unpack_bytes.
    destruct (checked_copy_cases _ _ this b Hnew)
      as [(b' & -> & Hlen')|(cause & -> & Hcause & _)].
    + unfold result_bind, result_wrap, get32, parsed.
      repeat case_match; intros [= <-]; simplify_eq; eexists;
        (split; [done|]); rewrite !elem_of_cons; tauto.
    + cbn [result_bind result_wrap]. intros [= <-]. exists cause.
      split; [done|]. revert Hcause. rewrite !elem_of_cons, !elem_of_nil.
      tauto.
  - rewrite (unpack_run_missing this l h Hl). cbn [fst]. intros [= <-].
    exists TypeError. split; [done|]. rewrite !elem_of_cons. tauto.
Qed.


(** X15. [unpack] can be repeated: as it leaves its argument as it was,
    a second call on the same reference gives the outcome of the
    first. *)
Theorem unpack_repeatable (this : BinaryPack.t) (l : nat) (h : Heap) :
  (BinaryPack.unpack this l (BinaryPack.unpack this l h).2).1
  = (BinaryPack.unpack this l h).1.
Proof.
  destruct (h !! l) as [b|] eqn:Hl.
  - destruct (unpack_run this l b h Hl) as [bc Hrun]. rewrite Hrun.
    cbn [fst snd].
    assert (Hl' : <[fresh (dom h) := bc]> h !! l = Some b).
    { rewrite lookup_insert_ne by (apply fresh_not_in; by rewrite Hl).
      exact Hl. }
    by destruct (unpack_run this l b _ Hl') as [bc' ->].
  - rewrite (unpack_run_missing this l h Hl). cbn [fst snd].
    by rewrite (unpack_run_missing this l h Hl).
Qed.

End CodecFurther.

Lemma unpack_short_buffer_witness :
  ∃ cause,
    (BinaryPack.unpack (RT := literal_runtime) xor_packer 0
       ({[0%nat := [1; 1; 0; 0]]} : Heap)).1 = Err (UnpackError cause)
    ∧ cause ∈ [RangeError; FormatVersionMismatch; MethodMismatch]
    ∧ ([1; 1; 0; 0] = [] → cause = RangeError).
Proof.
  apply (unpack_short_buffer (RT := literal_runtime)
           (Some (js "k")) (Some (js "xor")) xor_packer 0 [1; 1; 0; 0]
           ({[0%nat := [1; 1; 0; 0]]} : Heap));
    [reflexivity | vm_compute; reflexivity | simpl; lia].
Defined.

Lemma unpack_errors_wrapped_witness :
  ∃ cause,
    UnpackError SyntaxError = UnpackError cause
    ∧ cause ∈ [FormatVersionMismatch; MethodMismatch; InvalidLength;
               RangeError; SyntaxError; TypeError].
Proof.
  apply (unpack_errors_wrapped (RT := literal_runtime) None None plain_packer
           0 ({[0%nat := [1; 0; 0; 0; 0; 2; 116; 114]]} : Heap)
           (UnpackError SyntaxError));
    [reflexivity | vm_compute; reflexivity].
Defined.

(** ** Buffers read by a packer other than their writer *)
Section AcrossPackers.
Context `{RT : Runtime}.

Lemma parsed_wrap (o : option JSValue) :
  result_wrap UnpackError (parsed o)
  = match o with
    | Some v' => Ok v'
    | None => Err (UnpackError SyntaxError)
    end.
Proof. by destruct o. Qed.

(** The checks of [unpack] before the length is read, on an envelope. *)
Lemma checked_copy_header (this : BinaryPack.t) (c0 : Z) (n : nat)
    (c : list Z) :
  checked_copy this (header c0 n ++ c)
  = if configured this
    then
      if bool_decide
           (BinaryPack.encryptionMethod this
            ≠ EncryptionMethod.getEncryptionMethodName
                (BinaryPack.encryptor this) (JS.ToUint8 c0))
      then Err MethodMismatch
      else decrypt_bytes (BinaryPack.encryptor this) (JS.ToUint8 c0)
             (header c0 n ++ c)
    else Ok (header c0 n ++ c).
Proof.
  unfold checked_copy.
  rewrite get8_header_version, get8_header_code. cbn [result_bind].
  by rewrite bool_decide_false by (intros Hv; by apply Hv).
Qed.

(** [pack] by one packer and [unpack] by another, on the store. *)
Lemma pack_unpack_across (p1 p2 : BinaryPack.t) (v : JSValue) (b : list Z)
    (h : Heap) :
  pack_bytes p1 v = Ok b →
  ∃ (l : nat) (h1 : Heap),
    BinaryPack.pack p1 v h = (Ok l, h1)
    ∧ h1 !! l = Some b
    ∧ (BinaryPack.unpack p2 l h1).1 = unpack_bytes p2 b.
Proof.
  intros Hpack.
  pose proof (pack_run p1 v h) as Hrun. rewrite Hpack in Hrun.
  destruct (unpack_run p2 (fresh (dom h)) b (<[fresh (dom h) := b]> h))
    as [b' Hrun']; [apply lookup_insert_eq|].
  eexists _, _. split; [exact Hrun|]. split; [apply lookup_insert_eq|].
  by rewrite Hrun'.
Qed.

Lemma entry_name_inj (e e' : Methods.entry) :
  e ∈ Methods.AvailableMethods → e' ∈ Methods.AvailableMethods →
  Methods.name e = Methods.name e' → e = e'.
Proof.
  intros He He' Hname.
  destruct (entry_cases e He) as [-> | [-> | ->]],
           (entry_cases e' He') as [-> | [-> | ->]];
    try reflexivity; discriminate Hname.
Qed.

Lemma entry_name_truthy (e : Methods.entry) :
  e ∈ Methods.AvailableMethods → truthy (Some (Methods.name e)) = true.
Proof. by intros [-> | [-> | ->]]%entry_cases. Qed.

(** What a configured packer makes of an envelope whose code is the one
    of its own method: the parse of the payload it decrypts. *)
Lemma unpack_bytes_own_code (s : JSString) (e : Methods.entry)
    (this : BinaryPack.t) (c : list Z) :
  e ∈ Methods.AvailableMethods →
  BinaryPack.new (Some s) (Some (Methods.name e)) = Ok this →
  Z.of_nat (length c) < 2 ^ 32 →
  ∃ d, method_decrypt (Methods.instance e) (Some s) c = Ok d
       ∧ unpack_bytes this (header (Methods.code e) (length c) ++ c)
         = result_wrap UnpackError
             (parsed (JSON_parse (TextDecoder_decode d))).
Proof.
  intros He Hnew Hlen.
  destruct (constructed_cases _ _ _ Hnew)
    as (_ & Hmeth & Hencr
        & [(_ & _ & Hfalse & _)
          |(Hconf & s' & e' & _ & _ & He' & [= Hname] & Hcode & _ & Hback)]).
  { by rewrite (entry_name_truthy e He) in Hfalse. }
  apply (entry_name_inj e e' He He') in Hname as <-.
  destruct (registered_decrypt_take e s c 0 He) as (d & Hdec & Hlend & _).
  exists d. split; [done|].
  unfold unpack_bytes. rewrite checked_copy_header, Hconf.
  rewrite ToUint8_code by lia.
  unfold EncryptionMethod.getEncryptionMethodName, decrypt_bytes.
  rewrite Hback, Hmeth. rewrite bool_decide_false by (intros Hv; by apply Hv).
  rewrite Hencr.
  cbn [EncryptionMethod.new EncryptionMethod.metaLength
       EncryptionMethod.secret].
  change BinaryPack.META_LENGTH with 6%nat.
  rewrite region_header, Hdec. cbn [result_bind].
  rewrite <- Hlend. rewrite unpack_tail_envelope by (rewrite Hlend; lia).
  done.
Qed.

(** What a configured packer writes, with the entry of its method. *)
Lemma pack_bytes_entry (s : JSString) (e : Methods.entry)
    (this : BinaryPack.t) (v : JSValue) (r : Stringified) :
  e ∈ Methods.AvailableMethods →
  BinaryPack.new (Some s) (Some (Methods.name e)) = Ok this →
  JSON_stringify v = Ok r →
  ∃ c, method_encrypt (Methods.instance e) (Some s) (encode_stringified r)
       = Ok c
       ∧ length c = length (encode_stringified r)
       ∧ pack_bytes this v
         = Ok (header (Methods.code e) (length c) ++ c).
Proof.
  intros He Hnew Hr.
  destruct (pack_bytes_constructed _ _ _ v _ Hnew Hr)
    as [(_ & _ & Hfalse & _)
       |(_ & s' & e' & c & [= <-] & _ & He' & [= Hname] & _ & _
         & Henc & Hlen & Hpack & _)].
  { by rewrite (entry_name_truthy e He) in Hfalse. }
  apply (entry_name_inj e e' He He') in Hname as <-.
  exists c. split; [done|]. split; [done|]. by rewrite Hlen.
Qed.

(** X16. A packer configured with a method rejects every buffer packed
    under another configuration: whatever the value and the secrets,
    when the writer's method parameter differs from the reader's,
    [unpack] fails with the method mismatch, be the writer configured
    with another method or with none. *)
Theorem foreign_method_rejected (s1 m1 s2 m2 : option JSString)
    (p1 p2 : BinaryPack.t) (v : JSValue) (r : Stringified) (h : Heap) :
  BinaryPack.new s1 m1 = Ok p1 →
  BinaryPack.new s2 m2 = Ok p2 →
  truthy m2 = true → m1 ≠ m2 →
  JSON_stringify v = Ok r →
  ∃ (l : nat) (h1 : Heap),
    BinaryPack.pack p1 v h = (Ok l, h1)
    ∧ (BinaryPack.unpack p2 l h1).1 = Err (UnpackError MethodMismatch).
Proof.
  intros Hnew1 Hnew2 Hm2 Hdiff Hr.
  destruct (constructed_cases _ _ _ Hnew2)
    as (_ & Hmeth2 & Hencr2
        & [(_ & _ & Hfalse & _)|(Hconf2 & _)]);
    [by rewrite Hm2 in Hfalse|].
  assert (Hreject : ∀ c0 n c,
    EncryptionMethod.getEncryptionMethodName
      (BinaryPack.encryptor p2) (JS.ToUint8 c0) ≠ m2 →
    unpack_bytes p2 (header c0 n ++ c) = Err (UnpackError MethodMismatch)).
  { intros c0 n c Hname. unfold unpack_bytes.
    rewrite checked_copy_header, Hconf2, Hmeth2.
    by rewrite bool_decide_true by (intros Heq; by apply Hname). }
  destruct (pack_bytes_constructed _ _ _ v _ Hnew1 Hr)
    as [(_ & _ & _ & Hpack)
       |(_ & k & e & c & _ & _ & He & -> & Hcode & _ & _ & _ & Hpack & _)];
    destruct (pack_unpack_across p1 p2 v _ h Hpack) as (l & h1 & Hp & _ & Hu);
    exists l, h1; (split; [exact Hp|]); rewrite Hu; apply Hreject.
  - rewrite ToUint8_code by lia.
    rewrite Hencr2, unknown_code; [|done|lia].
    intros <-. discriminate Hm2.
  - rewrite ToUint8_code by lia. rewrite Hencr2.
    unfold EncryptionMethod.getEncryptionMethodName.
    destruct (registry_lookup s2 BinaryPack.META_LENGTH (Methods.name e))
      as (e' & He' & Hname & _ & _ & Hback).
    { by apply list_elem_of_fmap_2. }
    apply (entry_name_inj e' e He' He) in Hname as ->.
    rewrite Hback. intros Heq. by apply Hdiff.
Qed.

(** X17. The secret is not checked: a packer with the writer's method
    and any other nonempty secret passes the version and method checks,
    decrypts the payload with its own secret and hands the result to
    [JSON.parse], whose verdict is the outcome (the value, or an
    [UnpackError] around the syntax error). *)
Theorem wrong_secret_reaches_parser (s1 s2 : JSString) (e : Methods.entry)
    (p1 p2 : BinaryPack.t) (v : JSValue) (r : Stringified) (h : Heap) :
  e ∈ Methods.AvailableMethods →
  BinaryPack.new (Some s1) (Some (Methods.name e)) = Ok p1 →
  BinaryPack.new (Some s2) (Some (Methods.name e)) = Ok p2 →
  JSON_stringify v = Ok r →
  Z.of_nat (length (encode_stringified r)) < 2 ^ 32 →
  ∃ (c d : list Z) (l : nat) (h1 : Heap),
    method_encrypt (Methods.instance e) (Some s1) (encode_stringified r)
    = Ok c
    ∧ method_decrypt (Methods.instance e) (Some s2) c = Ok d
    ∧ BinaryPack.pack p1 v h = (Ok l, h1)
    ∧ (BinaryPack.unpack p2 l h1).1
      = match JSON_parse (TextDecoder_decode d) with
        | Some v' => Ok v'
        | None => Err (UnpackError SyntaxError)
        end.
Proof.
  intros He Hnew1 Hnew2 Hr Hfits.
  destruct (pack_bytes_entry s1 e p1 v r He Hnew1 Hr)
    as (c & Henc & Hlen & Hpack).
  destruct (unpack_bytes_own_code s2 e p2 c He Hnew2) as (d & Hdec & Hun);
    [by rewrite Hlen|].
  destruct (pack_unpack_across p1 p2 v _ h Hpack) as (l & h1 & Hp & _ & Hu).
  exists c, d, l, h1. split; [done|]. split; [done|]. split; [done|].
  rewrite Hu, Hun. apply parsed_wrap.
Qed.

(** X18. A packer without a secret does not look at the method code: a
    buffer written by a configured packer passes its checks, and what
    it hands to [JSON.parse] is the text of the encrypted payload. *)
Theorem plain_packer_reads_ciphertext (s1 : JSString) (e : Methods.entry)
    (s2 m2 : option JSString) (p1 p2 : BinaryPack.t) (v : JSValue)
    (r : Stringified) (h : Heap) :
  e ∈ Methods.AvailableMethods →
  BinaryPack.new (Some s1) (Some (Methods.name e)) = Ok p1 →
  BinaryPack.new s2 m2 = Ok p2 →
  truthy m2 = false →
  JSON_stringify v = Ok r →
  Z.of_nat (length (encode_stringified r)) < 2 ^ 32 →
  ∃ (c : list Z) (l : nat) (h1 : Heap),
    method_encrypt (Methods.instance e) (Some s1) (encode_stringified r)
    = Ok c
    ∧ BinaryPack.pack p1 v h = (Ok l, h1)
    ∧ (BinaryPack.unpack p2 l h1).1
      = match JSON_parse (TextDecoder_decode c) with
        | Some v' => Ok v'
        | None => Err (UnpackError SyntaxError)
        end.
Proof.
  intros He Hnew1 Hnew2 Hm2 Hr Hfits.
  destruct (pack_bytes_entry s1 e p1 v r He Hnew1 Hr)
    as (c & Henc & Hlen & Hpack).
  destruct (constructed_cases _ _ _ Hnew2)
    as (_ & _ & _ & [(Hconf2 & _)|(_ & k & e' & _ & _ & He' & -> & _)]);
    [|by rewrite (entry_name_truthy e' He') in Hm2].
  destruct (pack_unpack_across p1 p2 v _ h Hpack) as (l & h1 & Hp & _ & Hu).
  exists c, l, h1. split; [done|]. split; [done|].
  rewrite Hu. unfold unpack_bytes.
  rewrite checked_copy_header, Hconf2. cbn [result_bind].
  rewrite unpack_tail_envelope by (by rewrite Hlen).
  apply parsed_wrap.
Qed.

(** X19. Caesar packers are interchangeable along the shift: two packers
    with the method 'caesar' whose secrets have hashes equal modulo 26
    unpack each other's buffers to the packed value. *)
Theorem caesar_packers_interchangeable (s1 s2 : JSString) (k1 k2 : Z)
    (p1 p2 : BinaryPack.t) (v : JSValue) (h : Heap) :
  BinaryPack.new (Some s1) (Some (js "caesar")) = Ok p1 →
  BinaryPack.new (Some s2) (Some (js "caesar")) = Ok p2 →
  Hash.secret (Str s1) = Ok k1 → Hash.secret (Str s2) = Ok k2 →
  k1 mod 26 = k2 mod 26 →
  JSON_representable v →
  (∀ n, serialized_length v n → Z.of_nat n < 2 ^ 32) →
  ∃ (l : nat) (h1 : Heap),
    BinaryPack.pack p1 v h = (Ok l, h1)
    ∧ (BinaryPack.unpack p2 l h1).1 = Ok v.
Proof.
  intros Hnew1 Hnew2 Hk1 Hk2 Hmod (s & Hs & Hvalid & Hdecode & Hparse) Hfits.
  assert (Hn : Z.of_nat (length (TextEncoder.encode (Some s))) < 2 ^ 32).
  { apply Hfits. by exists (Text s). }
  set (e := {| Methods.code := 3; Methods.name := Caesar.name;
               Methods.instance := Methods.Caesar_class |}).
  assert (He : e ∈ Methods.AvailableMethods).
  { unfold Methods.AvailableMethods. rewrite !elem_of_cons. tauto. }
  destruct (pack_bytes_entry s1 e p1 v (Text s) He Hnew1 Hs)
    as (c & Henc & Hlen & Hpack).
  destruct (unpack_bytes_own_code s2 e p2 c He Hnew2) as (d & Hdec & Hun).
  { rewrite Hlen. exact Hn. }
  destruct (pack_unpack_across p1 p2 v _ h Hpack) as (l & h1 & Hp & _ & Hu).
  exists l, h1. split; [done|]. rewrite Hu, Hun.
  assert (Hrem : ∀ x k, Hash.secret (Str x) = Ok k → JS.rem k 26 = k mod 26).
  { intros x k Hx. destruct (Hash_secret_total x) as (k' & Hx' & Hpos).
    rewrite Hx in Hx'. injection Hx' as ->.
    unfold JS.rem. apply Z.rem_mod_nonneg; lia. }
  cbn [e Methods.instance Methods.Caesar_class method_encrypt method_decrypt
       encode_stringified] in Henc, Hdec.
  rewrite (Caesar_encrypt_pointwise s1 k1) in Henc by done.
  injection Henc as <-.
  rewrite (Caesar_decrypt_pointwise s2 k2) in Hdec by done.
  injection Hdec as <-.
  rewrite (Hrem s1 k1), (Hrem s2 k2), Hmod by done.
  rewrite pointwise_inverse;
    [|intros i x; apply Caesar_byte_inverse|by apply utf8_bytes].
  by rewrite Hdecode, Hparse.
Qed.

(** X20. A value for which [JSON.stringify] returns no text (as it does
    for [undefined]) is packed without an error, to the six bytes of the
    envelope with the length 0; the packer that wrote them hands the
    decoding of no bytes to [JSON.parse]. *)
Theorem pack_without_text (secret method : option JSString)
    (this : BinaryPack.t) (v : JSValue) (h : Heap) :
  BinaryPack.new secret method = Ok this →
  JSON_stringify v = Ok NoText →
  ∃ (l : nat) (h1 : Heap) (code : Z),
    BinaryPack.pack this v h = (Ok l, h1)
    ∧ h1 !! l = Some [1; code; 0; 0; 0; 0]
    ∧ code
      = EncryptionMethod.getEncryptionMethodCode
          (BinaryPack.encryptor this) method
    ∧ (BinaryPack.unpack this l h1).1
      = match JSON_parse (TextDecoder_decode []) with
        | Some v' => Ok v'
        | None => Err (UnpackError SyntaxError)
        end.
Proof.
  intros Hnew Hr.
  destruct (constructed_cases _ _ _ Hnew) as (_ & Hmeth & _ & _).
  destruct (pack_bytes_constructed _ _ _ v _ Hnew Hr)
    as [(Hconf & _ & _ & Hpack)
       |(_ & k & e & c & -> & _ & He & -> & Hcode & _
         & Henc & Hlen & Hpack & Hcodeq)];
    cbn [encode_stringified TextEncoder.encode TextEncoder.utf8 length]
      in Hpack.
  - destruct (pack_unpack_across this this v _ h Hpack)
      as (l & h1 & Hp & Hl & Hu).
    destruct (constructed_cases _ _ _ Hnew)
      as (_ & _ & _ & [(_ & _ & _ & Hzero)|(Hconf' & _)]);
      [|by rewrite Hconf in Hconf'].
    exists l, h1, 0. split; [done|]. split; [by rewrite Hl|].
    split; [by rewrite Hzero|].
    rewrite Hu. unfold unpack_bytes.
    rewrite (checked_copy_header this 0 0 []), Hconf. cbn [result_bind].
    rewrite (unpack_tail_envelope 0 []) by done. apply parsed_wrap.
  - cbn [encode_stringified TextEncoder.encode TextEncoder.utf8 length]
      in Hlen, Henc.
    destruct c; [|discriminate Hlen].
    destruct (pack_unpack_across this this v _ h Hpack)
      as (l & h1 & Hp & Hl & Hu).
    destruct (unpack_bytes_own_code k e this [] He Hnew) as (d & Hdec & Hun);
      [done|].
    destruct (registered_decrypt_take e k [] 0 He) as (d' & Hdec' & Hlend & _).
    rewrite Hdec in Hdec'. injection Hdec' as <-.
    destruct d; [|discriminate Hlend].
    exists l, h1, (Methods.code e). split; [done|].
    split.
    { rewrite Hl. unfold header, BinaryPack.VERSION.
      by rewrite (ToUint8_code 1), (ToUint8_code (Methods.code e)) by lia. }
    split; [by rewrite <- Hcodeq, Hmeth|].
    rewrite Hu. cbn [length] in Hun. rewrite Hun. apply parsed_wrap.
Qed.

End AcrossPackers.

Lemma foreign_method_rejected_witness :
  ∃ (l : nat) (h1 : Heap),
    BinaryPack.pack (RT := literal_runtime) plain_packer LTrue (∅ : Heap) = (Ok l, h1)
    ∧ (BinaryPack.unpack (RT := literal_runtime) xor_packer l h1).1
      = Err (UnpackError MethodMismatch).
Proof.
  apply (foreign_method_rejected (RT := literal_runtime) None None
           (Some (js "k")) (Some (js "xor")) plain_packer xor_packer LTrue
           (Text (js "true")) (∅ : Heap));
    [reflexivity | reflexivity | reflexivity | discriminate | reflexivity].
Defined.

Lemma wrong_secret_reaches_parser_witness :
  ∃ (c d : list Z) (l : nat) (h1 : Heap),
    XOR.encrypt (Some (js "k")) [116; 114; 117; 101] = Ok c
    ∧ XOR.decrypt (Some (js "j")) c = Ok d
    ∧ BinaryPack.pack (RT := literal_runtime) xor_packer LTrue (∅ : Heap) = (Ok l, h1)
    ∧ (BinaryPack.unpack (RT := literal_runtime)
         (packer (Some (js "j")) (Some (js "xor"))) l h1).1
      = match literal_parse (ascii_decode d) with
        | Some v' => Ok v'
        | None => Err (UnpackError SyntaxError)
        end.
Proof.
  apply (wrong_secret_reaches_parser (RT := literal_runtime)
           (js "k") (js "j")
           {| Methods.code := 1; Methods.name := XOR.name;
              Methods.instance := Methods.XOR_class |}
           xor_packer (packer (Some (js "j")) (Some (js "xor"))) LTrue
           (Text (js "true")) (∅ : Heap)).
  - unfold Methods.AvailableMethods. rewrite !elem_of_cons. tauto.
  - reflexivity.
  - reflexivity.
  - reflexivity.
  - vm_compute. reflexivity.
Defined.

Lemma plain_packer_reads_ciphertext_witness :
  ∃ (c : list Z) (l : nat) (h1 : Heap),
    XOR.encrypt (Some (js "k")) [116; 114; 117; 101] = Ok c
    ∧ BinaryPack.pack (RT := literal_runtime) xor_packer LTrue (∅ : Heap) = (Ok l, h1)
    ∧ (BinaryPack.unpack (RT := literal_runtime) plain_packer l h1).1
      = match literal_parse (ascii_decode c) with
        | Some v' => Ok v'
        | None => Err (UnpackError SyntaxError)
        end.
Proof.
  apply (plain_packer_reads_ciphertext (RT := literal_runtime) (js "k")
           {| Methods.code := 1; Methods.name := XOR.name;
              Methods.instance := Methods.XOR_class |}
           None None xor_packer plain_packer LTrue (Text (js "true")) (∅ : Heap)).
  - unfold Methods.AvailableMethods. rewrite !elem_of_cons. tauto.
  - reflexivity.
  - reflexivity.
  - reflexivity.
  - reflexivity.
  - vm_compute. reflexivity.
Defined.

Lemma caesar_packers_interchangeable_witness :
  ∃ (l : nat) (h1 : Heap),
    BinaryPack.pack (RT := literal_runtime) (caesar_packer (js "a")) LTrue (∅ : Heap)
    = (Ok l, h1)
    ∧ (BinaryPack.unpack (RT := literal_runtime)
         (caesar_packer (js "{")) l h1).1 = Ok LTrue.
Proof.
  apply (caesar_packers_interchangeable (RT := literal_runtime)
           (js "a") (js "{") 97 123
           (caesar_packer (js "a")) (caesar_packer (js "{")) LTrue (∅ : Heap));
    [reflexivity | reflexivity | reflexivity | reflexivity | reflexivity
    | apply literal_true_representable | apply literal_true_fits].
Defined.

Lemma pack_without_text_witness :
  ∃ (l : nat) (h1 : Heap) (code : Z),
    BinaryPack.pack (RT := loose_runtime) aes_packer LUndefined (∅ : Heap) = (Ok l, h1)
    ∧ h1 !! l = Some [1; code; 0; 0; 0; 0]
    ∧ code
      = EncryptionMethod.getEncryptionMethodCode
          (BinaryPack.encryptor aes_packer) (Some (js "aes-like"))
    ∧ (BinaryPack.unpack (RT := loose_runtime) aes_packer l h1).1
      = match LDefined <$> literal_parse (ascii_decode []) with
        | Some v' => Ok v'
        | None => Err (UnpackError SyntaxError)
        end.
Proof.
  apply (pack_without_text (RT := loose_runtime)
           (Some (js "k")) (Some (js "aes-like")) aes_packer LUndefined (∅ : Heap));
    reflexivity.
Defined.

(** ** Base64: src/Utils/Base64.js *)
Section Base64Properties.

Ltac nat_div_mod :=
  zify; rewrite ?Nat2Z.inj_mod, ?Nat2Z.inj_div in *; zify;
  Z.div_mod_to_equations; lia.

Lemma list_ind3 {A : Type} (P : list A → Prop) :
  P [] → (∀ a, P [a]) → (∀ a b, P [a; b]) →
  (∀ a b c rest, P rest → P (a :: b :: c :: rest)) →
  ∀ l, P l.
Proof.
  intros H0 H1 H2 H3 l.
  cut (P l ∧ (∀ a, P (a :: l)) ∧ (∀ a b, P (a :: b :: l))); [tauto|].
  induction l as [|x l (IH0 & IH1 & IH2)]; [by auto|].
  split; [exact (IH1 x)|]. split; [exact (λ a, IH2 a x)|].
  intros a b. apply H3, IH0.
Qed.

(** *** The alphabet *)
Lemma sextet_char (q : Z) :
  0 ≤ q < 64 →
  WindowBase64.sextet_of_char (WindowBase64.char_of_sextet q) = Some q.
Proof.
  intros Hq. unfold WindowBase64.char_of_sextet.
  destruct (Z.ltb_spec q 26); [|destruct (Z.ltb_spec q 52);
    [|destruct (Z.ltb_spec q 62); [|destruct (Z.eqb_spec q 62)]]];
    unfold WindowBase64.sextet_of_char;
    repeat
      (match goal with
       | |- context [?a <=? ?b] => destruct (Z.leb_spec a b)
       | |- context [?a =? ?b] => destruct (Z.eqb_spec a b)
       end; cbn [andb]);
    try (f_equal; lia); exfalso; lia.
Qed.

Lemma char_alphabet (q : Z) :
  0 ≤ q < 64 → Base64.is_alphabet (WindowBase64.char_of_sextet q) = true.
Proof.
  intros Hq. unfold Base64.is_alphabet. rewrite sextet_char by done.
  by apply bool_decide_eq_true.
Qed.

Lemma alphabet_sextet (c : Z) :
  Base64.is_alphabet c = true →
  ∃ q, WindowBase64.sextet_of_char c = Some q.
Proof.
  unfold Base64.is_alphabet. intros H%bool_decide_eq_true.
  destruct H as [q Hq]. by exists q.
Qed.

Lemma pad_no_sextet : WindowBase64.sextet_of_char 61 = None.
Proof. reflexivity. Qed.

Lemma alphabet_not_pad (c : Z) : Base64.is_alphabet c = true → c ≠ 61.
Proof.
  intros [q Hq]%alphabet_sextet ->. rewrite pad_no_sextet in Hq.
  discriminate Hq.
Qed.

Lemma alphabet_not_space (c : Z) :
  Base64.is_alphabet c = true → WindowBase64.is_ascii_whitespace c = false.
Proof.
  intros [q Hq]%alphabet_sextet. apply bool_decide_eq_false.
  rewrite !elem_of_cons, elem_of_nil.
  intros [-> | [-> | [-> | [-> | [-> | []]]]]]; discriminate Hq.
Qed.

Lemma alphabet_free (body : list Z) :
  Forall (λ c, Base64.is_alphabet c = true) body → 61 ∉ body.
Proof.
  intros Hbody Hin. rewrite Forall_forall in Hbody.
  by apply (alphabet_not_pad 61 (Hbody 61 Hin)).
Qed.

(** *** The regular expression *)
Lemma regex_shaped (s : JSString) :
  Base64.base64Regex_test s = true →
  ∃ body pad : list Z,
    s = body ++ pad
    ∧ Forall (λ c, Base64.is_alphabet c = true) body
    ∧ is_padding pad.
Proof.
  induction s as [|c rest IH]; intros Htest.
  - exists [], []. split; [done|]. split; [done|]. by left.
  - cbn [Base64.base64Regex_test] in Htest.
    destruct (Base64.is_alphabet c) eqn:Hc.
    + destruct (IH Htest) as (body & pad & -> & Hbody & Hpad).
      exists (c :: body), pad. split; [done|]. split; [|done].
      by apply Forall_cons_2.
    + apply bool_decide_eq_true in Htest.
      exists [], (c :: rest). split; [done|]. split; [done|].
      unfold is_padding. tauto.
Qed.

Lemma shaped_regex (body pad : list Z) :
  Forall (λ c, Base64.is_alphabet c = true) body → is_padding pad →
  Base64.base64Regex_test (body ++ pad) = true.
Proof.
  intros Hbody Hpad. induction Hbody as [|c body Hc _ IH].
  - by destruct Hpad as [-> | [-> | ->]].
  - cbn [app Base64.base64Regex_test]. by rewrite Hc.
Qed.

(** *** [atob] on the accepted texts *)
Lemma filter_no_space (s : list Z) :
  Forall (λ c, WindowBase64.is_ascii_whitespace c = false) s →
  List.filter (λ c, negb (WindowBase64.is_ascii_whitespace c)) s = s.
Proof.
  induction 1 as [|c s Hc _ IH]; [done|].
  cbn [List.filter]. by rewrite Hc, IH.
Qed.

Lemma shaped_no_space (body pad : list Z) :
  Forall (λ c, Base64.is_alphabet c = true) body → is_padding pad →
  Forall (λ c, WindowBase64.is_ascii_whitespace c = false) (body ++ pad).
Proof.
  intros Hbody Hpad. apply Forall_app. split.
  - eapply Forall_impl; [exact Hbody|]. apply alphabet_not_space.
  - destruct Hpad as [-> | [-> | ->]];
      repeat apply Forall_cons_2; by try apply Forall_nil_2.
Qed.

Lemma drop_head_elem {A : Type} (k : nat) (l : list A) (x : A) (t : list A) :
  drop k l = x :: t → x ∈ l.
Proof.
  intros H. rewrite <- (take_drop k l), H, elem_of_app, elem_of_cons. tauto.
Qed.

Lemma strip_padding_shaped (body pad : list Z) :
  Forall (λ c, Base64.is_alphabet c = true) body → is_padding pad →
  WindowBase64.strip_padding (body ++ pad) = body.
Proof.
  intros Hbody%alphabet_free Hpad. unfold WindowBase64.strip_padding.
  destruct Hpad as [-> | [-> | ->]]; rewrite ?app_nil_r, ?length_app;
    cbn [length].
  - rewrite bool_decide_false
      by (intros H; by apply Hbody, (drop_head_elem _ _ _ _ H)).
    by rewrite bool_decide_false
      by (intros H; by apply Hbody, (drop_head_elem _ _ _ _ H)).
  - rewrite bool_decide_false.
    + replace (length body + 1 - 1)%nat with (length body) by lia.
      rewrite drop_app_length, bool_decide_true by done.
      by rewrite take_app_length.
    + destruct (decide (length body = 0%nat)) as [Hz|Hnz].
      * apply length_zero_iff_nil in Hz as ->. by cbn.
      * rewrite drop_app_le by lia. intros H.
        destruct (drop (length body + 1 - 2) body) as [|x [|y t]] eqn:Hd;
          cbn in H.
        -- discriminate H.
        -- injection H as ->.
           by apply Hbody, (drop_head_elem _ _ _ _ Hd).
        -- injection H as _ _ H. by destruct t.
  - replace (length body + 2 - 2)%nat with (length body) by lia.
    rewrite drop_app_length, bool_decide_true by done.
    by rewrite take_app_length.
Qed.

Lemma sextets_alphabet (body : list Z) :
  Forall (λ c, Base64.is_alphabet c = true) body →
  ∃ qs, WindowBase64.sextets body = Some qs.
Proof.
  induction 1 as [|c body [q Hq]%alphabet_sextet _ [qs IH]]; [by exists []|].
  exists (q :: qs). cbn [WindowBase64.sextets]. by rewrite Hq, IH.
Qed.

Lemma sextets_pad (l : list Z) : 61 ∈ l → WindowBase64.sextets l = None.
Proof.
  induction l as [|c l IH]; [by intros ?%elem_of_nil|].
  rewrite elem_of_cons. cbn [WindowBase64.sextets]. intros [<- | Hin].
  - by rewrite pad_no_sextet.
  - rewrite (IH Hin). by destruct (WindowBase64.sextet_of_char c).
Qed.

(** [atob] on a text the regular expression accepts: the padding is
    taken off a text of a length that is a multiple of four, then a
    length of 1 modulo 4 and every [=] left are refused. *)
Lemma atob_shaped (body pad : list Z) :
  Forall (λ c, Base64.is_alphabet c = true) body → is_padding pad →
  WindowBase64.atob (body ++ pad)
  = if bool_decide (length (body ++ pad) mod 4 = 0
                    ∨ (pad = [] ∧ length body mod 4 ≠ 1))%nat
    then WindowBase64.decode_sextets <$> WindowBase64.sextets body
    else None.
Proof.
  intros Hbody Hpad. unfold WindowBase64.atob. cbv zeta.
  rewrite filter_no_space by by apply shaped_no_space.
  destruct (sextets_alphabet body Hbody) as [qs Hqs].
  destruct (decide (length (body ++ pad) mod 4 = 0)%nat) as [Hfour|Hfour].
  - rewrite (bool_decide_eq_true_2 _ Hfour).
    rewrite strip_padding_shaped by done.
    assert (Hone : (length body mod 4 ≠ 1)%nat).
    { revert Hfour. destruct Hpad as [-> | [-> | ->]];
        rewrite ?app_nil_r, ?length_app; cbn [length]; intros Hfour;
        nat_div_mod. }
    rewrite (bool_decide_eq_false_2 _ Hone).
    rewrite bool_decide_true by (by left).
    by rewrite Hqs.
  - rewrite (bool_decide_eq_false_2 _ Hfour).
    destruct Hpad as [-> | [-> | ->]].
    + rewrite app_nil_r in *.
      destruct (decide (length body mod 4 = 1)%nat) as [Hone|Hone].
      * rewrite (bool_decide_eq_true_2 _ Hone).
        rewrite bool_decide_false; [done|]. intros [H | [_ H]]; done.
      * rewrite (bool_decide_eq_false_2 _ Hone).
        rewrite bool_decide_true by (by right). by rewrite Hqs.
    + rewrite (bool_decide_false (_ ∨ _)) by (intros [H | [H _]]; done).
      case_bool_decide; [done|].
      rewrite sextets_pad; [done|]. rewrite elem_of_app, elem_of_cons. tauto.
    + rewrite (bool_decide_false (_ ∨ _)) by (intros [H | [H _]]; done).
      case_bool_decide; [done|].
      rewrite sextets_pad; [done|]. rewrite elem_of_app, elem_of_cons. tauto.
Qed.

(** *** [btoa] and its inverse *)
Lemma encode_bytes_parts (s : list Z) :
  WindowBase64.encode_bytes s
  = (WindowBase64.char_of_sextet <$> encode_sextets s) ++ encode_padding s.
Proof.
  induction s as [|a|a b|a b c rest IH] using list_ind3; try reflexivity.
  cbn [WindowBase64.encode_bytes encode_sextets encode_padding].
  rewrite IH, fmap_app. by rewrite <- app_assoc.
Qed.

Lemma encode_padding_cases (s : list Z) : is_padding (encode_padding s).
Proof.
  unfold is_padding.
  induction s as [|a|a b|a b c rest IH] using list_ind3; cbn; tauto.
Qed.

Lemma encode_sextets_range (s : list Z) :
  Forall is_byte s → Forall (λ q, 0 ≤ q < 64) (encode_sextets s).
Proof.
  unfold is_byte.
  induction s as [|a|a b|a b c rest IH] using list_ind3;
    rewrite ?Forall_cons; cbn [encode_sextets app].
  - done.
  - intros (Ha & _). repeat apply Forall_cons_2; try apply Forall_nil_2;
      Z.div_mod_to_equations; lia.
  - intros (Ha & Hb & _).
    repeat apply Forall_cons_2; try apply Forall_nil_2;
      Z.div_mod_to_equations; lia.
  - intros (Ha & Hb & Hc & Hrest).
    repeat apply Forall_cons_2; try (by apply IH);
      Z.div_mod_to_equations; lia.
Qed.

Lemma decode_encode_sextets (s : list Z) :
  Forall is_byte s →
  WindowBase64.decode_sextets (encode_sextets s) = s.
Proof.
  unfold is_byte.
  induction s as [|a|a b|a b c rest IH] using list_ind3;
    rewrite ?Forall_cons;
    cbn [encode_sextets WindowBase64.decode_sextets app].
  - done.
  - intros (Ha & _). f_equal. Z.div_mod_to_equations; lia.
  - intros (Ha & Hb & _).
    repeat (apply (f_equal2 cons); [Z.div_mod_to_equations; lia|]). done.
  - intros (Ha & Hb & Hc & Hrest). rewrite (IH Hrest).
    repeat (apply (f_equal2 cons); [Z.div_mod_to_equations; lia|]). done.
Qed.

Lemma sextets_chars (qs : list Z) :
  Forall (λ q, 0 ≤ q < 64) qs →
  WindowBase64.sextets (WindowBase64.char_of_sextet <$> qs) = Some qs.
Proof.
  induction 1 as [|q qs Hq _ IH]; [done|].
  rewrite fmap_cons. cbn [WindowBase64.sextets].
  by rewrite sextet_char, IH.
Qed.

Lemma encode_sextets_length (s : list Z) :
  (length (encode_sextets s) + length (encode_padding s)
   = 4 * ((length s + 2) / 3))%nat
  ∧ (length (encode_sextets s ++ encode_padding s) mod 4 = 0)%nat.
Proof.
  induction s as [|a|a b|a b c rest [IH1 IH2]] using list_ind3;
    try (split; reflexivity).
  cbn [encode_sextets encode_padding]. rewrite !length_app in *.
  cbn [length]. split; nat_div_mod.
Qed.

(** [atob] inverts [btoa] on strings of bytes, with or without the
    padding. *)
Lemma atob_btoa (s : list Z) :
  Forall is_byte s →
  WindowBase64.btoa s = Some (WindowBase64.encode_bytes s)
  ∧ Base64.base64Regex_test (WindowBase64.encode_bytes s) = true
  ∧ WindowBase64.atob (WindowBase64.encode_bytes s) = Some s
  ∧ length (WindowBase64.encode_bytes s) = (4 * ((length s + 2) / 3))%nat.
Proof.
  intros Hs.
  pose proof (encode_sextets_range s Hs) as Hrange.
  assert (Hbody : Forall (λ c, Base64.is_alphabet c = true)
                    (WindowBase64.char_of_sextet <$> encode_sextets s)).
  { apply Forall_fmap. eapply Forall_impl; [exact Hrange|].
    intros q Hq. by apply char_alphabet. }
  pose proof (encode_padding_cases s) as Hpad.
  destruct (encode_sextets_length s) as [Hlen Hfour].
  split; [|split; [|split]].
  - unfold WindowBase64.btoa.
    assert (Hall : forallb (λ c, (0 <=? c) && (c <? 256)) s = true).
    { apply forallb_forall. intros c Hc%list_elem_of_In.
      rewrite Forall_forall in Hs. destruct (Hs c Hc).
      apply andb_true_intro. split; [by apply Z.leb_le | by apply Z.ltb_lt]. }
    by rewrite Hall.
  - rewrite encode_bytes_parts. by apply shaped_regex.
  - rewrite encode_bytes_parts, atob_shaped by done.
    rewrite bool_decide_true.
    + rewrite sextets_chars by done. cbn [fmap option_fmap option_map].
      by rewrite decode_encode_sextets.
    + left. rewrite length_app, length_fmap, <- length_app. exact Hfour.
  - by rewrite encode_bytes_parts, length_app, length_fmap.
Qed.

(** *** The loops of the two functions *)
Lemma append_loop {A : Type} (f : nat → A) (n : nat) :
  JS.for_up n (λ i acc, acc ++ [f i]) [] = f <$> seq 0 n.
Proof.
  unfold JS.for_up. induction n as [|n IH]; [done|].
  by rewrite seq_S, foldl_app, IH, fmap_app.
Qed.

Lemma binary_loop (bytes : list Z) :
  Forall is_byte bytes →
  JS.for_up (length bytes)
    (λ i binary, binary ++ [Base64.fromCharCode (Uint8Array.get bytes i)]) []
  = bytes.
Proof.
  intros Hbytes.
  rewrite (append_loop
             (λ i, Base64.fromCharCode (Uint8Array.get bytes i))).
  apply list_eq. intros i. rewrite list_lookup_fmap.
  destruct (decide (i < length bytes)%nat) as [Hi|Hi].
  - rewrite lookup_seq_lt by done. cbn.
    destruct (lookup_lt_is_Some_2 bytes i Hi) as [x Hx].
    unfold Uint8Array.get. rewrite (list_lookup_total_correct _ _ _ Hx), Hx.
    f_equal. unfold Base64.fromCharCode.
    rewrite Forall_lookup in Hbytes. pose proof (Hbytes i x Hx) as Hb.
    unfold is_byte in Hb. apply Z.mod_small. lia.
  - rewrite lookup_seq_ge by lia. symmetry. apply lookup_ge_None. lia.
Qed.

Lemma fill_loop (binary : list Z) :
  JS.for_up (length binary)
    (λ i bytes, Uint8Array.set bytes i (binary !!! i))
    (replicate (length binary) 0)
  = JS.ToUint8 <$> binary.
Proof.
  rewrite (for_up_pointwise (λ i _, binary !!! i) (length binary)
             (replicate (length binary) 0))
    by (by rewrite length_replicate).
  apply list_eq. intros i. rewrite pointwise_lookup, list_lookup_fmap.
  destruct (binary !! i) as [x|] eqn:Hx.
  - rewrite lookup_replicate_2 by (by eapply lookup_lt_Some). cbn.
    by rewrite (list_lookup_total_correct _ _ _ Hx).
  - assert (Hr : replicate (length binary) 0 !! i = None).
    { apply lookup_ge_None. rewrite length_replicate.
      by apply lookup_ge_None. }
    by rewrite Hr.
Qed.

Lemma bytes_fixed (b : list Z) : Forall is_byte b → JS.ToUint8 <$> b = b.
Proof.
  intros Hb. apply list_eq. intros i. rewrite list_lookup_fmap.
  destruct (b !! i) as [x|] eqn:Hx; [|done]. cbn. f_equal.
  rewrite Forall_lookup in Hb. apply ToUint8_id, (Hb i x Hx).
Qed.

(** The two functions on a buffer of bytes. *)
Lemma base64_there_and_back (l : nat) (bytes : list Z) (h : Heap) :
  h !! l = Some bytes → Forall is_byte bytes →
  Base64.bufferToBase64 (ArrayBufferRef l) h
  = Returned (WindowBase64.encode_bytes bytes)
  ∧ Base64.base64ToBuffer (Str (WindowBase64.encode_bytes bytes)) h
    = (Returned (fresh (dom h)), <[fresh (dom h) := bytes]> h).
Proof.
  intros Hl Hbytes.
  destruct (atob_btoa bytes Hbytes) as (Hbtoa & Hregex & Hatob & _).
  split.
  - unfold Base64.bufferToBase64. rewrite Hl.
    rewrite binary_loop by done. by rewrite Hbtoa.
  - unfold Base64.base64ToBuffer. rewrite Hregex, Hatob.
    by rewrite fill_loop, bytes_fixed.
Qed.

(** X21. Base64 round trip: for a buffer of the store,
    [bufferToBase64] returns a text of [4 * ceil(n / 3)] characters, and
    [base64ToBuffer] of that text returns a new buffer with the same
    bytes, leaving the given one in place. *)
Theorem base64_round_trip (l : nat) (bytes : list Z) (h : Heap) :
  h !! l = Some bytes → Forall is_byte bytes →
  ∃ (text : JSString) (l' : nat) (h' : Heap),
    Base64.bufferToBase64 (ArrayBufferRef l) h = Returned text
    ∧ length text = (4 * ((length bytes + 2) / 3))%nat
    ∧ Base64.base64ToBuffer (Str text) h = (Returned l', h')
    ∧ l' ≠ l
    ∧ h' !! l' = Some bytes
    ∧ h' !! l = Some bytes.
Proof.
  intros Hl Hbytes.
  destruct (base64_there_and_back l bytes h Hl Hbytes) as [Hto Hfrom].
  destruct (atob_btoa bytes Hbytes) as (_ & _ & _ & Hlen).
  assert (Hnew : fresh (dom h) ≠ l) by (apply fresh_not_in; by rewrite Hl).
  eexists _, _, _. split; [exact Hto|]. split; [exact Hlen|].
  split; [exact Hfrom|]. split; [exact Hnew|].
  split; [apply lookup_insert_eq|]. by rewrite lookup_insert_ne.
Qed.

(** X22. What [base64ToBuffer] makes of a text its regular expression
    accepts: a text whose length is a multiple of four, or one without
    [=] whose length is not 1 modulo 4, gives a new buffer of bytes
    (padding is optional); any other accepted text, such as 'QQ=' or
    'Q', fails in [atob] and is reported as a decoding failure, the
    store being left as it was. *)
Theorem base64ToBuffer_outcome (s : JSString) (h : Heap) :
  Base64.base64Regex_test s = true →
  (((length s mod 4 = 0)%nat ∨ ((61 ∉ s) ∧ (length s mod 4 ≠ 1)%nat)) →
   ∃ bytes,
     Base64.base64ToBuffer (Str s) h
     = (Returned (fresh (dom h)), <[fresh (dom h) := bytes]> h)
     ∧ Forall is_byte bytes)
  ∧ (¬ ((length s mod 4 = 0)%nat ∨ ((61 ∉ s) ∧ (length s mod 4 ≠ 1)%nat)) →
     Base64.base64ToBuffer (Str s) h = (Thrown DecodeFailure, h)).
Proof.
  intros Htest.
  destruct (regex_shaped s Htest) as (body & pad & -> & Hbody & Hpad).
  assert (Hfree : (61 ∉ body ++ pad) ↔ pad = []).
  { pose proof (alphabet_free body Hbody) as Hb.
    rewrite elem_of_app. destruct Hpad as [-> | [-> | ->]];
      rewrite ?elem_of_cons, ?elem_of_nil; split; try done; tauto. }
  assert (Hcond :
    ((length (body ++ pad) mod 4 = 0)%nat
     ∨ ((61 ∉ body ++ pad) ∧ (length (body ++ pad) mod 4 ≠ 1)%nat))
    ↔ ((length (body ++ pad) mod 4 = 0)%nat
       ∨ (pad = [] ∧ (length body mod 4 ≠ 1)%nat))).
  { rewrite Hfree. split; (intros [H | [-> H]]; [by left|right]);
      by rewrite app_nil_r in *. }
  unfold Base64.base64ToBuffer. rewrite Htest, atob_shaped by done.
  destruct (sextets_alphabet body Hbody) as [qs ->]. cbn [fmap option_fmap
    option_map].
  split; intros H; rewrite Hcond in H.
  - rewrite bool_decide_true by done. eexists. split; [done|].
    rewrite fill_loop. apply Forall_fmap, Forall_true. intros x.
    apply ToUint8_range.
  - by rewrite bool_decide_false.
Qed.

End Base64Properties.

Section Base64Transport.
Context `{RT : Runtime}.

Lemma registered_encrypt_bytes (e : Methods.entry) (s : JSString)
    (d c : list Z) :
  e ∈ Methods.AvailableMethods →
  method_encrypt (Methods.instance e) (Some s) d = Ok c →
  Forall is_byte c.
Proof.
  intros [-> | [-> | ->]]%entry_cases; simpl.
  - rewrite XOR_encrypt_pointwise. intros [= <-]. apply pointwise_bytes.
  - rewrite AES_encrypt_pointwise. intros [= <-]. apply pointwise_bytes.
  - destruct (Hash_secret_total s) as (hs & Hh & _).
    rewrite (Caesar_encrypt_pointwise s hs) by done. intros [= <-].
    apply pointwise_bytes.
Qed.

Lemma header_bytes (c : Z) (n : nat) : Forall is_byte (header c n).
Proof.
  unfold header. apply Forall_app. split; [|apply be32_bytes].
  repeat apply Forall_cons_2; try apply Forall_nil_2; apply ToUint8_range.
Qed.

(** [pack] writes bytes. *)
Lemma pack_bytes_are_bytes (secret method : option JSString)
    (this : BinaryPack.t) (v : JSValue) (s : JSString) (b : list Z) :
  BinaryPack.new secret method = Ok this →
  JSON_stringify v = Ok (Text s) → valid_string s →
  pack_bytes this v = Ok b →
  Forall is_byte b.
Proof.
  intros Hnew Hs Hvalid Hb.
  destruct (pack_bytes_constructed _ _ _ v _ Hnew Hs)
    as [(_ & _ & _ & Hpack)
       |(_ & k & e & c & _ & _ & He & _ & _ & _ & Henc & _ & Hpack & _)];
    rewrite Hpack in Hb;
    pose proof (f_equal (λ r, match r with Ok x => x | Err _ => [] end) Hb)
      as Hb';
    cbv beta iota in Hb'; rewrite <- Hb';
    (apply Forall_app_2; [apply header_bytes|]).
  - by apply utf8_bytes.
  - by eapply registered_encrypt_bytes.
Qed.

(** X23. Packed data survives the Base64 transport: for a
    JSON-representable value, the buffer [pack] returns, turned into
    text by [BinaryPack.bufferToBase64] and back into a new buffer by
    [BinaryPack.base64ToBuffer], is unpacked by the same packer to the
    value. *)
Theorem base64_transport (secret method : option JSString)
    (this : BinaryPack.t) (v : JSValue) (h : Heap) :
  BinaryPack.new secret method = Ok this →
  JSON_representable v →
  (∀ n, serialized_length v n → Z.of_nat n < 2 ^ 32) →
  ∃ (l : nat) (h1 : Heap) (text : JSString) (l2 : nat) (h2 : Heap),
    BinaryPack.pack this v h = (Ok l, h1)
    ∧ BinaryPack_bufferToBase64 (ArrayBufferRef l) h1 = Returned text
    ∧ BinaryPack_base64ToBuffer (Str text) h1 = (Returned l2, h2)
    ∧ l2 ≠ l
    ∧ (BinaryPack.unpack this l2 h2).1 = Ok v.
Proof.
  intros Hnew (s & Hs & Hvalid & Hdec & Hparse) Hfits.
  assert (Hn : Z.of_nat (length (TextEncoder.encode (Some s))) < 2 ^ 32).
  { apply Hfits. by exists (Text s). }
  destruct (unpack_pack_bytes _ _ _ v s Hnew Hs Hvalid Hn)
    as (b & Hpack & Hunpack).
  pose proof (pack_bytes_are_bytes _ _ _ v s b Hnew Hs Hvalid Hpack) as Hb.
  pose proof (pack_run this v h) as Hrun. rewrite Hpack in Hrun.
  set (l := fresh (dom h)) in *. set (h1 := <[l := b]> h) in *.
  assert (Hl : h1 !! l = Some b) by apply lookup_insert_eq.
  destruct (base64_there_and_back l b h1 Hl Hb) as [Hto Hfrom].
  set (l2 := fresh (dom h1)) in *.
  destruct (unpack_run this l2 b (<[l2 := b]> h1)) as [b' Hrun'];
    [apply lookup_insert_eq|].
  exists l, h1, (WindowBase64.encode_bytes b), l2, (<[l2 := b]> h1).
  split; [exact Hrun|]. split; [exact Hto|]. split; [exact Hfrom|].
  split; [apply fresh_not_in; by rewrite Hl|].
  rewrite Hrun', Hunpack, Hdec, Hparse. reflexivity.
Qed.

End Base64Transport.

Lemma base64_round_trip_witness :
  ∃ (text : JSString) (l' : nat) (h' : Heap),
    Base64.bufferToBase64 (ArrayBufferRef 0)
      ({[0%nat := [1; 2; 3; 4]]} : Heap) = Returned text
    ∧ length text = (4 * ((length [1; 2; 3; 4] + 2) / 3))%nat
    ∧ Base64.base64ToBuffer (Str text) ({[0%nat := [1; 2; 3; 4]]} : Heap)
      = (Returned l', h')
    ∧ l' ≠ 0%nat
    ∧ h' !! l' = Some [1; 2; 3; 4]
    ∧ h' !! 0%nat = Some [1; 2; 3; 4].
Proof.
  apply (base64_round_trip 0 [1; 2; 3; 4]
           ({[0%nat := [1; 2; 3; 4]]} : Heap)).
  - vm_compute. reflexivity.
  - unfold is_byte. repeat apply Forall_cons_2; try apply Forall_nil_2; lia.
Defined.

(** The text of the source's own example. *)
Example base64_example :
  Base64.bufferToBase64 (ArrayBufferRef 0) ({[0%nat := [1; 2; 3; 4]]} : Heap)
  = Returned (js "AQIDBA==").
Proof. vm_compute. reflexivity. Qed.

Lemma base64ToBuffer_outcome_witness :
  Base64.base64ToBuffer (Str (js "QQ=")) (∅ : Heap)
  = (Thrown DecodeFailure, (∅ : Heap)).
Proof.
  apply (proj2 (base64ToBuffer_outcome (js "QQ=") (∅ : Heap) eq_refl)).
  intros [H | [H _]]; [vm_compute in H; discriminate H|].
  apply H. change (61 ∈ [81; 81; 61]). rewrite !elem_of_cons. tauto.
Defined.

Lemma base64_transport_witness :
  ∃ (l : nat) (h1 : Heap) (text : JSString) (l2 : nat) (h2 : Heap),
    BinaryPack.pack (RT := literal_runtime) xor_packer LTrue (∅ : Heap)
    = (Ok l, h1)
    ∧ BinaryPack_bufferToBase64 (ArrayBufferRef l) h1 = Returned text
    ∧ BinaryPack_base64ToBuffer (Str text) h1 = (Returned l2, h2)
    ∧ l2 ≠ l
    ∧ (BinaryPack.unpack (RT := literal_runtime) xor_packer l2 h2).1
      = Ok LTrue.
Proof.
  apply (base64_transport (RT := literal_runtime)
           (Some (js "k")) (Some (js "xor")) xor_packer LTrue (∅ : Heap));
    [reflexivity | apply literal_true_representable
    | apply literal_true_fits].
Defined.
